(** * dumpctl: a shallow embedding of [dumpctl.c]

    The store pipeline of dumpctl (staging buffer, streaming copier, numeric
    argument parsing, directory creation, leaf naming, metadata record) is
    embedded as executable Rocq functions over an explicit world state, and the
    properties of the natural-language specification are proved about them.

    Conventions
    - [size_t], [uintmax_t]: [Z] reduced modulo [2^64]; [unsigned]: modulo
      [2^32]; [ssize_t] and [int]: the two's complement reading.
    - [assert] is a macro that depends on [NDEBUG]; the functions that use it
      take the build configuration [ndebug : bool] ([false] is the build the
      source file gives when compiled as it is).
    - Pointers into [f->buf] are offsets into the array.
    - C string literals are kept as written in the source: the two characters
      backslash and n stand for the newline the C compiler would produce. *)

From Stdlib Require Import ZArith Lia Ascii.
From Stdlib.Strings Require Import Byte.
From stdpp Require Import base tactics option list strings pretty gmap.

Local Open Scope Z_scope.

(** ** Machine integers *)

Definition wrap_size_t (z : Z) : Z := z mod 2 ^ 64.
Definition wrap_unsigned (z : Z) : Z := z mod 2 ^ 32.

(** Conversion of a 64-bit pattern to [ssize_t] / [time_t]. *)
Definition to_ssize_t (z : Z) : Z :=
  let u := z mod 2 ^ 64 in if u <? 2 ^ 63 then u else u - 2 ^ 64.

(** Conversion to [int] (what gcc and clang do on narrowing). *)
Definition to_int (z : Z) : Z :=
  let u := z mod 2 ^ 32 in if u <? 2 ^ 31 then u else u - 2 ^ 32.

Definition UINTMAX_MAX : Z := 2 ^ 64 - 1.
Definition EXIT_SUCCESS : Z := 0.
Definition EXIT_FAILURE : Z := 1.

(** ** Outcomes of a C computation *)

Inductive outcome (A : Type) : Type :=
| Ret (a : A)          (* normal completion *)
| Exit (status : Z)    (* the process called exit(status) *)
| Abort                (* a failed assert: abort() *)
| Undef                (* behaviour the C standard leaves undefined *)
| OutOfFuel.           (* the model's loop bound was reached *)
Arguments Ret {A} a.
Arguments Exit {A} status.
Arguments Abort {A}.
Arguments Undef {A}.
Arguments OutOfFuel {A}.

(** [assert(c)]: nothing with NDEBUG, abort on a false condition without. *)
Definition c_assert (ndebug : bool) (c : bool) : outcome unit :=
  if ndebug || c then Ret () else Abort.

(** ** The staging buffer: [struct fbuf] *)

(** [sizeof(f->buf)], from [uint8_t buf[4096]]. *)
Definition sizeof_buf : Z := 4096.

Record fbuf := Fbuf {
  bytes_in_buf : Z;
  buf : list byte;       (* the 4096 cells of the array *)
}.

Definition fbuf_wf (f : fbuf) : Prop := length (buf f) = Z.to_nat sizeof_buf.

(** The bytes the buffer holds: the first [bytes_in_buf] cells. *)
Definition fbuf_held (f : fbuf) : list byte :=
  take (Z.to_nat (bytes_in_buf f)) (buf f).

Definition fbuf_feed (ndebug : bool) (f : fbuf) (n : Z) : outcome fbuf :=
  let f' := {| bytes_in_buf := wrap_size_t (bytes_in_buf f + n); buf := buf f |} in
  match c_assert ndebug (bytes_in_buf f' <? n) with
  | Ret _ => Ret f'
  | _ => Abort
  end.

(** [f->buf + f->bytes_in_buf], as an offset into [buf]. *)
Definition fbuf_space_ptr (f : fbuf) : Z := bytes_in_buf f.

Definition fbuf_space (f : fbuf) : Z := wrap_size_t (sizeof_buf - bytes_in_buf f).

(** [f->buf], as an offset into [buf]. *)
Definition fbuf_data_ptr (f : fbuf) : Z := 0.

Definition fbuf_data (f : fbuf) : Z := bytes_in_buf f.

(** Reading [n] bytes at offset [off] of the array; outside it is undefined. *)
Definition buf_load (f : fbuf) (off n : Z) : outcome (list byte) :=
  if (0 <=? off) && (0 <=? n) && (off + n <=? Z.of_nat (length (buf f)))
  then Ret (take (Z.to_nat n) (drop (Z.to_nat off) (buf f)))
  else Undef.

(** Writing the bytes [d] at offset [off] of the array. *)
Definition buf_store (f : fbuf) (off : Z) (d : list byte) : outcome fbuf :=
  if (0 <=? off) && (off + Z.of_nat (length d) <=? Z.of_nat (length (buf f)))
  then Ret {| bytes_in_buf := bytes_in_buf f;
              buf := take (Z.to_nat off) (buf f) ++ d
                     ++ drop (Z.to_nat off + length d) (buf f) |}
  else Undef.

(** [memmove(f->buf + dst, f->buf + src, n)]. *)
Definition buf_memmove (f : fbuf) (dst src n : Z) : outcome fbuf :=
  match buf_load f src n with
  | Ret d => buf_store f dst d
  | _ => Undef
  end.

Definition fbuf_eat (ndebug : bool) (f : fbuf) (n : Z) : outcome fbuf :=
  match c_assert ndebug (n <=? bytes_in_buf f) with
  | Ret _ =>
      match buf_memmove f 0 n (wrap_size_t (bytes_in_buf f - n)) with
      | Ret f1 => Ret {| bytes_in_buf := wrap_size_t (bytes_in_buf f1 - n);
                         buf := buf f1 |}
      | _ => Undef
      end
  | _ => Abort
  end.

Definition fbuf_init (f : fbuf) : fbuf :=
  (* NOTE: for perf, we do not zero the buffer *)
  {| bytes_in_buf := 0; buf := buf f |}.

(** Sequences of buffer operations, as a caller would issue them. *)
Inductive fbuf_op := OpFeed (n : Z) | OpEat (n : Z).

Definition fbuf_apply (ndebug : bool) (f : fbuf) (op : fbuf_op) : outcome fbuf :=
  match op with
  | OpFeed n => fbuf_feed ndebug f n
  | OpEat n => fbuf_eat ndebug f n
  end.

Fixpoint fbuf_run (ndebug : bool) (f : fbuf) (ops : list fbuf_op) : outcome fbuf :=
  match ops with
  | [] => Ret f
  | op :: ops' =>
      match fbuf_apply ndebug f op with
      | Ret f' => fbuf_run ndebug f' ops'
      | o => o
      end
  end.

(** A [size_t] argument. *)
Definition is_size_t (n : Z) : Prop := 0 <= n < 2 ^ 64.

(** Buffers reachable from [fbuf_init] by operations whose arguments respect
    the contract of the operation: bytes are stored in the free tail of the
    array, a feed is of at most the free space, an eat of at most the data
    held. *)
Inductive fbuf_reachable (ndebug : bool) : fbuf → Prop :=
| reach_init f0 :
    fbuf_wf f0 → fbuf_reachable ndebug (fbuf_init f0)
| reach_store f d off f' :
    fbuf_reachable ndebug f →
    fbuf_space_ptr f <= off →
    buf_store f off d = Ret f' →
    fbuf_reachable ndebug f'
| reach_feed f n f' :
    fbuf_reachable ndebug f →
    0 <= n <= fbuf_space f →
    fbuf_feed ndebug f n = Ret f' →
    fbuf_reachable ndebug f'
| reach_eat f n f' :
    fbuf_reachable ndebug f →
    0 <= n <= fbuf_data f →
    fbuf_eat ndebug f n = Ret f' →
    fbuf_reachable ndebug f'.

(** ** The environment: streams, descriptors, the file system *)

Inductive errno :=
| EEXIST | ENOENT | ENOTDIR | EACCES | EINVAL | EISDIR | EIO | EINTR
| EAGAIN | ENOSPC | EBADF.

Global Instance errno_eq_dec : EqDecision errno.
Proof. solve_decision. Defined.

Definition strerror (e : errno) : string :=
  match e with
  | EEXIST => "File exists"
  | ENOENT => "No such file or directory"
  | ENOTDIR => "Not a directory"
  | EACCES => "Permission denied"
  | EINVAL => "Invalid argument"
  | EISDIR => "Is a directory"
  | EIO => "Input/output error"
  | EINTR => "Interrupted system call"
  | EAGAIN => "Resource temporarily unavailable"
  | ENOSPC => "No space left on device"
  | EBADF => "Bad file descriptor"
  end.

(** What the next [fread] on the input does: deliver what was asked for as
    far as the stream has it, or hit a read error after [k] bytes. *)
Inductive read_ev := ReadOk | ReadErr (k : nat).

(** The input [FILE]: the bytes not yet read, the end-of-file indicator and
    the behaviour of the reads to come (a read past the schedule succeeds). *)
Record in_stream := InStream {
  in_rest : list byte;
  in_eof : bool;
  in_sched : list read_ev;
}.

(** [fread(ptr, 1, nmemb, stream)]: the bytes delivered and the stream after.
    A request of zero items returns zero and leaves the stream as it is; a
    read that finds fewer bytes than asked for sets the end-of-file
    indicator; a read error leaves it alone. *)
Definition fread (nmemb : Z) (s : in_stream) : list byte * in_stream :=
  if nmemb =? 0 then ([], s)
  else
    match in_sched s with
    | ReadErr k :: sched =>
        let m := (k `min` Z.to_nat nmemb)%nat in
        (take m (in_rest s),
         {| in_rest := drop m (in_rest s); in_eof := in_eof s; in_sched := sched |})
    | sched =>
        let m := Z.to_nat nmemb in
        (take m (in_rest s),
         {| in_rest := drop m (in_rest s);
            in_eof := in_eof s || (Z.of_nat (length (in_rest s)) <? nmemb);
            in_sched := tail sched |})
    end.

(** What the next [write] does: accept everything, accept at most [k] bytes
    (zero for [k = 0]), or fail with an error number. *)
Inductive write_ev := WriteOk | WriteShort (k : nat) | WriteFail (e : errno).

Inductive node := Dir | File.

Inductive access_mode := O_RDONLY | O_WRONLY | O_RDWR.

Global Instance access_mode_eq_dec : EqDecision access_mode.
Proof. solve_decision. Defined.

Record open_flags := OpenFlags {
  o_acc : access_mode;
  o_creat : bool;
  o_directory : bool;
}.

(** The file system calls a run makes, as issued. *)
Inductive call :=
| CallMkdir (path : string) (mode : Z)
| CallOpendir (dir : string)
| CallOpenat (dirfd : Z) (name : string) (flags : open_flags) (mode : Z).

Record world := World {
  w_fs : gmap (list string) node;     (* the directory tree, by absolute path *)
  w_ro : gset (list string);          (* directories that refuse new entries *)
  w_fds : gmap Z (list string);       (* open descriptors *)
  w_stdin : in_stream;
  w_wsched : list write_ev;           (* the writes to come; then all succeed *)
  w_out : gmap Z (list byte);         (* bytes accepted so far, per descriptor *)
  w_stderr : list string;
  w_syslog : list (Z * string);
  w_calls : list call;                (* file system calls made so far *)
}.

Definition set_fs (x : gmap (list string) node) (w : world) : world :=
  World
    x (w_ro w) (w_fds w) (w_stdin w) (w_wsched w) (w_out w) (w_stderr w) (w_syslog w) (w_calls w).
Definition set_fds (x : gmap Z (list string)) (w : world) : world :=
  World
    (w_fs w) (w_ro w) x (w_stdin w) (w_wsched w) (w_out w) (w_stderr w) (w_syslog w) (w_calls w).
Definition set_stdin (x : in_stream) (w : world) : world :=
  World
    (w_fs w) (w_ro w) (w_fds w) x (w_wsched w) (w_out w) (w_stderr w) (w_syslog w) (w_calls w).
Definition set_wsched (x : list write_ev) (w : world) : world :=
  World
    (w_fs w) (w_ro w) (w_fds w) (w_stdin w) x (w_out w) (w_stderr w) (w_syslog w) (w_calls w).
Definition set_out (x : gmap Z (list byte)) (w : world) : world :=
  World
    (w_fs w) (w_ro w) (w_fds w) (w_stdin w) (w_wsched w) x (w_stderr w) (w_syslog w) (w_calls w).
Definition set_stderr (x : list string) (w : world) : world :=
  World
    (w_fs w) (w_ro w) (w_fds w) (w_stdin w) (w_wsched w) (w_out w) x (w_syslog w) (w_calls w).
Definition set_syslog (x : list (Z * string)) (w : world) : world :=
  World
    (w_fs w) (w_ro w) (w_fds w) (w_stdin w) (w_wsched w) (w_out w) (w_stderr w) x (w_calls w).
Definition set_calls (x : list call) (w : world) : world :=
  World
    (w_fs w) (w_ro w) (w_fds w) (w_stdin w) (w_wsched w) (w_out w) (w_stderr w) (w_syslog w) x.

(** The bytes descriptor [fd] has accepted. *)
Definition written_to (fd : Z) (w : world) : list byte := default [] (w_out w !! fd).

(** ** Computations over the world *)

Definition M (A : Type) : Type := world → outcome A * world.

Global Instance M_ret : MRet M := λ A a w, (Ret a, w).
Global Instance M_bind : MBind M := λ A B k m w,
  match m w with
  | (Ret a, w') => k a w'
  | (Exit c, w') => (Exit c, w')
  | (Abort, w') => (Abort, w')
  | (Undef, w') => (Undef, w')
  | (OutOfFuel, w') => (OutOfFuel, w')
  end.

Definition lift {A} (o : outcome A) : M A := λ w, (o, w).
Definition c_exit {A} (status : Z) : M A := lift (Exit status).

(** [fprintf(stderr, ...)] with the message already formatted. *)
Definition eprint (msg : string) : M unit :=
  λ w, (Ret (), set_stderr (w_stderr w ++ [msg]) w).

Definition sys_fread (nmemb : Z) : M (list byte) :=
  λ w, let '(d, s) := fread nmemb (w_stdin w) in (Ret d, set_stdin s w).

Definition feof : M bool := λ w, (Ret (in_eof (w_stdin w)), w).

Definition accept_bytes (fd : Z) (d : list byte) (w : world) : world :=
  set_out (<[fd := written_to fd w ++ d]> (w_out w)) w.

(** [write(fd, data, length data)]: the count accepted, or the error. *)
Definition sys_write (fd : Z) (d : list byte) : M (Z + errno) :=
  λ w, match w_wsched w with
       | WriteFail e :: sched => (Ret (inr e), set_wsched sched w)
       | WriteShort k :: sched =>
           (Ret (inl (Z.of_nat (length (take k d)))),
            accept_bytes fd (take k d) (set_wsched sched w))
       | sched =>
           (Ret (inl (Z.of_nat (length d))),
            accept_bytes fd d (set_wsched (tail sched) w))
       end.

(** ** The streaming copier: [copy_file_to_fd] *)

(** The locals of [copy_file_to_fd]. *)
Record copy_state := CopyState {
  cs_read_bytes : Z;        (* size_t read_bytes *)
  cs_written_bytes : Z;     (* size_t written_bytes *)
  cs_err : Z;               (* unsigned err *)
  cs_done_reading : bool;
  cs_f : fbuf;
}.

Definition cs_err_incr (st : copy_state) : copy_state :=
  CopyState (cs_read_bytes st) (cs_written_bytes st) (wrap_unsigned (cs_err st + 1))
            (cs_done_reading st) (cs_f st).

(** The [do ... while] loop. [inl r]: the function returned [r];
    [inr st]: the loop was left and the [for] loop goes round again. *)
Fixpoint copy_drain (ndebug : bool) (fuel : nat) (out_fd : Z) (st : copy_state)
  : M (Z + copy_state) :=
  match fuel with
  | O => lift OutOfFuel
  | S fuel' =>
      if fbuf_data (cs_f st) =? 0 then
        mret (inl (to_ssize_t (cs_written_bytes st)))
      else
        d ← lift (buf_load (cs_f st) (fbuf_data_ptr (cs_f st)) (fbuf_data (cs_f st)));
        r ← sys_write out_fd d;
        match r with
        | inl wl =>
            if wl =? 0 then
              (* ??? *)
              eprint "Error: write returned zero bytes written, will retry\n";;
              mret (inr (cs_err_incr st))
            else
              f' ← lift (fbuf_eat ndebug (cs_f st) wl);
              let st' := CopyState (cs_read_bytes st)
                                   (wrap_size_t (cs_written_bytes st + wl))
                                   (cs_err st) (cs_done_reading st) f' in
              (* if we've go space to read, do that again. If not, keep trying to write *)
              if (fbuf_space f' =? 0) || cs_done_reading st
              then copy_drain ndebug fuel' out_fd st'
              else mret (inr st')
        | inr e =>
            eprint ("Error: write failed due to " +:+ strerror e +:+ "\n");;
            mret (inr (cs_err_incr st))
        end
  end.

(** The [for (;;)] loop. *)
Fixpoint copy_loop (ndebug : bool) (fuel : nat) (out_fd : Z) (st : copy_state) : M Z :=
  match fuel with
  | O => lift OutOfFuel
  | S fuel' =>
      if 10 <? cs_err st then
        eprint "Error: too many errors while copying file";;
        mret (-1)
      else
        d ← sys_fread (fbuf_space (cs_f st));
        f1 ← lift (buf_store (cs_f st) (fbuf_space_ptr (cs_f st)) d);
        let rl := Z.of_nat (length d) in
        eof ← feof;
        if (rl =? 0) && negb eof then
          eprint "Error reading input core file\n";;
          copy_loop ndebug fuel' out_fd (cs_err_incr st)
        else
          (* done reading! *)
          let done := if rl =? 0 then true else cs_done_reading st in
          f2 ← lift (fbuf_feed ndebug f1 rl);
          let st1 := CopyState (wrap_size_t (cs_read_bytes st + rl))
                               (cs_written_bytes st) (cs_err st) done f2 in
          r ← copy_drain ndebug fuel' out_fd st1;
          match r with
          | inl v => mret v
          | inr st2 => copy_loop ndebug fuel' out_fd st2
          end
  end.

(** [f0] is the uninitialised [struct fbuf f] of the stack frame. *)
Definition copy_file_to_fd (ndebug : bool) (fuel : nat) (f0 : fbuf) (out_fd : Z) : M Z :=
  copy_loop ndebug fuel out_fd (CopyState 0 0 0 false (fbuf_init f0)).

(** ** Numeric arguments: [parse_unum] *)

(** [isspace] in the C locale. *)
Definition isspace (c : ascii) : bool :=
  let n := nat_of_ascii c in
  (n =? 32)%nat || ((9 <=? n)%nat && (n <=? 13)%nat).

(** The value of a digit or letter as a digit of some base. *)
Definition digit_value (c : ascii) : option Z :=
  let n := Z.of_nat (nat_of_ascii c) in
  if (48 <=? n) && (n <=? 57) then Some (n - 48)
  else if (97 <=? n) && (n <=? 122) then Some (n - 97 + 10)
  else if (65 <=? n) && (n <=? 90) then Some (n - 65 + 10)
  else None.

Definition is_digit_of (base : Z) (c : ascii) : bool :=
  match digit_value c with
  | Some v => v <? base
  | None => false
  end.

Fixpoint skip_spaces (s : string) : string :=
  match s with
  | String c s' => if isspace c then skip_spaces s' else s
  | EmptyString => s
  end.

(** The longest run of digits of [base] at the front of [s]: their value on
    top of [acc] (unbounded) and what follows them. *)
Fixpoint scan_digits (base acc : Z) (s : string) : Z * string :=
  match s with
  | String c s' =>
      match digit_value c with
      | Some v => if v <? base then scan_digits base (acc * base + v) s' else (acc, s)
      | None => (acc, s)
      end
  | EmptyString => (acc, s)
  end.

Definition starts_with_digit (base : Z) (s : string) : bool :=
  match s with
  | String c _ => is_digit_of base c
  | EmptyString => false
  end.

(** The base-0 prefix rule: [0x] or [0X] before a hexadecimal digit selects
    base 16 and is skipped, another leading [0] selects base 8, anything else
    base 10. *)
Definition detect_base (s : string) : Z * string :=
  match s with
  | String c rest =>
      if (c =? "0")%char then
        match rest with
        | String x s' =>
            if ((x =? "x") || (x =? "X"))%char && starts_with_digit 16 s'
            then (16, s') else (8, s)
        | EmptyString => (8, s)
        end
      else (10, s)
  | EmptyString => (10, s)
  end.

(** The result of [strtoumax(n, &end, 0)] with [errno] cleared before the
    call: the value, the string [end] points to, and whether [errno] was set
    (to ERANGE, the only error of a call with a valid base). *)
Record strto_result := StrtoResult {
  st_value : Z;
  st_end : string;
  st_errno : bool;
}.

(** [strtoumax(n, &end, 0)] as ISO C defines it: white space, an optional
    sign, the longest run of digits in the detected base. Without a digit no
    conversion is made: the value is 0 and [end] is [n] itself. A value above
    [UINTMAX_MAX] gives [UINTMAX_MAX] and ERANGE; a minus sign negates the
    value in [uintmax_t]. *)
Definition strtoumax (n : string) : strto_result :=
  let s1 := skip_spaces n in
  let '(neg, s2) :=
    match s1 with
    | String c s' =>
        if (c =? "-")%char then (true, s')
        else if (c =? "+")%char then (false, s')
        else (false, s1)
    | EmptyString => (false, s1)
    end in
  let '(base, s3) := detect_base s2 in
  if starts_with_digit base s3 then
    let '(v, rest) := scan_digits base 0 s3 in
    if UINTMAX_MAX <? v then StrtoResult UINTMAX_MAX rest true
    else StrtoResult (if neg then (- v) mod 2 ^ 64 else v) rest false
  else StrtoResult 0 n false.

(** [n] is the [char *] argument: [None] is the null pointer. *)
Definition parse_unum (n : option string) (name : string) : M Z :=
  match n with
  | None => lift Undef
  | Some n =>
      let r := strtoumax n in
      if (st_value r =? UINTMAX_MAX) && st_errno r then
        eprint ("Error: failure parsing " +:+ name +:+ ", '" +:+ n +:+ "': "
                +:+ "Numerical result out of range" +:+ "\n");;
        c_exit EXIT_FAILURE
      else if negb (String.eqb (st_end r) "") then
        eprint ("Error: trailing characters in " +:+ name +:+ ", '" +:+ n +:+ "'\n");;
        c_exit EXIT_FAILURE
      else mret (st_value r)
  end.

(** ** Actions *)

Inductive act := ACT_NONE | ACT_SETUP | ACT_STORE | ACT_INFO | ACT_GDB | ACT_LIST.

Global Instance act_eq_dec : EqDecision act.
Proof. solve_decision. Defined.

Definition parse_act (action : string) : act :=
  match action with
  | String "s" rest =>
      match rest with
      | String "e" _ => ACT_SETUP
      | String "t" _ => ACT_STORE
      | _ => ACT_NONE
      end
  | String "g" _ => ACT_GDB
  | String "l" _ => ACT_LIST
  | String "i" _ => ACT_INFO
  | _ => ACT_NONE
  end.

(** ** Logging: [pr_log] and the [pr_*] macros *)

Definition use_syslog : bool := true.
Definition err_include_level : bool := false.

Definition LOG_ALERT : Z := 1.
Definition LOG_ERR : Z := 3.
Definition LOG_WARNING : Z := 4.

(** [s + k] for a C string. *)
Fixpoint str_drop (k : nat) (s : string) : string :=
  match k, s with
  | O, _ => s
  | S k', String _ s' => str_drop k' s'
  | S _, EmptyString => EmptyString
  end.

(** [fmt] is the message with its arguments already substituted; the level
    prefix is a literal of the format, so it is unaffected by them. *)
Definition pr_log (fmt : string) : M unit :=
  let level :=
    match String.get 0 fmt, String.get 1 fmt, String.get 2 fmt with
    | Some "<"%char, Some c, Some ">"%char => Z.of_nat (nat_of_ascii c) - 48
    | _, _, _ => LOG_ALERT
    end in
  λ w,
    let w1 := if use_syslog
              then set_syslog (w_syslog w ++ [(level, str_drop 3 fmt)]) w else w in
    (* XXX: consider whether stdout is appropriate sometimes *)
    let f := if err_include_level then fmt else str_drop 3 fmt in
    (Ret (), set_stderr (w_stderr w1 ++ [f]) w1).

Definition pr_err (msg : string) : M unit := pr_log ("<" +:+ pretty LOG_ERR +:+ ">" +:+ msg).
Definition pr_warn (msg : string) : M unit := pr_log ("<" +:+ pretty LOG_WARNING +:+ ">" +:+ msg).

(** ** The file system calls *)

Fixpoint split_slash (s : string) : list string :=
  match s with
  | EmptyString => [EmptyString]
  | String c s' =>
      let r := split_slash s' in
      if (c =? "/")%char then EmptyString :: r
      else match r with
           | x :: xs => String c x :: xs
           | [] => [String c EmptyString]
           end
  end.

(** Path resolution: follow the components [comps] from the directory [cur].
    Every component followed has to be a directory. *)
Fixpoint walk (fs : gmap (list string) node) (cur : list string) (comps : list string)
  : list string + errno :=
  match comps with
  | [] => inl cur
  | c :: cs =>
      if String.eqb c "" || String.eqb c "." then walk fs cur cs
      else if String.eqb c ".." then walk fs (removelast cur) cs
      else match fs !! (cur ++ [c]) with
           | Some Dir => walk fs (cur ++ [c]) cs
           | Some File => inr ENOTDIR
           | None => inr ENOENT
           end
  end.

(** A path name cut into the components leading to its last name, and that
    name; trailing slashes are ignored. [None]: no name at all. *)
Fixpoint split_last (comps : list string) : option (list string * string) :=
  match comps with
  | [] => None
  | c :: cs =>
      match split_last cs with
      | Some (ini, l) => Some (c :: ini, l)
      | None => if String.eqb c "" then None else Some ([], c)
      end
  end.

(** [mkdir(path, mode)]: [inl ()] for 0, [inr e] for -1 with [errno = e].
    The working directory is the root, as for a core_pattern helper; the
    mode plays no part in the model. *)
Definition mkdir (path : string) (mode : Z) : M (unit + errno) :=
  λ w,
    let w := set_calls (w_calls w ++ [CallMkdir path mode]) w in
    let fs := w_fs w in
    if String.eqb path "" then (Ret (inr ENOENT), w) else
    match split_last (split_slash path) with
    | None => (Ret (inr EEXIST), w)                (* the root itself *)
    | Some (ini, l) =>
        match walk fs [] ini with
        | inr e => (Ret (inr e), w)
        | inl p =>
            if String.eqb l "." || String.eqb l ".." then (Ret (inr EEXIST), w)
            else match fs !! (p ++ [l]) with
                 | Some _ => (Ret (inr EEXIST), w)
                 | None =>
                     if decide (p ∈ w_ro w) then (Ret (inr EACCES), w)
                     else (Ret (inl ()), set_fs (<[p ++ [l] := Dir]> fs) w)
                 end
        end
    end.

(** The lowest descriptor above the standard three that is not open. *)
Fixpoint lowest_free (fds : gmap Z (list string)) (n : nat) (cand : Z) : Z :=
  match n with
  | O => cand
  | S n' => match fds !! cand with
            | Some _ => lowest_free fds n' (cand + 1)
            | None => cand
            end
  end.

Definition open_fd (p : list string) (w : world) : Z * world :=
  let fd := lowest_free (w_fds w) (size (w_fds w)) 3 in
  (fd, set_fds (<[fd := p]> (w_fds w)) w).

(** [opendir(dir)] followed by [dirfd]: the descriptor of the directory
    stream, or the error. *)
Definition opendir (dir : string) : M (Z + errno) :=
  λ w,
    let w := set_calls (w_calls w ++ [CallOpendir dir]) w in
    if String.eqb dir "" then (Ret (inr ENOENT), w) else
    match walk (w_fs w) [] (split_slash dir) with
    | inr e => (Ret (inr e), w)
    | inl p => let '(fd, w') := open_fd p w in (Ret (inl fd), w')
    end.

(** [openat(dirfd, name, flags, mode)] as Linux does it. [O_CREAT] together
    with [O_DIRECTORY] is refused with EINVAL (since Linux 6.4; earlier
    kernels fail as well, with ENOTDIR or EISDIR): [open] never creates a
    directory. A directory cannot be opened for writing or with [O_CREAT]. *)
Definition openat (dirfd : Z) (name : string) (flags : open_flags) (mode : Z)
  : M (Z + errno) :=
  λ w,
    let w := set_calls (w_calls w ++ [CallOpenat dirfd name flags mode]) w in
    match w_fds w !! dirfd with
    | None => (Ret (inr EBADF), w)
    | Some base =>
        if o_creat flags && o_directory flags then (Ret (inr EINVAL), w) else
        if String.eqb name "" then (Ret (inr ENOENT), w) else
        let start := match name with String "/" _ => [] | _ => base end in
        match split_last (split_slash name) with
        | None => (Ret (inr EISDIR), w)
        | Some (ini, l) =>
            match walk (w_fs w) start ini with
            | inr e => (Ret (inr e), w)
            | inl p =>
                match w_fs w !! (p ++ [l]) with
                | Some Dir =>
                    if o_creat flags || negb (bool_decide (o_acc flags = O_RDONLY))
                    then (Ret (inr EISDIR), w)
                    else let '(fd, w') := open_fd (p ++ [l]) w in (Ret (inl fd), w')
                | Some File =>
                    if o_directory flags then (Ret (inr ENOTDIR), w)
                    else let '(fd, w') := open_fd (p ++ [l]) w in (Ret (inl fd), w')
                | None =>
                    if o_creat flags then
                      if decide (p ∈ w_ro w) then (Ret (inr EACCES), w)
                      else let '(fd, w') :=
                             open_fd (p ++ [l]) (set_fs (<[p ++ [l] := File]> (w_fs w)) w) in
                           (Ret (inl fd), w')
                    else (Ret (inr ENOENT), w)
                end
            end
        end
    end.

Definition close (fd : Z) : M unit :=
  λ w, (Ret (), set_fds (delete fd (w_fds w)) w).

(** [dprintf(fd, ...)] with the text already formatted. *)
Definition dprint (fd : Z) (text : string) : M unit :=
  λ w, (Ret (), accept_bytes fd (String.list_byte_of_string text) w).

(** ** Calendar time: [gmtime_r] and [strftime] *)

Record tm := Tm {
  tm_sec : Z; tm_min : Z; tm_hour : Z;
  tm_mday : Z; tm_mon : Z; tm_year : Z;
}.

Definition INT_MAX : Z := 2 ^ 31 - 1.
Definition INT_MIN : Z := - 2 ^ 31.

(** Day number since 1970-01-01 to proleptic Gregorian (year, month, day). *)
Definition civil_from_days (days : Z) : Z * Z * Z :=
  let z := days + 719468 in
  let era := z / 146097 in
  let doe := z - era * 146097 in
  let yoe := (doe - doe / 1460 + doe / 36524 - doe / 146096) / 365 in
  let doy := doe - (365 * yoe + yoe / 4 - yoe / 100) in
  let mp := (5 * doy + 2) / 153 in
  let d := doy - (153 * mp + 2) / 5 + 1 in
  let m := if mp <? 10 then mp + 3 else mp - 9 in
  let y := yoe + era * 400 + (if m <=? 2 then 1 else 0) in
  (y, m, d).

(** [gmtime_r(&t, &tm)]: [None] when the year does not fit [tm_year] (the
    call fails and leaves [tm] as it was). *)
Definition gmtime_r (t : Z) : option tm :=
  let days := t / 86400 in
  let rem := t mod 86400 in
  let '(y, m, d) := civil_from_days days in
  if (INT_MIN <=? y - 1900) && (y - 1900 <=? INT_MAX)
  then Some (Tm (rem mod 60) (rem / 60 mod 60) (rem / 3600) d (m - 1) (y - 1900))
  else None.

Definition pad2 (n : Z) : string :=
  if n <? 10 then "0" +:+ pretty n else pretty n.

(** The expansion of ["%F_%H:%M:%S"]. The year is [tm_year + 1900] computed
    in [int], as glibc does it (it wraps around for the last 1900 values of
    [tm_year]), in plain decimal; C libraries differ on padding and sign
    outside the years 1000 to 9999. *)
Definition format_F_HMS (t : tm) : string :=
  pretty (to_int (tm_year t + 1900)) +:+ "-" +:+ pad2 (tm_mon t + 1) +:+ "-"
  +:+ pad2 (tm_mday t)
  +:+ "_" +:+ pad2 (tm_hour t) +:+ ":" +:+ pad2 (tm_min t) +:+ ":" +:+ pad2 (tm_sec t).

(** [strftime(buf, max, "%F_%H:%M:%S", &tm)]: the count returned and the
    string left in [buf]; 0 when the result and its terminator do not fit. *)
Definition strftime (max : Z) (t : tm) : Z * string :=
  let s := format_F_HMS t in
  let n := Z.of_nat (String.length s) in
  if n + 1 <=? max then (n, s) else (0, EmptyString).

(** ** The store action *)

(** [s[i]] for a C string: past the last character is the terminator. *)
Definition str_at (s : string) (i : nat) : ascii :=
  match String.get i s with
  | Some c => c
  | None => "000"%char
  end.

(** [argv[i]] for an [argv] of [length argv] strings followed by the null
    pointer ([None]); anything further is outside the array. *)
Definition argv_get (argv : list string) (i : Z) : outcome (option string) :=
  if (0 <=? i) && (i <=? Z.of_nat (length argv))
  then Ret (argv !! Z.to_nat i) else Undef.

Definition O_CREAT_DIRECTORY_RDWR : open_flags := OpenFlags O_RDWR true true.
Definition O_CREAT_WRONLY : open_flags := OpenFlags O_WRONLY true false.

Section store.
(** The build: NDEBUG or not, and [PATH_MAX] of <limits.h>. *)
Variable ndebug : bool.
Variable PATH_MAX : Z.
(** [optind] as the [getopt] loop of [main] left it. *)
Variable optind : Z.
(** The bound on the copier's loops and the stack garbage in its buffer. *)
Variable fuel : nat.
Variable f0 : fbuf.

Definition mkdir_or_die (dir : string) : M unit :=
  r ← mkdir dir 511 (* 0777 *);
  match r with
  | inr e =>
      if decide (e ≠ EEXIST) then
        pr_err ("Error: could not create path '" +:+ dir +:+ "', mkdir failed: "
                +:+ strerror e +:+ "\n");;
        c_exit EXIT_FAILURE
      else mret ()
  | inl _ => mret ()
  end.

(** The [mkdir] loop, with [strchr] unrolled into the scan: [pre] is [dir]
    up to [p], [rest] is what [p] points to. At each ['/'] found the string
    is cut there and [mkdir] runs on the prefix; at the end of the string
    ([strchr] gave NULL) it runs on the whole of [dir] and the loop ends. *)
Fixpoint store_mkdirs_from (pre rest : string) : M unit :=
  match rest with
  | EmptyString => mkdir_or_die pre
  | String c rest' =>
      if (c =? "/")%char
      then mkdir_or_die pre;; store_mkdirs_from (pre +:+ "/") rest'
      else store_mkdirs_from (pre +:+ String c EmptyString) rest'
  end.

(** create our storage area if it does not exist:
    for each component in path, mkdir() *)
Definition store_mkdirs (dir : string) : M unit :=
  match dir with
  | String c rest => store_mkdirs_from (String c EmptyString) rest   (* p = dir + 1 *)
  | EmptyString => lift Undef
  end.

(** try to use 'YYYY-MM-DD_HH:MM:SS.pid=PID.uid=UID' *)
Definition store_leaf_name (ts pid uid : Z) : M string :=
  (* FIXME: check overflow *)
  let ts_time := to_ssize_t ts in
  match gmtime_r ts_time with
  | None => lift Undef
  | Some t =>
      let '(b, path_buf) := strftime PATH_MAX t in
      if b =? 0 then
        pr_err "Error: strftime failed\n";;
        c_exit EXIT_FAILURE
      else
        let suffix := ".pid=" +:+ pretty pid +:+ ".uid=" +:+ pretty uid in
        let r := to_int (Z.of_nat (String.length suffix)) in
        if r <? 0 then
          pr_err "Error: could not format storage path\n";;
          c_exit EXIT_FAILURE
        else if PATH_MAX - b - 1 <? wrap_size_t r then
          pr_err ("Error: formatted storage path too long (needed "
                  +:+ pretty (wrap_unsigned r) +:+ " bytes)\n");;
          c_exit EXIT_FAILURE
        else mret (path_buf +:+ suffix)
  end.

Definition info_text (pid uid gid sig ts : Z) (comm path : string) : string :=
  "pid: " +:+ pretty pid +:+ "\n"
  +:+ "uid: " +:+ pretty uid +:+ "\n"
  +:+ "gid: " +:+ pretty gid +:+ "\n"
  +:+ "signal: " +:+ pretty sig +:+ "\n"
  +:+ "timestamp: " +:+ pretty ts +:+ "\n"
  +:+ "comm: " +:+ comm +:+ "\n"
  +:+ "path: " +:+ path +:+ "\n".

(** The locals [act_store] reads from its arguments; [None] is a null
    [char *]. *)
Record store_args := StoreArgs {
  sa_pid : Z; sa_uid : Z; sa_gid : Z; sa_sig : Z; sa_ts : Z;
  sa_comm : option string;
  sa_path : option string;
}.

(** [act_store] is cut into three consecutive blocks. The first: the checks
    on the arguments and their decoding (up to [char *path = ...]). *)
Definition act_store_args (dir : string) (argc : Z) (argv : list string) : M store_args :=
  let ct := to_int (argc - optind) in
  err ← (if negb (ct =? 7) && negb (ct =? 8) then
           pr_err "Error: store requires 7 or 8 arguments\n";; mret 1
         else mret 0);
  (* for store, we require an absolute path *)
  err ← (if negb (str_at dir 0 =? "/")%char then
           pr_err ("Error: store requires an absolute path, but got '"
                   +:+ dir +:+ "'\n");;
           mret (err + 1)
         else mret err);
  if negb (err =? 0) then c_exit EXIT_FAILURE else
  (* FIXME: allow these to be non-fatal errors *)
  a ← lift (argv_get argv (optind + 1)); pid ← parse_unum a "pid";
  a ← lift (argv_get argv (optind + 2)); uid ← parse_unum a "uid";
  a ← lift (argv_get argv (optind + 3)); gid ← parse_unum a "gid";
  a ← lift (argv_get argv (optind + 4)); sig ← parse_unum a "signal";
  a ← lift (argv_get argv (optind + 5)); ts ← parse_unum a "timestamp";
  (* +6 = core limit *)
  comm ← lift (argv_get argv (optind + 7));
  (* FIXME: path gotten this way is mangled... for some reason. unmangle. *)
  path ← lift (argv_get argv (optind + 8));
  mret (StoreArgs pid uid gid sig ts comm path).

(** The second block: the storage area (the [mkdir] loop and [opendir]);
    the result is the descriptor of the directory stream. *)
Definition act_store_dirs (dir : string) : M Z :=
  store_mkdirs dir;;
  d ← opendir dir;
  match d with
  | inr e =>
      pr_err ("Error: failed to open storage dir '" +:+ dir
              +:+ "', opendir failed: " +:+ strerror e +:+ "\n");;
      c_exit EXIT_FAILURE
  | inl d => mret d
  end.

(** The third block: the leaf, the core file and the metadata record. *)
Definition act_store_files (a : store_args) (d : Z) : M Z :=
  path_buf ← store_leaf_name (sa_ts a) (sa_pid a) (sa_uid a);
  store_fd ← openat d path_buf O_CREAT_DIRECTORY_RDWR 493 (* 0755 *);
  match store_fd with
  | inr e =>
      pr_err ("Error: could not open storage dir '" +:+ path_buf +:+ "', "
              +:+ strerror e +:+ "\n");;
      c_exit EXIT_FAILURE
  | inl store_fd =>
  (* store some data! *)
  core_fd ← openat store_fd "core" O_CREAT_WRONLY 420 (* 0644 *);
  match core_fd with
  | inr e =>
      pr_err ("Error: could not open core file: " +:+ strerror e +:+ "\n");;
      c_exit EXIT_FAILURE
  | inl core_fd =>
  r ← copy_file_to_fd ndebug fuel f0 core_fd;
  if to_int r <? 0 then
    pr_err "Error: could not read/write core file\n";;
    c_exit EXIT_FAILURE
  else
  close core_fd;;
  info_fd ← openat store_fd "info.txt" O_CREAT_WRONLY 420 (* 0644 *);
  match info_fd with
  | inr e =>
      pr_err ("Error: could not open info.txt file: " +:+ strerror e +:+ "\n");;
      c_exit EXIT_FAILURE
  | inl info_fd =>
  match sa_comm a, sa_path a with
  | Some comm, Some path =>
      dprint info_fd (info_text (sa_pid a) (sa_uid a) (sa_gid a) (sa_sig a) (sa_ts a)
                                comm path);;
      close info_fd;;
      mret 0
  | _, _ => lift Undef          (* "%s" with a null pointer *)
  end
  end end end.

Definition act_store (dir : string) (argc : Z) (argv : list string) : M Z :=
  a ← act_store_args dir argc argv;
  d ← act_store_dirs dir;
  act_store_files a d.

(** The setup action is outside the store pipeline. *)
Variable act_setup : string → M Z.

(** [usage_], with the text cut down to its first line; what goes to
    standard output is not recorded. *)
Definition usage_ {A} (prgmname : string) (e : Z) : M A :=
  (if negb (e =? EXIT_SUCCESS)
   then eprint ("Usage: " +:+ prgmname +:+ " [options] <action-and-args...>\n")
   else mret ());;
  c_exit e.

(** [main] from the end of the [getopt] loop on: [dir] and [err] are as the
    loop left them, [argv] is the whole argument vector. *)
Definition main (prgmname dir : string) (err : Z) (argv : list string) : M Z :=
  let argc := Z.of_nat (length argv) in
  if argc =? optind then
    eprint "Error: an action is required but none was found\n";;
    usage_ prgmname EXIT_FAILURE
  else
    action ← lift (argv_get argv optind);
    match action with
    | None => lift Undef
    | Some action =>
        let act := parse_act action in
        err ← (if bool_decide (act = ACT_NONE) then
                 eprint ("Error: unknown action '" +:+ action +:+ "'\n");;
                 mret (err + 1)
               else mret err);
        if negb (err =? 0) then usage_ prgmname EXIT_FAILURE else
        let argc := argc - (optind + 1) in
        let argv := drop (Z.to_nat (optind + 1)) argv in
        match act with
        | ACT_STORE => act_store dir argc argv
        | ACT_SETUP => act_setup prgmname
        | _ =>
            pr_warn ("action " +:+ action +:+ " is unimplimented\n");;
            c_exit EXIT_FAILURE
        end
    end.
End store.

(** ** Invariants and specification predicates *)

(** The representation invariant of the staging buffer. *)
Definition fbuf_inv (f : fbuf) : Prop :=
  fbuf_wf f ∧ 0 <= bytes_in_buf f <= sizeof_buf.

(** The end-of-file indicator is only set when the input is used up. *)
Definition stream_wf (s : in_stream) : Prop := in_eof s = true → in_rest s = [].

(** The loop invariant of the copier: [out0] is what the sink held before
    the copy, [inp] what the source still had. *)
Definition copy_inv (fd : Z) (out0 inp : list byte) (st : copy_state) (w : world) : Prop :=
  fbuf_inv (cs_f st)
  ∧ stream_wf (w_stdin w)
  ∧ out0 ++ inp = written_to fd w ++ fbuf_held (cs_f st) ++ in_rest (w_stdin w)
  ∧ (cs_done_reading st = true → in_rest (w_stdin w) = [])
  ∧ cs_written_bytes st
    = wrap_size_t (Z.of_nat (length (written_to fd w)) - Z.of_nat (length out0)).

Definition copy_complete (fd : Z) (out0 inp : list byte) (r : Z) (w : world) : Prop :=
  written_to fd w = out0 ++ inp
  ∧ in_rest (w_stdin w) = []
  ∧ r = to_ssize_t (Z.of_nat (length inp)).

(** The copier did not succeed: it returned [-1] or died in an assertion. *)
Definition copy_failed (o : outcome Z) : Prop := o = Ret (-1) ∨ o = Abort.

(** Two worlds that differ at most in the diagnostics (standard error and
    the system log): same tree, same descriptors, same bytes accepted, same
    input, no file system call in between. *)
Definition same_files (w w' : world) : Prop :=
  w_fs w' = w_fs w ∧ w_ro w' = w_ro w ∧ w_fds w' = w_fds w
  ∧ w_out w' = w_out w ∧ w_stdin w' = w_stdin w ∧ w_wsched w' = w_wsched w
  ∧ w_calls w' = w_calls w.

(** A computation that touches nothing but the diagnostics, whatever its
    outcome. *)
Definition quiet {A} (m : M A) : Prop := ∀ w, same_files w (m w).2.

(** Follows the spec's words for a numeric field: a non-negative integer
    with no trailing garbage, read generously as an unsigned numeral in C
    notation (decimal, octal with a leading 0, hexadecimal after 0x): at
    least one digit, nothing but digits, no sign, no white space. *)
Definition nonneg_integer_token (s : string) : bool :=
  let '(base, body) := detect_base s in
  starts_with_digit base body && String.eqb (scan_digits base 0 body).2 "".

(** What [parse_unum] refuses: a range error, or characters left over. *)
Definition unum_rejected (tok : string) : bool :=
  st_errno (strtoumax tok) || negb (String.eqb (st_end (strtoumax tok)) "").

(** ** The directory initializer, as the specification words it *)

(** The positions of the separators of [s], counted from [i]. *)
Fixpoint slash_positions (i : nat) (s : string) : list nat :=
  match s with
  | EmptyString => []
  | String c s' =>
      if (c =? "/")%char then i :: slash_positions (S i) s'
      else slash_positions (S i) s'
  end.

(** The successively longer prefixes of [dir]: [dir] cut before each
    separator after the first character, then [dir] itself. *)
Definition dir_prefixes (dir : string) : list string :=
  map (λ i, String.substring 0 i dir)
      (filter (λ i, (1 ≤ i)%nat) (slash_positions 0 dir))
  ++ [dir].

(** Create each path in order with mode 0777; "already exists" counts as
    success, any other failure ends the whole invocation. *)
Fixpoint create_prefixes (ps : list string) : M unit :=
  match ps with
  | [] => mret ()
  | p :: ps' =>
      r ← mkdir p 511;
      match r with
      | inl _ => create_prefixes ps'
      | inr e =>
          if decide (e = EEXIST) then create_prefixes ps'
          else
            pr_err ("Error: could not create path '" +:+ p +:+ "', mkdir failed: "
                    +:+ strerror e +:+ "\n");;
            c_exit EXIT_FAILURE
      end
  end.

(** The path [p] is present in every tree that extends [fs]: [mkdir] on it
    answers "already exists" and changes nothing but the record of calls. *)
Definition path_present (fs : gmap (list string) node) (p : string) : Prop :=
  ∀ w mode, fs ⊆ w_fs w →
    mkdir p mode w
    = (Ret (inr EEXIST), set_calls (w_calls w ++ [CallMkdir p mode]) w).

(** ** UTC calendar time and its text, as the specification words them *)

(** The proleptic Gregorian calendar. *)
Definition is_leap (y : Z) : bool :=
  ((y mod 4 =? 0) && negb (y mod 100 =? 0)) || (y mod 400 =? 0).

Definition days_in_month (y m : Z) : Z :=
  if m =? 2 then (if is_leap y then 29 else 28)
  else if (m =? 4) || (m =? 6) || (m =? 9) || (m =? 11) then 30
  else 31.

(** The days of year [y] before the first of month [m]. *)
Definition days_before_month (y m : Z) : Z :=
  foldr Z.add 0 (map (days_in_month y) (seqZ 1 (m - 1))).

(** The days from 1 January of year 1 to 1 January of year [y]: 365 for each
    year, and one more for each leap year among them. *)
Definition days_before_year (y : Z) : Z :=
  365 * (y - 1) + (y - 1) / 4 - (y - 1) / 100 + (y - 1) / 400.

(** The days from 1 January 1970 to the date. *)
Definition days_from_epoch (y m d : Z) : Z :=
  days_before_year y - days_before_year 1970 + days_before_month y m + (d - 1).

(** The seconds from 1970-01-01 00:00:00 UTC to the calendar time, every day
    having 86400 seconds. *)
Definition utc_seconds (y m d h mi s : Z) : Z :=
  days_from_epoch y m d * 86400 + h * 3600 + mi * 60 + s.

(** A date of the calendar and a time of the day. *)
Definition valid_civil (y m d h mi s : Z) : Prop :=
  1 <= m <= 12 ∧ 1 <= d <= days_in_month y m
  ∧ 0 <= h < 24 ∧ 0 <= mi < 60 ∧ 0 <= s < 60.

(** Decimal digits, two and four to a field. *)
Definition digit_char (d : Z) : ascii := ascii_of_N (48 + Z.to_N d).

Definition two_digits (n : Z) : string :=
  String (digit_char (n / 10)) (String (digit_char (n mod 10)) EmptyString).

Definition four_digits (n : Z) : string :=
  String (digit_char (n / 1000))
    (String (digit_char (n / 100 mod 10)) (two_digits (n mod 100))).

(** [YYYY-MM-DD_HH:MM:SS] *)
Definition leaf_time_text (y m d h mi s : Z) : string :=
  four_digits y +:+ "-" +:+ two_digits m +:+ "-" +:+ two_digits d +:+ "_"
  +:+ two_digits h +:+ ":" +:+ two_digits mi +:+ ":" +:+ two_digits s.

(** ** Predicates for the further properties *)

(** The copier came back: a return value, or (only with assertions compiled
    in) an abort. It neither left the buffer nor ran out of loop budget. *)
Definition copy_returns (ndebug : bool) (o : outcome Z) : Prop :=
  (∃ r, o = Ret r) ∨ (ndebug = false ∧ o = Abort).

(** The scheduled events that can raise the error counter: a read error, a
    failed write, a write that accepts nothing. *)
Fixpoint read_failures (sched : list read_ev) : nat :=
  match sched with
  | [] => 0
  | ReadErr _ :: sched' => S (read_failures sched')
  | ReadOk :: sched' => read_failures sched'
  end.

Fixpoint write_failures (sched : list write_ev) : nat :=
  match sched with
  | [] => 0
  | (WriteFail _ | WriteShort O) :: sched' => S (write_failures sched')
  | _ :: sched' => write_failures sched'
  end.

(** The budget is not overdrawn: the counter plus the failures still
    scheduled stays within 10, and the buffer is not full when a write can
    still fail. *)
Definition budget_ok (full_ok : bool) (st : copy_state) (w : world) : Prop :=
  0 <= cs_err st
  ∧ cs_err st + Z.of_nat (read_failures (in_sched (w_stdin w)))
    + Z.of_nat (write_failures (w_wsched w)) <= 10
  ∧ (full_ok = false → bytes_in_buf (cs_f st) < sizeof_buf)
  ∧ (write_failures (w_wsched w) = 0%nat
     ∨ bytes_in_buf (cs_f st) + Z.of_nat (length (in_rest (w_stdin w))) < sizeof_buf).

(** What descriptor [fd] has accepted beyond [out0] is a prefix of [inp]. *)
Definition wrote_prefix (fd : Z) (out0 inp : list byte) (w : world) : Prop :=
  ∃ p q, inp = p ++ q ∧ written_to fd w = out0 ++ p.

(** The bytes of [inp] are split between the sink, the buffer and the
    source, in this order. *)
Definition copy_split (fd : Z) (out0 inp : list byte) (st : copy_state) (w : world) : Prop :=
  fbuf_inv (cs_f st)
  ∧ ∃ p, written_to fd w = out0 ++ p
         ∧ inp = p ++ fbuf_held (cs_f st) ++ in_rest (w_stdin w).

(** From [w] to [w'] nothing was copied: no byte accepted by a descriptor,
    none taken from standard input, no scheduled write used up; the tree has
    at most grown. *)
Definition nothing_copied (w w' : world) : Prop :=
  w_fs w ⊆ w_fs w'
  ∧ w_out w' = w_out w ∧ w_stdin w' = w_stdin w ∧ w_wsched w' = w_wsched w
  ∧ w_ro w' = w_ro w.

(** A computation that copies nothing and, when it does not return, ends
    the process with a failure status or leaves defined behaviour. *)
Definition copies_nothing {A} (m : M A) : Prop :=
  ∀ w, nothing_copied w (m w).2
       ∧ ((∃ a, (m w).1 = Ret a) ∨ (m w).1 = Exit EXIT_FAILURE ∨ (m w).1 = Undef).

(** A computation that does not return to its caller. *)
Definition never_returns {A} (m : M A) : Prop := ∀ w a, (m w).1 ≠ Ret a.

(** * Properties *)

(** ** The staging buffer *)

Section fbuf_facts.
Implicit Types (f : fbuf) (n : Z) (d : list byte).

Lemma fbuf_init_inv f0 : fbuf_wf f0 → fbuf_inv (fbuf_init f0).
Proof. unfold fbuf_inv, fbuf_wf, fbuf_init, sizeof_buf; simpl. lia. Qed.

Lemma fbuf_space_inv f : fbuf_inv f → fbuf_space f = sizeof_buf - bytes_in_buf f.
Proof.
  intros [_ Hb]. unfold fbuf_space, wrap_size_t, sizeof_buf in *.
  apply Z.mod_small. lia.
Qed.

(** A feed is the addition modulo [2^64], whatever the build. *)
Lemma fbuf_feed_Ret ndebug f n f' :
  fbuf_feed ndebug f n = Ret f' →
  f' = Fbuf (wrap_size_t (bytes_in_buf f + n)) (buf f)
  ∧ (ndebug = false → wrap_size_t (bytes_in_buf f + n) < n).
Proof.
  unfold fbuf_feed, c_assert; simpl.
  destruct ndebug; simpl.
  - intros [= <-]. split; [done | discriminate].
  - destruct (Z.ltb_spec (wrap_size_t (bytes_in_buf f + n)) n); [|discriminate].
    intros [= <-]. done.
Qed.

(** With assertions compiled in, a feed that does not wrap around the
    [size_t] range is always refused. *)
Lemma fbuf_feed_assert_no_wrap f n :
  0 <= bytes_in_buf f → 0 <= n → bytes_in_buf f + n < 2 ^ 64 →
  fbuf_feed false f n = Abort.
Proof.
  intros Hb Hn Hs. unfold fbuf_feed, c_assert; simpl.
  unfold wrap_size_t. rewrite Z.mod_small by lia.
  destruct (Z.ltb_spec (bytes_in_buf f + n) n); [lia | done].
Qed.

(** With assertions compiled in, a feed that is let through has wrapped
    around, and leaves fewer bytes than before. *)
Lemma fbuf_feed_assert_decreases f n f' :
  0 <= bytes_in_buf f → is_size_t n →
  fbuf_feed false f n = Ret f' →
  0 <= bytes_in_buf f' < bytes_in_buf f.
Proof.
  intros Hb [Hn0 Hn] Hfeed.
  destruct (Z.lt_ge_cases (bytes_in_buf f + n) (2 ^ 64)) as [Hlt | Hge].
  - rewrite fbuf_feed_assert_no_wrap in Hfeed by done. discriminate.
  - apply fbuf_feed_Ret in Hfeed as [-> Hlt]. specialize (Hlt eq_refl). simpl.
    unfold wrap_size_t in *.
    pose proof (Z.mod_pos_bound (bytes_in_buf f + n) (2 ^ 64) ltac:(lia)).
    split; [lia|].
    destruct (Z.lt_ge_cases (bytes_in_buf f) (2 ^ 64)) as [Hb64 | Hb64].
    + replace ((bytes_in_buf f + n) mod 2 ^ 64)
        with (bytes_in_buf f + n - 2 ^ 64); [lia|].
      apply Z.mod_unique with (q := 1); lia.
    + lia.
Qed.

Lemma buf_store_Ret f off d f' :
  buf_store f off d = Ret f' →
  0 <= off ∧ off + Z.of_nat (length d) <= Z.of_nat (length (buf f))
  ∧ f' = Fbuf (bytes_in_buf f)
           (take (Z.to_nat off) (buf f) ++ d
            ++ drop (Z.to_nat off + length d) (buf f)).
Proof.
  unfold buf_store.
  destruct (Z.leb_spec 0 off); simpl; [|discriminate].
  destruct (Z.leb_spec (off + Z.of_nat (length d)) (Z.of_nat (length (buf f))));
    [|discriminate].
  intros [= <-]. done.
Qed.

Lemma buf_store_length f off d f' :
  buf_store f off d = Ret f' → length (buf f') = length (buf f).
Proof.
  intros (H0 & Hle & ->)%buf_store_Ret. simpl.
  rewrite !length_app, length_take, length_drop. lia.
Qed.

(** Storing into the free tail changes neither the count nor the bytes held. *)
Lemma buf_store_held f off d f' :
  bytes_in_buf f <= off →
  buf_store f off d = Ret f' →
  bytes_in_buf f' = bytes_in_buf f ∧ fbuf_held f' = fbuf_held f.
Proof.
  intros Hoff Hst. pose proof Hst as (H0 & Hle & ->)%buf_store_Ret.
  split; [done|]. unfold fbuf_held; simpl.
  rewrite take_app_le by (rewrite length_take; lia).
  rewrite take_take. f_equal. lia.
Qed.

Lemma buf_store_inv f off d f' :
  fbuf_inv f → buf_store f off d = Ret f' → fbuf_inv f'.
Proof.
  intros [Hwf Hb] Hst. split.
  - unfold fbuf_wf in *. by rewrite (buf_store_length _ _ _ _ Hst).
  - by apply buf_store_Ret in Hst as (_ & _ & ->).
Qed.

Lemma fbuf_feed_inv ndebug f n f' :
  fbuf_inv f → 0 <= n <= fbuf_space f →
  fbuf_feed ndebug f n = Ret f' →
  fbuf_inv f' ∧ bytes_in_buf f' = bytes_in_buf f + n.
Proof.
  intros Hinv Hn Hfeed. pose proof Hinv as [Hwf Hb].
  rewrite fbuf_space_inv in Hn by done.
  apply fbuf_feed_Ret in Hfeed as [-> _].
  unfold fbuf_inv, fbuf_wf, wrap_size_t, sizeof_buf in *; simpl.
  rewrite Z.mod_small by lia. lia.
Qed.

(** An eat within the data held succeeds in every build, shifts the
    remaining bytes to the front and keeps their order. *)
Lemma fbuf_eat_spec ndebug f n :
  fbuf_inv f → 0 <= n <= fbuf_data f →
  ∃ f', fbuf_eat ndebug f n = Ret f'
        ∧ fbuf_inv f'
        ∧ bytes_in_buf f' = bytes_in_buf f - n
        ∧ fbuf_held f' = drop (Z.to_nat n) (fbuf_held f).
Proof.
  intros [Hwf Hb] Hn. unfold fbuf_data in Hn.
  unfold fbuf_wf, sizeof_buf in *.
  unfold fbuf_eat, c_assert.
  destruct (Z.leb_spec n (bytes_in_buf f)); [|lia].
  rewrite orb_true_r.
  unfold wrap_size_t. rewrite (Z.mod_small (bytes_in_buf f - n)) by lia.
  unfold buf_memmove, buf_load.
  destruct (Z.leb_spec 0 n); [|lia].
  destruct (Z.leb_spec 0 (bytes_in_buf f - n)); [|lia].
  destruct (Z.leb_spec (n + (bytes_in_buf f - n)) (Z.of_nat (length (buf f))));
    [|lia].
  simpl. unfold buf_store; simpl.
  rewrite length_take, length_drop.
  destruct (Z.leb_spec
              (0 + Z.of_nat (Z.to_nat (bytes_in_buf f - n)
                             `min` (length (buf f) - Z.to_nat n)))
              (Z.of_nat (length (buf f)))); [|lia].
  simpl. eexists. split; [reflexivity|]. simpl.
  rewrite Z.mod_small by lia.
  unfold fbuf_inv, sizeof_buf; simpl; split_and!; try lia.
  - unfold fbuf_wf; simpl.
    rewrite length_app, length_take, !length_drop. unfold sizeof_buf. lia.
  - unfold fbuf_held; simpl.
    rewrite take_app_le by (rewrite length_take, length_drop; lia).
    rewrite take_take, Nat.min_id.
    rewrite take_drop_commute. f_equal. f_equal. lia.
Qed.

Lemma fbuf_reachable_inv ndebug f : fbuf_reachable ndebug f → fbuf_inv f.
Proof.
  induction 1 as [f0 Hwf | f d off f' _ IH Hoff Hst | f n f' _ IH Hn Hfeed
                 | f n f' _ IH Hn Heat].
  - by apply fbuf_init_inv.
  - by eapply buf_store_inv.
  - by eapply fbuf_feed_inv.
  - destruct (fbuf_eat_spec ndebug f n IH Hn) as (f'' & Heq & Hinv & _).
    congruence.
Qed.

(** With assertions compiled in, every buffer that a sequence of feeds and
    eats leaves behind is empty: no feed gets past the assertion. *)
Lemma fbuf_run_assert_empty ops : ∀ f f',
  Forall (λ op, match op with OpFeed n | OpEat n => is_size_t n end) ops →
  fbuf_inv f → bytes_in_buf f = 0 →
  fbuf_run false f ops = Ret f' →
  fbuf_inv f' ∧ bytes_in_buf f' = 0.
Proof.
  induction ops as [|op ops IH]; intros f f' Hops Hinv Hz; simpl.
  - by intros [= <-].
  - apply Forall_cons in Hops as [Hop Hops].
    destruct op as [n | n]; simpl.
    + rewrite fbuf_feed_assert_no_wrap; [discriminate | lia | apply Hop |].
      destruct Hop. lia.
    + destruct (decide (n = 0)) as [-> | Hn0].
      * destruct (fbuf_eat_spec false f 0 Hinv) as (f1 & -> & Hinv1 & Hb1 & _).
        { unfold fbuf_data. lia. }
        apply IH; [done | done | lia].
      * unfold fbuf_eat, c_assert; simpl.
        destruct (Z.leb_spec n (bytes_in_buf f)); [destruct Hop; lia | done].
Qed.
End fbuf_facts.

(** Outside the buffers a run can reach, the assertion is no capacity check:
    a feed that wraps around [size_t] gets past it. *)
Example fbuf_feed_assert_lets_wrap_through :
  fbuf_feed false (Fbuf 1 (replicate 4096 x00)) (2 ^ 64 - 1)
  = Ret (Fbuf 0 (replicate 4096 x00)).
Proof. vm_compute; reflexivity. Qed.

(** C3. The check in [fbuf_feed] is no capacity check. The claim is that the
    occupancy never exceeds 4096 bytes and that a feed which would exceed it
    is refused. The assertion compares the new occupancy with the amount
    fed, [assert(f->bytes_in_buf < n)], not with the capacity. In an NDEBUG
    build a feed of 4097 bytes on the empty buffer is let through and the
    occupancy is 4097. With assertions compiled in, a feed of one byte on
    the empty buffer, well within the capacity, is refused, and on a full
    buffer a feed of [2^64 - 1] bytes is let through. *)
Theorem fbuf_feed_checks_no_capacity :
  (∃ f, fbuf_run true (fbuf_init (Fbuf 0 (replicate 4096 x00))) [OpFeed 4097] = Ret f
        ∧ fbuf_data f = 4097 ∧ sizeof_buf < fbuf_data f)
  ∧ fbuf_run false (fbuf_init (Fbuf 0 (replicate 4096 x00))) [OpFeed 1] = Abort
  ∧ fbuf_feed false (Fbuf 4096 (replicate 4096 x00)) (2 ^ 64 - 1)
    = Ret (Fbuf 4095 (replicate 4096 x00)).
Proof.
  split_and!.
  - eexists. split; [vm_compute; reflexivity|]. split; reflexivity.
  - vm_compute; reflexivity.
  - vm_compute; reflexivity.
Qed.

(** C10. Every staging buffer reachable from [fbuf_init] by stores into the
    free tail, feeds and eats that respect the operations' preconditions has
    [fbuf_space + fbuf_data = 4096] and [fbuf_data <= 4096], in either build;
    and on such a buffer [fbuf_eat n] succeeds, removes exactly the first [n]
    bytes held and keeps the remaining bytes in their order. *)
Theorem fbuf_reachable_space_data_eat (ndebug : bool) (f : fbuf) :
  fbuf_reachable ndebug f →
  fbuf_space f + fbuf_data f = sizeof_buf
  ∧ 0 <= fbuf_data f <= sizeof_buf
  ∧ ∀ n, 0 <= n <= fbuf_data f →
      ∃ f', fbuf_eat ndebug f n = Ret f'
            ∧ fbuf_data f' = fbuf_data f - n
            ∧ fbuf_held f' = drop (Z.to_nat n) (fbuf_held f).
Proof.
  intros Hinv%fbuf_reachable_inv. split_and!.
  - rewrite fbuf_space_inv by done. unfold fbuf_data. lia.
  - apply Hinv.
  - apply Hinv.
  - intros n Hn.
    destruct (fbuf_eat_spec ndebug f n Hinv Hn) as (f' & Heat & _ & Hb & Hheld).
    by exists f'.
Qed.

Lemma fbuf_reachable_space_data_eat_witness :
  ∃ f', fbuf_eat true (Fbuf 3 ([x01; x02; x03] ++ replicate 4093 x00)) 1 = Ret f'
        ∧ fbuf_data f' = 2
        ∧ fbuf_held f' = [x02; x03].
Proof.
  assert (Hreach : fbuf_reachable true (Fbuf 3 ([x01; x02; x03] ++ replicate 4093 x00))).
  { apply (reach_feed true (Fbuf 0 ([x01; x02; x03] ++ replicate 4093 x00)) 3).
    - apply (reach_store true (fbuf_init (Fbuf 0 (replicate 4096 x00)))
                         [x01; x02; x03] 0).
      + apply reach_init. vm_compute; reflexivity.
      + vm_compute; discriminate.
      + vm_compute; reflexivity.
    - vm_compute; split; discriminate.
    - vm_compute; reflexivity. }
  destruct (fbuf_reachable_space_data_eat true _ Hreach) as (_ & _ & Heat).
  destruct (Heat 1) as (f' & H1 & H2 & H3).
  - vm_compute; split; discriminate.
  - exists f'. split; [exact H1|]. split; [exact H2|]. exact H3.
Defined.

(** ** Computations: inversion of [bind] *)

Lemma bind_Ret_inv {A B} (m : M A) (k : A → M B) (w w' : world) (b : B) :
  (m ≫= k) w = (Ret b, w') →
  ∃ a w1, m w = (Ret a, w1) ∧ k a w1 = (Ret b, w').
Proof.
  unfold mbind, M_bind. destruct (m w) as [[a| | | |] w1]; try discriminate.
  intros Hk. by exists a, w1.
Qed.

Lemma bind_Ret_step {A B} (m : M A) (k : A → M B) (w w1 : world) (a : A) :
  m w = (Ret a, w1) → (m ≫= k) w = k a w1.
Proof. unfold mbind, M_bind. by intros ->. Qed.

Lemma lift_Ret_inv {A} (o : outcome A) (w w' : world) (a : A) :
  lift o w = (Ret a, w') → o = Ret a ∧ w' = w.
Proof. unfold lift. by intros [= -> ->]. Qed.

Lemma mret_inv {A} (a b : A) (w w' : world) :
  (mret a : M A) w = (Ret b, w') → a = b ∧ w' = w.
Proof. unfold mret, M_ret. by intros [= -> ->]. Qed.

(** ** The input stream and the sink *)

Lemma fread_spec nmemb s d s' :
  0 <= nmemb → fread nmemb s = (d, s') →
  in_rest s = d ++ in_rest s'
  ∧ Z.of_nat (length d) <= nmemb
  ∧ (stream_wf s → stream_wf s').
Proof.
  intros Hn. unfold fread.
  destruct (Z.eqb_spec nmemb 0) as [-> | Hnz].
  { intros [= <- <-]. simpl. done. }
  destruct (in_sched s) as [|[|k] sched]; intros [= <- <-]; simpl.
  - rewrite take_drop, length_take. split_and!; [done | lia |].
    unfold stream_wf; simpl. intros Hwf [Heof | Hlt%Z.ltb_lt]%orb_true_iff.
    + rewrite Hwf by done. apply drop_nil.
    + apply drop_ge. lia.
  - rewrite take_drop, length_take. split_and!; [done | lia |].
    unfold stream_wf; simpl. intros Hwf [Heof | Hlt%Z.ltb_lt]%orb_true_iff.
    + rewrite Hwf by done. apply drop_nil.
    + apply drop_ge. lia.
  - rewrite take_drop, length_take. split_and!; [done | lia |].
    unfold stream_wf; simpl. intros Hwf Heof. rewrite Hwf by done. apply drop_nil.
Qed.

Lemma written_to_accept fd d w :
  written_to fd (accept_bytes fd d w) = written_to fd w ++ d.
Proof. unfold written_to at 1, accept_bytes; simpl. by rewrite lookup_insert_eq. Qed.

Lemma sys_write_spec fd d w r w' :
  sys_write fd d w = (Ret r, w') →
  w_stdin w' = w_stdin w
  ∧ match r with
    | inl wl => 0 <= wl <= Z.of_nat (length d)
                ∧ written_to fd w' = written_to fd w ++ take (Z.to_nat wl) d
    | inr _ => written_to fd w' = written_to fd w
    end.
Proof.
  unfold sys_write.
  destruct (w_wsched w) as [|[|k|e] sched]; intros [= <- <-];
    (split; [done|]); rewrite ?written_to_accept.
  - rewrite Nat2Z.id, firstn_all. split; [lia | done].
  - rewrite Nat2Z.id, firstn_all. split; [lia | done].
  - rewrite length_take. split; [lia|].
    by rewrite Nat2Z.id, <- take_take, firstn_all.
  - done.
Qed.

Lemma eprint_spec msg w u w' :
  eprint msg w = (Ret u, w') →
  w_stdin w' = w_stdin w ∧ w_out w' = w_out w ∧ w_fs w' = w_fs w.
Proof. unfold eprint. by intros [= _ <-]. Qed.

Lemma to_ssize_t_wrap z : to_ssize_t (wrap_size_t z) = to_ssize_t z.
Proof. unfold to_ssize_t, wrap_size_t. by rewrite Z.mod_mod. Qed.

Lemma wrap_size_t_add_l a b : wrap_size_t (wrap_size_t a + b) = wrap_size_t (a + b).
Proof. unfold wrap_size_t. by rewrite Zplus_mod_idemp_l. Qed.

(** ** The streaming copier *)

Section copier.
Variable ndebug : bool.
Variable fd : Z.
(** What the sink held before the copy and what the source still had. *)
Variables (out0 inp : list byte).

Local Abbreviation copy_inv := (copy_inv fd out0 inp).
Local Abbreviation copy_complete := (copy_complete fd out0 inp).

Lemma copy_inv_err_incr st w w' :
  copy_inv st w →
  stream_wf (w_stdin w') →
  in_rest (w_stdin w') = in_rest (w_stdin w) →
  written_to fd w' = written_to fd w →
  copy_inv (cs_err_incr st) w'.
Proof.
  unfold copy_inv; simpl. intros (? & ? & ? & ? & ?) ? -> ->. done.
Qed.

Lemma buf_load_held f :
  fbuf_inv f → buf_load f (fbuf_data_ptr f) (fbuf_data f) = Ret (fbuf_held f).
Proof.
  intros [Hwf Hb]. unfold buf_load, fbuf_data_ptr, fbuf_data, fbuf_held.
  unfold fbuf_wf, sizeof_buf in *.
  destruct (Z.leb_spec 0 (bytes_in_buf f)); [|lia].
  destruct (Z.leb_spec (0 + bytes_in_buf f) (Z.of_nat (length (buf f)))); [|lia].
  done.
Qed.

Lemma fbuf_held_length f :
  fbuf_inv f → Z.of_nat (length (fbuf_held f)) = bytes_in_buf f.
Proof.
  intros [Hwf Hb]. unfold fbuf_held, fbuf_wf, sizeof_buf in *.
  rewrite length_take. lia.
Qed.

Lemma copy_drain_inv fuel : ∀ st w res w',
  copy_inv st w →
  (fbuf_data (cs_f st) = 0 → cs_done_reading st = true) →
  copy_drain ndebug fuel fd st w = (Ret res, w') →
  match res with
  | inl r => copy_complete r w'
  | inr st' => copy_inv st' w'
  end.
Proof.
  induction fuel as [|fuel IH]; intros st w res w' Hinv Hdone; simpl.
  { intros [? _]%lift_Ret_inv. discriminate. }
  pose proof Hinv as (Hf & Hwf & Hbytes & Hrest & Hwritten).
  destruct (Z.eqb_spec (fbuf_data (cs_f st)) 0) as [Hz | Hnz].
  - intros [<- ->]%mret_inv. unfold copy_complete.
    assert (fbuf_held (cs_f st) = []) as Hheld.
    { unfold fbuf_held. unfold fbuf_data in Hz. by rewrite Hz. }
    rewrite Hheld, Hrest in Hbytes by auto. simpl in Hbytes.
    rewrite app_nil_r in Hbytes. split_and!; [done | auto |].
    rewrite Hwritten, to_ssize_t_wrap, <- Hbytes, length_app. f_equal. lia.
  - rewrite buf_load_held by done.
    intros (d & w1 & [[= <-] ->]%lift_Ret_inv & Hk)%bind_Ret_inv.
    apply bind_Ret_inv in Hk as (r & w2 & Hwrite & Hk).
    apply sys_write_spec in Hwrite as [Hin Hr].
    destruct r as [wl | e].
    + destruct Hr as [Hwl Hout].
      destruct (Z.eqb_spec wl 0) as [-> | Hwl0].
      * apply bind_Ret_inv in Hk as (u & w3 & (Hin3 & Hout3 & _)%eprint_spec & Hk).
        apply mret_inv in Hk as [<- ->].
        apply (copy_inv_err_incr st w);
          [done | by rewrite Hin3, Hin | by rewrite Hin3, Hin |].
        unfold written_to in *. rewrite Hout3, Hout. simpl. by rewrite app_nil_r.
      * rewrite fbuf_held_length in Hwl by done.
        destruct (fbuf_eat_spec ndebug (cs_f st) wl Hf) as (f' & Heat & Hf' & Hb' & Hheld');
          [unfold fbuf_data; lia|].
        rewrite Heat in Hk.
        apply bind_Ret_inv in Hk as (f'' & w3 & [[= <-] ->]%lift_Ret_inv & Hk).
        set (st' := CopyState _ _ _ _ f') in Hk.
        assert (copy_inv st' w2) as Hinv'.
        { unfold copy_inv, st'; simpl. rewrite Hin, Hout, Hheld'.
          split_and!; [done | done | | done |].
          - rewrite <- (assoc_L (++)), (assoc_L (++) (take _ _)), take_drop. done.
          - rewrite Hwritten, wrap_size_t_add_l. f_equal.
            rewrite length_app, length_take.
            pose proof (fbuf_held_length _ Hf). lia. }
        destruct (Z.eqb_spec (fbuf_space f') 0) as [Hsp | Hsp]; simpl in Hk.
        -- apply IH in Hk; [done | done |]. unfold st'; simpl.
           rewrite fbuf_space_inv in Hsp by done. unfold fbuf_data, sizeof_buf in *. lia.
        -- destruct (cs_done_reading st) eqn:Hd.
           ++ apply IH in Hk; [done | done |]. by unfold st'; simpl.
           ++ by apply mret_inv in Hk as [<- ->].
    + apply bind_Ret_inv in Hk as (u & w3 & (Hin3 & Hout3 & _)%eprint_spec & Hk).
      apply mret_inv in Hk as [<- ->].
      apply (copy_inv_err_incr st w);
          [done | by rewrite Hin3, Hin | by rewrite Hin3, Hin |].
      unfold written_to in *. by rewrite Hout3.
Qed.

(** Bytes stored at the tail and then fed are appended to the bytes held. *)
Lemma fbuf_fill_spec f d f1 f2 :
  fbuf_inv f → Z.of_nat (length d) <= fbuf_space f →
  buf_store f (fbuf_space_ptr f) d = Ret f1 →
  fbuf_feed ndebug f1 (Z.of_nat (length d)) = Ret f2 →
  fbuf_inv f2
  ∧ bytes_in_buf f2 = bytes_in_buf f + Z.of_nat (length d)
  ∧ fbuf_held f2 = fbuf_held f ++ d.
Proof.
  intros Hf Hd Hst Hfeed.
  pose proof (buf_store_inv _ _ _ _ Hf Hst) as Hf1.
  pose proof Hst as (_ & _ & Hf1eq)%buf_store_Ret.
  assert (bytes_in_buf f1 = bytes_in_buf f) as Hb1 by (by rewrite Hf1eq).
  destruct (fbuf_feed_inv ndebug f1 (Z.of_nat (length d)) f2 Hf1) as [Hf2 Hb2]; [|done|].
  { rewrite fbuf_space_inv in * by done. lia. }
  split_and!; [done | lia |].
  apply fbuf_feed_Ret in Hfeed as [-> _].
  unfold fbuf_held; simpl. rewrite Hf1eq; simpl.
  destruct Hf as [Hwf Hb]. unfold fbuf_space_ptr, fbuf_wf, sizeof_buf in *.
  rewrite fbuf_space_inv in Hd by done. unfold sizeof_buf in Hd.
  unfold wrap_size_t. rewrite Z.mod_small by lia.
  rewrite Z2Nat.inj_add, Nat2Z.id by lia.
  rewrite take_app_ge; rewrite length_take; [|lia].
  rewrite Nat.min_l by lia. f_equal.
  replace (Z.to_nat (bytes_in_buf f) + length d - Z.to_nat (bytes_in_buf f))%nat
    with (length d) by lia.
  by rewrite take_app_length.
Qed.

Lemma copy_loop_inv fuel : ∀ st w r w',
  copy_inv st w →
  copy_loop ndebug fuel fd st w = (Ret r, w') →
  r = -1 ∨ copy_complete r w'.
Proof.
  induction fuel as [|fuel IH]; intros st w r w' Hinv; simpl.
  { intros [? _]%lift_Ret_inv. discriminate. }
  pose proof Hinv as (Hf & Hwf & Hbytes & Hrest & Hwritten).
  destruct (10 <? cs_err st).
  { intros (u & w1 & _ & [<- _]%mret_inv)%bind_Ret_inv. by left. }
  intros (d & w1 & Hread & Hk)%bind_Ret_inv.
  unfold sys_fread in Hread.
  destruct (fread (fbuf_space (cs_f st)) (w_stdin w)) as [d' s'] eqn:Hfread.
  injection Hread as -> <-.
  apply fread_spec in Hfread as (Hsplit & Hlen & Hwf');
    [|rewrite fbuf_space_inv by done; destruct Hf as [_ ?]; lia].
  specialize (Hwf' Hwf).
  apply bind_Ret_inv in Hk as (f1 & w2 & [Hst ->]%lift_Ret_inv & Hk).
  apply bind_Ret_inv in Hk as (eof & w3 & Heof & Hk).
  unfold feof in Heof. injection Heof as <- <-. simpl in Hk.
  destruct (Z.eqb_spec (Z.of_nat (length d)) 0) as [Hd0 | Hd0]; simpl in Hk.
  - assert (d = []) as -> by (destruct d; [done | simpl in Hd0; lia]).
    simpl in *.
    destruct (in_eof s') eqn:Heof; simpl in Hk.
    + apply bind_Ret_inv in Hk as (f2 & w4 & [Hfeed ->]%lift_Ret_inv & Hk).
      apply bind_Ret_inv in Hk as (res & w5 & Hdrain & Hk).
      destruct (fbuf_fill_spec _ [] _ _ Hf ltac:(simpl; lia) Hst Hfeed)
        as (Hf2 & Hb2 & Hheld2).
      rewrite app_nil_r in Hheld2.
      eapply copy_drain_inv in Hdrain; [| |done].
      * destruct res as [v | st2].
        -- apply mret_inv in Hk as [<- ->]. by right.
        -- by eapply IH.
      * unfold copy_inv; simpl.
        rewrite Hheld2, <- Hsplit.
        split_and!; [done | done | done | |done].
        intros _. rewrite Hsplit. by apply Hwf'.
    + apply bind_Ret_inv in Hk as (u & w4 & (Hin4 & Hout4 & _)%eprint_spec & Hk).
      eapply IH; [|exact Hk].
      apply (copy_inv_err_incr st w);
        [done | by rewrite Hin4 | by rewrite Hin4 |].
      unfold written_to. by rewrite Hout4.
  - apply bind_Ret_inv in Hk as (f2 & w4 & [Hfeed ->]%lift_Ret_inv & Hk).
    apply bind_Ret_inv in Hk as (res & w5 & Hdrain & Hk).
    destruct (fbuf_fill_spec _ d _ _ Hf Hlen Hst Hfeed) as (Hf2 & Hb2 & Hheld2).
    eapply copy_drain_inv in Hdrain.
    + destruct res as [v | st2].
      * apply mret_inv in Hk as [<- ->]. by right.
      * by eapply IH.
    + unfold copy_inv; simpl.
      rewrite Hheld2, <- (assoc_L (++) _ d), <- Hsplit.
      split_and!; [done | done | done | | done].
      intros Hdone. rewrite Hrest in Hsplit by done.
      symmetry in Hsplit. by apply app_eq_nil in Hsplit as [_ ?].
    + simpl. unfold fbuf_data. destruct Hf as [_ ?]. lia.
Qed.
End copier.

Lemma copy_inv_init f0 fd w :
  fbuf_wf f0 → stream_wf (w_stdin w) →
  copy_inv fd (written_to fd w) (in_rest (w_stdin w))
           (CopyState 0 0 0 false (fbuf_init f0)) w.
Proof.
  intros Hf Hwf. unfold copy_inv; simpl.
  split_and!; [by apply fbuf_init_inv | done | done | done |].
  by rewrite Z.sub_diag.
Qed.

(** C1. Whatever the input bytes (none included), whatever the short reads,
    short writes and transient failures, and in either build: when
    [copy_file_to_fd] returns success, the bytes the output descriptor
    accepted during the copy are the bytes of the input, in order, the input
    is used up, and the value returned is the number of bytes of the input. *)
Theorem copy_file_to_fd_fidelity
    (ndebug : bool) (fuel : nat) (f0 : fbuf) (out_fd : Z) (w w' : world) (r : Z) :
  fbuf_wf f0 →
  stream_wf (w_stdin w) →
  Z.of_nat (length (in_rest (w_stdin w))) < 2 ^ 63 →
  copy_file_to_fd ndebug fuel f0 out_fd w = (Ret r, w') →
  0 <= r →
  written_to out_fd w' = written_to out_fd w ++ in_rest (w_stdin w)
  ∧ in_rest (w_stdin w') = []
  ∧ r = Z.of_nat (length (in_rest (w_stdin w))).
Proof.
  intros Hf Hwf Hlen Hcopy Hr. unfold copy_file_to_fd in Hcopy.
  eapply copy_loop_inv in Hcopy; [|by apply copy_inv_init].
  destruct Hcopy as [-> | (Hout & Hrest & ->)]; [lia|].
  split_and!; [done | done |].
  unfold to_ssize_t. rewrite Z.mod_small by lia.
  destruct (Z.ltb_spec (Z.of_nat (length (in_rest (w_stdin w)))) (2 ^ 63)); [done | lia].
Qed.

Lemma copy_file_to_fd_fidelity_witness :
  ∃ w', copy_file_to_fd true 20 (Fbuf 7 (replicate 4096 x00)) 5
          (World ∅ ∅ ∅ (InStream [x01; x02; x03] false [ReadErr 0; ReadErr 2])
                 [WriteShort 1; WriteFail EINTR] ∅ [] [] []) = (Ret 3, w')
        ∧ written_to 5 w' = [x01; x02; x03].
Proof.
  eexists. split; [vm_compute; reflexivity|].
  refine (proj1 (copy_file_to_fd_fidelity true 20 (Fbuf 7 (replicate 4096 x00)) 5
                   (World ∅ ∅ ∅ (InStream [x01; x02; x03] false [ReadErr 0; ReadErr 2])
                          [WriteShort 1; WriteFail EINTR] ∅ [] [] []) _ 3 _ _ _ _ _)).
  - vm_compute; reflexivity.
  - intros Heof; vm_compute in Heof; discriminate.
  - vm_compute; reflexivity.
  - vm_compute; reflexivity.
  - lia.
Defined.

Lemma buf_store_tail_ok f d :
  fbuf_inv f → Z.of_nat (length d) <= fbuf_space f →
  ∃ f1, buf_store f (fbuf_space_ptr f) d = Ret f1.
Proof.
  intros Hf Hd. rewrite fbuf_space_inv in Hd by done.
  destruct Hf as [Hwf Hb]. unfold fbuf_wf, sizeof_buf in *.
  unfold buf_store, fbuf_space_ptr.
  destruct (Z.leb_spec 0 (bytes_in_buf f)); [|lia].
  destruct (Z.leb_spec (bytes_in_buf f + Z.of_nat (length d))
                       (Z.of_nat (length (buf f)))); [|lia].
  by eexists.
Qed.

(** Once the error counter is above 10, the copier reports failure without
    another read or write: only the diagnostic is added. *)
Lemma copy_loop_budget_exceeded ndebug fuel fd st w :
  10 < cs_err st →
  copy_loop ndebug (S fuel) fd st w
  = (Ret (-1), set_stderr (w_stderr w ++ ["Error: too many errors while copying file"]) w).
Proof.
  intros Herr. simpl. by destruct (Z.ltb_spec 10 (cs_err st)); [|lia].
Qed.

(** With assertions compiled in, the copier never succeeds: the first read
    that is not a failure (data, or end of file) runs into the assertion of
    [fbuf_feed], and eleven read failures in a row give [-1]. *)
Lemma copy_loop_assert_build fuel : ∀ fd st w,
  fbuf_inv (cs_f st) → bytes_in_buf (cs_f st) = 0 →
  0 <= cs_err st → (1 ≤ fuel)%nat → (12 - Z.to_nat (cs_err st) ≤ fuel)%nat →
  copy_failed (copy_loop false fuel fd st w).1.
Proof.
  induction fuel as [|fuel IH]; intros fd st w Hf Hz Herr Hpos Hfuel; [lia|].
  simpl. destruct (Z.ltb_spec 10 (cs_err st)) as [Hgt | Hle]; [by left|].
  unfold mbind at 1, M_bind at 1, sys_fread.
  destruct (fread (fbuf_space (cs_f st)) (w_stdin w)) as [d s'] eqn:Hfread.
  apply fread_spec in Hfread as (_ & Hlen & _);
    [|rewrite fbuf_space_inv by done; destruct Hf as [_ ?]; lia].
  destruct (buf_store_tail_ok _ d Hf Hlen) as [f1 Hst].
  rewrite fbuf_space_inv, Hz in Hlen by done. unfold sizeof_buf in Hlen.
  unfold mbind at 1, M_bind at 1, lift at 1. rewrite Hst.
  unfold mbind at 1, M_bind at 1, feof at 1; simpl.
  destruct ((Z.of_nat (length d) =? 0) && negb (in_eof s')).
  - unfold mbind at 1, M_bind at 1, eprint at 1.
    apply IH; simpl; [done | done | unfold wrap_unsigned .. ].
    + apply Z.mod_pos_bound. lia.
    + lia.
    + rewrite Z.mod_small by lia. lia.
  - unfold mbind at 1, M_bind at 1, lift at 1.
    rewrite fbuf_feed_assert_no_wrap; [by right | | lia |].
    + apply buf_store_Ret in Hst as (_ & _ & ->). simpl. lia.
    + apply buf_store_Ret in Hst as (_ & _ & ->). simpl. lia.
Qed.

Lemma copy_file_to_fd_assert_build_never_succeeds
    (fuel : nat) (f0 : fbuf) (out_fd : Z) (w : world) :
  fbuf_wf f0 → (12 ≤ fuel)%nat →
  copy_failed (copy_file_to_fd false fuel f0 out_fd w).1.
Proof.
  intros Hf Hfuel. unfold copy_file_to_fd.
  apply copy_loop_assert_build; simpl; [by apply fbuf_init_inv | done | done | lia | lia].
Qed.

(** C2 (the code departs from it). The error counter starts at zero and a
    count above 10 ends the copy with [-1] ([copy_loop_budget_exceeded]), but
    a run with few transient failures does not always complete:
    - built with NDEBUG, on an input of 4096 bytes whose first [write] fails
      once with EINTR, the buffer is full, so the retry starts with an
      [fread] of zero items, which returns zero without end of file and is
      counted as a read failure, ten times over, until the budget is spent:
      one transient failure, and the copy returns [-1] with nothing written;
    - built with assertions, an empty input and no failure at all ends in the
      assertion of [fbuf_feed]. *)
Theorem copy_file_to_fd_transient_failure_not_recovered :
  (let r := copy_file_to_fd true 100 (Fbuf 0 (replicate 4096 x00)) 5
              (World ∅ ∅ ∅ (InStream (replicate 4096 x01) false [])
                     [WriteFail EINTR] ∅ [] [] []) in
   r.1 = Ret (-1)
   ∧ written_to 5 r.2 = []
   ∧ w_stderr r.2
     = ["Error: write failed due to Interrupted system call\n"]
       ++ replicate 10 "Error reading input core file\n"
       ++ ["Error: too many errors while copying file"])
  ∧ (copy_file_to_fd false 100 (Fbuf 0 (replicate 4096 x00)) 5
       (World ∅ ∅ ∅ (InStream [] false []) [] ∅ [] [] [])).1 = Abort.
Proof. split; [split_and!|]; vm_compute; reflexivity. Qed.

(** *** Completion of a run without failures (NDEBUG build) *)

Lemma fread_clean nmemb s :
  0 < nmemb → in_sched s = [] →
  fread nmemb s
  = (take (Z.to_nat nmemb) (in_rest s),
     InStream (drop (Z.to_nat nmemb) (in_rest s))
              (in_eof s || (Z.of_nat (length (in_rest s)) <? nmemb)) []).
Proof.
  intros Hn Hs. unfold fread. destruct (Z.eqb_spec nmemb 0); [lia|]. by rewrite Hs.
Qed.

Lemma sys_write_clean fd d w :
  w_wsched w = [] →
  sys_write fd d w = (Ret (inl (Z.of_nat (length d))), accept_bytes fd d (set_wsched [] w)).
Proof. intros Hs. unfold sys_write. by rewrite Hs. Qed.

Lemma fbuf_feed_ndebug f n :
  fbuf_feed true f n = Ret (Fbuf (wrap_size_t (bytes_in_buf f + n)) (buf f)).
Proof. reflexivity. Qed.

Lemma bind_lift_Ret {A B} (a : A) (k : A → M B) w : (lift (Ret a) ≫= k) w = k a w.
Proof. reflexivity. Qed.

Lemma bind_feof {B} (k : bool → M B) w : (feof ≫= k) w = k (in_eof (w_stdin w)) w.
Proof. reflexivity. Qed.

Lemma copy_drain_empty ndebug fuel fd st w :
  fbuf_data (cs_f st) = 0 →
  copy_drain ndebug (S fuel) fd st w
  = (Ret (inl (to_ssize_t (cs_written_bytes st))), w).
Proof. intros Hz. simpl. by rewrite Hz. Qed.

(** A non-empty buffer, a write that takes it all, more input to come: the
    buffer is emptied and the read loop goes round again. *)
Lemma copy_drain_clean_block fuel fd st w :
  fbuf_inv (cs_f st) → fbuf_data (cs_f st) ≠ 0 →
  cs_done_reading st = false → w_wsched w = [] →
  ∃ f3, fbuf_inv f3 ∧ bytes_in_buf f3 = 0
    ∧ copy_drain true (S fuel) fd st w
      = (Ret (inr (CopyState (cs_read_bytes st)
                     (wrap_size_t (cs_written_bytes st
                                   + Z.of_nat (length (fbuf_held (cs_f st)))))
                     (cs_err st) false f3)),
         accept_bytes fd (fbuf_held (cs_f st)) (set_wsched [] w)).
Proof.
  intros Hf Hnz Hdone Hwsched.
  pose proof (fbuf_held_length _ Hf) as Hlen.
  destruct (fbuf_eat_spec true (cs_f st) (Z.of_nat (length (fbuf_held (cs_f st)))) Hf)
    as (f3 & Heat & Hf3 & Hb3 & _); [unfold fbuf_data; destruct Hf as [_ ?]; lia|].
  exists f3. split_and!; [done | lia |].
  simpl copy_drain.
  destruct (Z.eqb_spec (fbuf_data (cs_f st)) 0); [done|].
  rewrite buf_load_held, bind_lift_Ret by done.
  rewrite (bind_Ret_step _ _ _ _ _ (sys_write_clean fd _ _ Hwsched)).
  destruct (Z.eqb_spec (Z.of_nat (length (fbuf_held (cs_f st)))) 0) as [Hl0 | _].
  { unfold fbuf_data in *. lia. }
  rewrite Heat, bind_lift_Ret.
  assert ((fbuf_space f3 =? 0) = false) as ->.
  { apply Z.eqb_neq. rewrite fbuf_space_inv by done. unfold sizeof_buf. lia. }
  by rewrite Hdone.
Qed.

Lemma copy_loop_clean fd out0 inp fuel : ∀ st w,
  copy_inv fd out0 inp st w →
  bytes_in_buf (cs_f st) = 0 → cs_err st <= 10 → cs_done_reading st = false →
  in_sched (w_stdin w) = [] → w_wsched w = [] →
  (length (in_rest (w_stdin w)) + 2 ≤ fuel)%nat →
  ∃ r w', copy_loop true fuel fd st w = (Ret r, w') ∧ copy_complete fd out0 inp r w'.
Proof.
  induction fuel as [|fuel IH]; intros st w Hinv Hz Herr Hdone Hsched Hwsched Hfuel;
    [lia|].
  pose proof Hinv as (Hf & Hwf & Hbytes & Hrest & Hwritten).
  assert (fbuf_held (cs_f st) = []) as Hheld0 by (unfold fbuf_held; by rewrite Hz).
  assert (fbuf_space (cs_f st) = 4096) as Hspace.
  { rewrite fbuf_space_inv by done. unfold sizeof_buf. lia. }
  simpl copy_loop. destruct (Z.ltb_spec 10 (cs_err st)); [lia|].
  set (d := take (Z.to_nat 4096) (in_rest (w_stdin w))).
  set (s' := InStream (drop (Z.to_nat 4096) (in_rest (w_stdin w)))
                      (in_eof (w_stdin w)
                       || (Z.of_nat (length (in_rest (w_stdin w))) <? 4096)) []).
  assert (sys_fread (fbuf_space (cs_f st)) w = (Ret d, set_stdin s' w)) as Hread.
  { unfold sys_fread. by rewrite Hspace, fread_clean. }
  rewrite (bind_Ret_step _ _ _ _ _ Hread).
  assert (Z.of_nat (length d) <= fbuf_space (cs_f st)) as Hdlen.
  { rewrite Hspace. unfold d. rewrite length_take. lia. }
  destruct (buf_store_tail_ok _ d Hf Hdlen) as [f1 Hst].
  rewrite Hst, bind_lift_Ret, bind_feof.
  pose proof (fbuf_feed_ndebug f1 (Z.of_nat (length d))) as Hfeed.
  destruct (fbuf_fill_spec true _ d _ _ Hf Hdlen Hst Hfeed) as (Hf2 & Hb2 & Hheld2).
  rewrite Hheld0 in Hheld2. simpl in Hheld2.
  assert (in_rest (w_stdin w) = d ++ in_rest s') as Hsplit.
  { unfold d, s'. simpl. by rewrite take_drop. }
  destruct fuel as [|fuel]; [lia|].
  rewrite Hfeed.
  set (f2 := Fbuf _ (buf f1)) in *.
  destruct (Z.eqb_spec (Z.of_nat (length d)) 0) as [Hd0 | Hd0].
  - (* end of file *)
    assert (in_rest (w_stdin w) = []) as Hnil.
    { apply nil_length_inv. unfold d in Hd0. rewrite length_take in Hd0. lia. }
    assert (in_eof (w_stdin (set_stdin s' w)) = true) as ->.
    { simpl. rewrite Hnil. simpl. apply orb_true_r. }
    change (true && negb true) with false. cbv iota. rewrite bind_lift_Ret.
    match goal with
    | |- context [copy_drain true (S fuel) fd ?s] => set (st1 := s)
    end.
    assert (fbuf_data (cs_f st1) = 0) as Hdz.
    { change (bytes_in_buf f2 = 0). rewrite Hb2. lia. }
    rewrite (bind_Ret_step _ _ _ _ _ (copy_drain_empty true fuel fd st1 _ Hdz)).
    eexists _, _. split; [reflexivity|].
    unfold copy_complete; simpl.
    rewrite Hheld0, Hnil, !app_nil_r in Hbytes.
    split_and!; [done | by rewrite Hnil |].
    rewrite Hwritten, to_ssize_t_wrap, <- Hbytes, length_app. f_equal. lia.
  - (* a block of data: written out in one go *)
    rewrite andb_false_l, bind_lift_Ret.
    set (st1 := CopyState _ _ _ _ f2).
    destruct (copy_drain_clean_block fuel fd st1 (set_stdin s' w))
      as (f3 & Hf3 & Hb3 & Hdrain); [done | | done | done |].
    { change (bytes_in_buf f2 ≠ 0). rewrite Hb2. lia. }
    rewrite (bind_Ret_step _ _ _ _ _ Hdrain).
    apply IH; simpl; try done.
    + unfold copy_inv; simpl. rewrite written_to_accept, Hheld2.
      split_and!; [done | | | done |].
      * unfold stream_wf, s'; simpl.
        intros [Heof | Hlt%Z.ltb_lt]%orb_true_iff.
        -- rewrite Hwf by done. apply drop_nil.
        -- apply drop_ge. lia.
      * unfold fbuf_held. rewrite Hb3. simpl.
        unfold written_to in *. simpl. rewrite Hbytes, Hheld0. simpl.
        rewrite <- (assoc_L (++)). f_equal. exact Hsplit.
      * unfold written_to in *; simpl. rewrite Hwritten, wrap_size_t_add_l.
        f_equal. rewrite length_app. lia.
    + rewrite length_drop.
      assert (0 < length d)%nat as Hpos by lia.
      unfold d in Hpos. rewrite length_take in Hpos. lia.
Qed.

(** In an NDEBUG build, on an input whose reads and writes do not fail, the
    copier returns the length of the input once it has enough loop budget,
    and the sink has received the input. *)
Lemma copy_file_to_fd_ndebug_completes (fuel : nat) (f0 : fbuf) (out_fd : Z) (w : world) :
  fbuf_wf f0 → stream_wf (w_stdin w) →
  in_sched (w_stdin w) = [] → w_wsched w = [] →
  Z.of_nat (length (in_rest (w_stdin w))) < 2 ^ 63 →
  (length (in_rest (w_stdin w)) + 2 ≤ fuel)%nat →
  ∃ w', copy_file_to_fd true fuel f0 out_fd w
        = (Ret (Z.of_nat (length (in_rest (w_stdin w)))), w')
        ∧ written_to out_fd w' = written_to out_fd w ++ in_rest (w_stdin w).
Proof.
  intros Hf Hwf Hsched Hwsched Hlen Hfuel. unfold copy_file_to_fd.
  destruct (copy_loop_clean out_fd (written_to out_fd w) (in_rest (w_stdin w)) fuel
              (CopyState 0 0 0 false (fbuf_init f0)) w) as (r & w' & Hrun & Hc);
    [by apply copy_inv_init | done | done | done | done | done | done |].
  destruct Hc as (Hout & _ & ->).
  exists w'. split; [|done]. rewrite Hrun. f_equal. f_equal.
  unfold to_ssize_t. rewrite Z.mod_small by lia.
  destruct (Z.ltb_spec (Z.of_nat (length (in_rest (w_stdin w)))) (2 ^ 63)); [done | lia].
Qed.

(** ** The argument block of [act_store] *)

Lemma same_files_refl w : same_files w w.
Proof. by unfold same_files. Qed.

Lemma same_files_trans w1 w2 w3 :
  same_files w1 w2 → same_files w2 w3 → same_files w1 w3.
Proof. unfold same_files. intros (?&?&?&?&?&?&?) (?&?&?&?&?&?&?). split_and!; congruence. Qed.

Lemma quiet_mret {A} (a : A) : quiet (mret a : M A).
Proof. intros w. apply same_files_refl. Qed.

Lemma quiet_lift {A} (o : outcome A) : quiet (lift o).
Proof. intros w. apply same_files_refl. Qed.

Lemma quiet_c_exit {A} c : quiet (c_exit c : M A).
Proof. apply quiet_lift. Qed.

Lemma quiet_bind {A B} (m : M A) (k : A → M B) :
  quiet m → (∀ a, quiet (k a)) → quiet (m ≫= k).
Proof.
  intros Hm Hk w. unfold mbind, M_bind. specialize (Hm w).
  destruct (m w) as [[a| | | |] w1]; simpl in *; try done.
  eapply same_files_trans; [done | apply Hk].
Qed.

Lemma quiet_eprint msg : quiet (eprint msg).
Proof. intros w. by unfold eprint, same_files. Qed.

Lemma quiet_pr_log fmt : quiet (pr_log fmt).
Proof. intros w. by unfold pr_log, same_files. Qed.

Lemma pr_err_spec msg w :
  pr_err msg w
  = (Ret (), set_stderr (w_stderr w ++ [msg])
               (set_syslog (w_syslog w ++ [(LOG_ERR, msg)]) w)).
Proof. reflexivity. Qed.

Lemma quiet_pr_err msg : quiet (pr_err msg).
Proof. apply quiet_pr_log. Qed.

Lemma quiet_parse_unum n name : quiet (parse_unum n name).
Proof.
  unfold parse_unum. destruct n as [n|]; [|apply quiet_lift].
  repeat case_match;
    repeat first [apply quiet_bind; [|intros ?] | apply quiet_eprint
                 | apply quiet_c_exit | apply quiet_mret].
Qed.

Create HintDb quiet.
#[export] Hint Resolve quiet_mret quiet_lift quiet_c_exit quiet_eprint quiet_pr_err
  quiet_parse_unum : quiet.

Ltac quiet_tac :=
  repeat first [ apply quiet_bind; [|intros ?]
               | progress auto with quiet
               | case_match ].

Lemma quiet_act_store_args optind dir argc argv :
  quiet (act_store_args optind dir argc argv).
Proof. unfold act_store_args. quiet_tac. Qed.

(** An outcome of the first block other than a normal return is the outcome
    of the whole action, and the world is the one that block left. *)
Lemma act_store_stops_in_args ndebug PATH_MAX optind fuel f0 dir argc argv w :
  (∀ a, (act_store_args optind dir argc argv w).1 ≠ Ret a) →
  act_store ndebug PATH_MAX optind fuel f0 dir argc argv w
  = ((match (act_store_args optind dir argc argv w).1 with
      | Ret _ => Undef | Exit c => Exit c | Abort => Abort
      | Undef => Undef | OutOfFuel => OutOfFuel
      end), (act_store_args optind dir argc argv w).2).
Proof.
  intros Hne. unfold act_store, mbind at 1, M_bind at 1.
  destruct (act_store_args optind dir argc argv w) as [[a| | | |] w1]; simpl in *;
    try done.
  by destruct (Hne a).
Qed.

(** C8. For every base directory that does not start with ['/'], whatever the
    other arguments, the store action exits with a failure status and has
    made no file system call by then: no directory created, no file opened,
    the tree and the descriptors as before. *)
Theorem act_store_rejects_relative_dir
    (ndebug : bool) (PATH_MAX optind : Z) (fuel : nat) (f0 : fbuf)
    (dir : string) (argc : Z) (argv : list string) (w : world) :
  str_at dir 0 ≠ "/"%char →
  ∃ w', act_store ndebug PATH_MAX optind fuel f0 dir argc argv w = (Exit EXIT_FAILURE, w')
        ∧ same_files w w'.
Proof.
  intros Hrel.
  assert (∃ w', act_store_args optind dir argc argv w = (Exit EXIT_FAILURE, w'))
    as [w' Hargs].
  { unfold act_store_args.
    destruct (Ascii.eqb_spec (str_at dir 0) "/") as [|_]; [done|]. simpl.
    destruct (negb (to_int (argc - optind) =? 7) && negb (to_int (argc - optind) =? 8));
      by eexists. }
  exists w'. split.
  - rewrite act_store_stops_in_args; rewrite Hargs; [done|]. by intros a.
  - pose proof (quiet_act_store_args optind dir argc argv w) as Hq.
    by rewrite Hargs in Hq.
Qed.

Lemma act_store_rejects_relative_dir_witness :
  ∃ w', act_store false 4096 1 100 (Fbuf 0 (replicate 4096 x00)) "relative/dir" 8
          ["1234"; "0"; "0"; "11"; "1700000000"; "0"; "myprog"; "/usr/bin/myprog"]
          (World {[ [] := Dir ]} ∅ ∅ (InStream [x01] false []) [] ∅ [] [] [])
        = (Exit EXIT_FAILURE, w')
        ∧ same_files (World {[ [] := Dir ]} ∅ ∅ (InStream [x01] false []) [] ∅ [] [] []) w'.
Proof.
  apply (act_store_rejects_relative_dir false 4096 1 100 (Fbuf 0 (replicate 4096 x00))
           "relative/dir" 8).
  vm_compute. discriminate.
Defined.

(** The arity check compares [argc - optind] with 7 and 8, where [argc] has
    already been reduced by [optind + 1] in [main]: a count that fails it
    ends the action before any file system call. *)
Lemma act_store_arity_rejected ndebug PATH_MAX optind fuel f0 dir argc argv w :
  to_int (argc - optind) ≠ 7 → to_int (argc - optind) ≠ 8 →
  ∃ w', act_store ndebug PATH_MAX optind fuel f0 dir argc argv w = (Exit EXIT_FAILURE, w')
        ∧ same_files w w'.
Proof.
  intros H7 H8.
  assert (∃ w', act_store_args optind dir argc argv w = (Exit EXIT_FAILURE, w'))
    as [w' Hargs].
  { unfold act_store_args.
    destruct (Z.eqb_spec (to_int (argc - optind)) 7); [done|].
    destruct (Z.eqb_spec (to_int (argc - optind)) 8); [done|]. simpl.
    destruct (negb (str_at dir 0 =? "/")%char); by eexists. }
  exists w'. split.
  - rewrite act_store_stops_in_args; rewrite Hargs; [done|]. by intros a.
  - pose proof (quiet_act_store_args optind dir argc argv w) as Hq.
    by rewrite Hargs in Hq.
Qed.

(** C5 (the code departs from it). [main] hands [act_store] the tokens after
    the action word and their count, and [act_store] subtracts [optind] from
    that count once more. With no option on the command line ([optind = 1]):
    - seven tokens after [store] fail the check "7 or 8" and the action
      exits with the arity diagnostic, before any file system call;
    - nine tokens pass it: the action goes on to create the directories. *)
Theorem act_store_arity_counts_optind_twice :
  (let r := main false 4096 1 100 (Fbuf 0 (replicate 4096 x00)) (λ _, mret 0)
              "dumpctl" "/var/lib/coredumps" 0
              ["dumpctl"; "store"; "1234"; "0"; "0"; "11"; "1700000000"; "0"; "myprog"]
              (World {[ [] := Dir ]} ∅ ∅ (InStream [] false []) [] ∅ [] [] []) in
   r.1 = Exit EXIT_FAILURE
   ∧ w_stderr r.2 = ["Error: store requires 7 or 8 arguments\n"]
   ∧ w_calls r.2 = [])
  ∧ (let r := main false 4096 1 100 (Fbuf 0 (replicate 4096 x00)) (λ _, mret 0)
                "dumpctl" "/var/lib/coredumps" 0
                ["dumpctl"; "store"; "1234"; "0"; "0"; "11"; "1700000000"; "0"; "7";
                 "/usr/bin/myprog"; "extra"]
                (World {[ [] := Dir ]} ∅ ∅ (InStream [] false []) [] ∅ [] [] []) in
     take 3 (w_calls r.2)
     = [CallMkdir "/var" 511; CallMkdir "/var/lib" 511;
        CallMkdir "/var/lib/coredumps" 511]
     ∧ w_fs r.2 !! ["var"; "lib"; "coredumps"] = Some Dir).
Proof. split; split_and!; vm_compute; reflexivity. Qed.

(** C4 (the code departs from it). [act_store] indexes the token vector it
    was handed with [optind + 1], [optind + 2], ... although [main] has
    already moved the vector past the action word. With [optind = 1]:
    - on the documented invocation (pid, uid, gid, signal, timestamp, core
      limit, comm, path) the timestamp is read from the comm token; the run
      ends in a parse failure and no metadata is written at all;
    - on nine numeric tokens the fields are the third to the seventh token,
      comm is the ninth and path is the null pointer that ends the vector. *)
Theorem act_store_reads_shifted_tokens :
  (let r := main false 4096 1 100 (Fbuf 0 (replicate 4096 x00)) (λ _, mret 0)
              "dumpctl" "/var/lib/coredumps" 0
              ["dumpctl"; "store"; "1234"; "0"; "0"; "11"; "1700000000"; "0"; "myprog";
               "/usr/bin/myprog"]
              (World {[ [] := Dir ]} ∅ ∅ (InStream [] false []) [] ∅ [] [] []) in
   r.1 = Exit EXIT_FAILURE
   ∧ w_stderr r.2 = ["Error: trailing characters in timestamp, 'myprog'\n"]
   ∧ w_calls r.2 = [] ∧ w_out r.2 = ∅)
  ∧ (act_store_args 1 "/var/lib/coredumps" 9
       ["1"; "2"; "3"; "4"; "5"; "6"; "7"; "8"; "9"]
       (World {[ [] := Dir ]} ∅ ∅ (InStream [] false []) [] ∅ [] [] [])).1
    = Ret (StoreArgs 3 4 5 6 7 (Some "9") None).
Proof. split; [split_and!|]; vm_compute; reflexivity. Qed.

(** ** Numeric fields *)

Lemma scan_digits_nonneg base s : ∀ acc,
  0 <= base → 0 <= acc → 0 <= (scan_digits base acc s).1.
Proof.
  induction s as [|c s IH]; intros acc Hb Hacc; simpl; [done|].
  destruct (digit_value c) as [v|] eqn:Hv; [|done].
  destruct (Z.ltb_spec v base); [|done].
  apply IH; [done|].
  assert (0 <= v).
  { unfold digit_value in Hv. repeat case_match; simplify_eq; lia. }
  nia.
Qed.

Lemma detect_base_nonneg s : 0 <= (detect_base s).1.
Proof. unfold detect_base. repeat case_match; simpl; lia. Qed.

(** The value [strtoumax] returns is a [uintmax_t], and a range error comes
    with [UINTMAX_MAX]: the test [v == UINTMAX_MAX && errno] of [parse_unum]
    catches every range error. *)
Lemma strtoumax_range tok :
  0 <= st_value (strtoumax tok) <= UINTMAX_MAX
  ∧ (st_errno (strtoumax tok) = true → st_value (strtoumax tok) = UINTMAX_MAX).
Proof.
  unfold strtoumax.
  destruct (match skip_spaces tok with
            | String c s' =>
                if (c =? "-")%char then (true, s')
                else if (c =? "+")%char then (false, s')
                else (false, skip_spaces tok)
            | EmptyString => (false, skip_spaces tok)
            end) as [neg s2].
  pose proof (detect_base_nonneg s2) as Hbase.
  destruct (detect_base s2) as [base s3]. simpl in Hbase.
  destruct (starts_with_digit base s3); simpl; [|unfold UINTMAX_MAX; split; [lia|done]].
  pose proof (scan_digits_nonneg base s3 0 Hbase ltac:(done)) as Hv.
  destruct (scan_digits base 0 s3) as [v rest]. simpl in Hv.
  destruct (Z.ltb_spec UINTMAX_MAX v); simpl; [unfold UINTMAX_MAX; split; [lia|done]|].
  split; [|done]. destruct neg; [|lia].
  unfold UINTMAX_MAX in *.
  pose proof (Z.mod_pos_bound (- v) (2 ^ 64) ltac:(lia)). lia.
Qed.

Lemma parse_unum_accepted tok name w :
  unum_rejected tok = false →
  parse_unum (Some tok) name w = (Ret (st_value (strtoumax tok)), w).
Proof.
  unfold unum_rejected, parse_unum.
  intros [Herr Hend]%orb_false_iff. rewrite Herr, Hend. simpl.
  by rewrite andb_false_r.
Qed.

Lemma parse_unum_rejected tok name w :
  unum_rejected tok = true →
  ∃ msg, parse_unum (Some tok) name w
         = (Exit EXIT_FAILURE, set_stderr (w_stderr w ++ [msg]) w).
Proof.
  unfold unum_rejected, parse_unum. intros Hrej.
  destruct (st_errno (strtoumax tok)) eqn:Herr; simpl in Hrej.
  - rewrite (proj2 (strtoumax_range tok) Herr), Z.eqb_refl. simpl. by eexists.
  - rewrite andb_false_r, Hrej. by eexists.
Qed.

(** One field of [act_store]: the token is fetched and parsed; a refused
    token ends the action there. *)
Lemma store_field_step {B} argv i tok name (k : Z → M B) w :
  0 <= i → argv !! Z.to_nat i = Some tok →
  (a ← lift (argv_get argv i); v ← parse_unum a name; k v) w
  = if unum_rejected tok
    then ((parse_unum (Some tok) name ≫= k) w)
    else k (st_value (strtoumax tok)) w.
Proof.
  intros Hi Htok. unfold argv_get.
  assert (i <= Z.of_nat (length argv)).
  { apply lookup_lt_Some in Htok. lia. }
  destruct (Z.leb_spec 0 i); [|lia].
  destruct (Z.leb_spec i (Z.of_nat (length argv))); [|lia]. simpl.
  rewrite Htok. unfold mbind at 1, M_bind at 1, lift at 1.
  destruct (unum_rejected tok) eqn:Hrej; [done|].
  unfold mbind at 1, M_bind at 1. by rewrite parse_unum_accepted.
Qed.

Lemma store_field_rejected {B} tok name (k : Z → M B) w :
  unum_rejected tok = true →
  ∃ w', (parse_unum (Some tok) name ≫= k) w = (Exit EXIT_FAILURE, w').
Proof.
  intros [msg Hmsg]%(parse_unum_rejected _ name w).
  unfold mbind, M_bind. rewrite Hmsg. by eexists.
Qed.

Ltac store_field_tac argv optind j :=
  let t := fresh "t" in
  let Ht := fresh "Ht" in
  let Hr := fresh "Hr" in
  destruct (lookup_lt_is_Some_2 argv (Z.to_nat (optind + j))) as [t Ht]; [lia|];
  rewrite (store_field_step argv (optind + j) t) by (lia || done);
  destruct (unum_rejected t) eqn:Hr; [by apply store_field_rejected|].

Lemma act_store_args_field_rejected optind dir argc argv w k tok :
  0 <= optind → 1 <= k <= 5 →
  argv !! Z.to_nat (optind + k) = Some tok →
  unum_rejected tok = true →
  ∃ w', act_store_args optind dir argc argv w = (Exit EXIT_FAILURE, w').
Proof.
  intros Hopt Hk Htok Hrej.
  pose proof (lookup_lt_Some _ _ _ Htok) as Hlen.
  unfold act_store_args.
  destruct (negb (to_int (argc - optind) =? 7) && negb (to_int (argc - optind) =? 8));
    destruct (negb (str_at dir 0 =? "/")%char);
    try (by eexists).
  unfold mbind at 1, M_bind at 1, mret at 1, M_ret at 1.
  unfold mbind at 1, M_bind at 1, mret at 1, M_ret at 1.
  change (negb (0 =? 0)) with false. cbv iota.
  assert (k = 1 ∨ k = 2 ∨ k = 3 ∨ k = 4 ∨ k = 5) as Hcases by lia.
  destruct Hcases as [-> | [-> | [-> | [-> | ->]]]].
  - rewrite (store_field_step argv (optind + 1) tok) by (lia || done).
    rewrite Hrej. by apply store_field_rejected.
  - store_field_tac argv optind 1.
    rewrite (store_field_step argv (optind + 2) tok) by (lia || done).
    rewrite Hrej. by apply store_field_rejected.
  - store_field_tac argv optind 1. store_field_tac argv optind 2.
    rewrite (store_field_step argv (optind + 3) tok) by (lia || done).
    rewrite Hrej. by apply store_field_rejected.
  - store_field_tac argv optind 1. store_field_tac argv optind 2.
    store_field_tac argv optind 3.
    rewrite (store_field_step argv (optind + 4) tok) by (lia || done).
    rewrite Hrej. by apply store_field_rejected.
  - store_field_tac argv optind 1. store_field_tac argv optind 2.
    store_field_tac argv optind 3. store_field_tac argv optind 4.
    rewrite (store_field_step argv (optind + 5) tok) by (lia || done).
    rewrite Hrej. by apply store_field_rejected.
Qed.

(** *** Decimal numerals are read back *)

Lemma pretty_N_char_digit d :
  (d < 10)%N →
  digit_value (pretty_N_char d) = Some (Z.of_N d)
  ∧ isspace (pretty_N_char d) = false
  ∧ (pretty_N_char d =? "-")%char = false
  ∧ (pretty_N_char d =? "+")%char = false
  ∧ ((pretty_N_char d =? "0")%char = true → d = 0%N).
Proof.
  intros Hd.
  assert (d = 0 ∨ d = 1 ∨ d = 2 ∨ d = 3 ∨ d = 4 ∨ d = 5 ∨ d = 6 ∨ d = 7 ∨ d = 8 ∨ d = 9)%N
    as Hcases by lia.
  destruct Hcases as [-> | [-> | [-> | [-> | [-> | [-> | [-> | [-> | [-> | ->]]]]]]]]];
    vm_compute; split_and!; first [reflexivity | discriminate | done].
Qed.

Lemma scan_digits_pretty_go x : ∀ s,
  scan_digits 10 0 (pretty_N_go x s) = scan_digits 10 (Z.of_N x) s.
Proof.
  induction (N.lt_wf_0 x) as [x _ IH]; intros s.
  destruct (decide (x = 0%N)) as [-> | Hx]; [by rewrite pretty_N_go_0|].
  rewrite pretty_N_go_step by lia.
  rewrite IH by (apply N.div_lt; lia). simpl.
  destruct (pretty_N_char_digit (x `mod` 10)) as [-> _]; [by apply N.mod_lt|].
  destruct (Z.ltb_spec (Z.of_N (x `mod` 10)) 10) as [_ | Hge].
  - f_equal. pose proof (N.div_mod x 10 ltac:(done)). lia.
  - pose proof (N.mod_lt x 10 ltac:(done)). lia.
Qed.

(** The numeral of a positive number starts with a digit from 1 to 9. *)
Lemma pretty_N_go_head x : ∀ s,
  (0 < x)%N →
  ∃ d rest, (0 < d < 10)%N ∧ pretty_N_go x s = String (pretty_N_char d) rest.
Proof.
  induction (N.lt_wf_0 x) as [x _ IH]; intros s Hx.
  rewrite pretty_N_go_step by done.
  destruct (decide (x `div` 10 = 0)%N) as [Hz | Hnz].
  - rewrite Hz, pretty_N_go_0. exists (x `mod` 10)%N, s. split; [|done].
    pose proof (N.mod_lt x 10 ltac:(done)).
    pose proof (N.div_mod x 10 ltac:(done)). lia.
  - apply IH; [apply N.div_lt; lia | by apply N.neq_0_lt_0].
Qed.

Lemma strtoumax_pretty (n : N) :
  Z.of_N n <= UINTMAX_MAX →
  strtoumax (pretty n) = StrtoResult (Z.of_N n) "" false.
Proof.
  intros Hn. unfold pretty, pretty_N.
  destruct (decide (n = 0%N)) as [-> | Hnz]; [vm_compute; reflexivity|].
  pose proof (scan_digits_pretty_go n "") as Hscan. simpl in Hscan.
  destruct (pretty_N_go_head n "" ltac:(lia)) as (d & rest & Hd & Hhead).
  destruct (pretty_N_char_digit d ltac:(lia)) as (Hval & Hsp & Hminus & Hplus & Hzero).
  unfold strtoumax. rewrite Hhead in *. simpl skip_spaces. rewrite Hsp.
  rewrite Hminus, Hplus. unfold detect_base.
  destruct (pretty_N_char d =? "0")%char eqn:Hz; [specialize (Hzero eq_refl); lia|].
  unfold starts_with_digit, is_digit_of. rewrite Hval.
  destruct (Z.ltb_spec (Z.of_N d) 10); [|lia].
  rewrite Hscan.
  destruct (Z.ltb_spec UINTMAX_MAX (Z.of_N n)); [lia | done].
Qed.

(** Every [uintmax_t] written in decimal is accepted, with its value. *)
Lemma parse_unum_pretty (n : Z) name w :
  0 <= n <= UINTMAX_MAX → parse_unum (Some (pretty n)) name w = (Ret n, w).
Proof.
  intros Hn.
  assert (pretty n = pretty (Z.to_N n)) as ->.
  { unfold pretty at 1, pretty_Z. destruct n as [|p|p]; [done | done | lia]. }
  pose proof (strtoumax_pretty (Z.to_N n) ltac:(lia)) as Hst.
  rewrite parse_unum_accepted.
  - rewrite Hst. simpl. f_equal. f_equal. lia.
  - unfold unum_rejected. by rewrite Hst.
Qed.

(** *** C9 *)

(** C9 as stated fails: the token [-1] is accepted, with the value
    [2^64 - 1], and so is the empty token, with the value 0; neither is a
    non-negative integer numeral. *)
Lemma parse_unum_accepts_minus_one_and_empty :
  nonneg_integer_token "-1" = false
  ∧ (parse_unum (Some "-1") "pid"
       (World {[ [] := Dir ]} ∅ ∅ (InStream [] false []) [] ∅ [] [] [])).1
    = Ret 18446744073709551615
  ∧ nonneg_integer_token "" = false
  ∧ (parse_unum (Some "") "pid"
       (World {[ [] := Dir ]} ∅ ∅ (InStream [] false []) [] ∅ [] [] [])).1
    = Ret 0.
Proof. split_and!; vm_compute; reflexivity. Qed.

(** C9, amended. A numeric field is accepted only if [strtoumax], in base
    0, converts the whole token without a range error: nothing is left over,
    [errno] is not set, and the field is the value returned, a [uintmax_t].
    (That admits leading white space, a sign, octal and hexadecimal notation
    and the empty token.) When one of the five tokens the action parses has
    characters left over or a value above [UINTMAX_MAX], the action exits
    with a failure status before any file system call. *)
Theorem parse_unum_accepts_only_whole_token_in_range :
  (∀ tok name w v w',
     parse_unum (Some tok) name w = (Ret v, w') →
     st_end (strtoumax tok) = "" ∧ st_errno (strtoumax tok) = false
     ∧ v = st_value (strtoumax tok) ∧ 0 <= v <= UINTMAX_MAX ∧ w' = w)
  ∧ (∀ ndebug PATH_MAX optind fuel f0 dir argc argv w k tok,
       0 <= optind → 1 <= k <= 5 →
       argv !! Z.to_nat (optind + k) = Some tok →
       st_errno (strtoumax tok) = true ∨ st_end (strtoumax tok) ≠ "" →
       ∃ w', act_store ndebug PATH_MAX optind fuel f0 dir argc argv w
             = (Exit EXIT_FAILURE, w')
             ∧ same_files w w').
Proof.
  split.
  - intros tok name w v w' Hparse.
    destruct (unum_rejected tok) eqn:Hrej.
    + destruct (parse_unum_rejected tok name w Hrej) as [msg Hmsg]. congruence.
    + rewrite parse_unum_accepted in Hparse by done.
      injection Hparse as <- <-.
      apply orb_false_iff in Hrej as [Herr Hend].
      apply negb_false_iff, String.eqb_eq in Hend.
      split_and!; [done | done | done | apply strtoumax_range.. | done].
  - intros ndebug PATH_MAX optind fuel f0 dir argc argv w k tok Hopt Hk Htok Hbad.
    assert (unum_rejected tok = true) as Hrej.
    { unfold unum_rejected. destruct Hbad as [-> | Hend]; [done|].
      apply orb_true_iff. right. apply negb_true_iff.
      by apply String.eqb_neq. }
    destruct (act_store_args_field_rejected optind dir argc argv w k tok)
      as [w' Hargs]; [done..|].
    exists w'. split.
    + rewrite act_store_stops_in_args; rewrite Hargs; [done|]. by intros a.
    + pose proof (quiet_act_store_args optind dir argc argv w) as Hq.
      by rewrite Hargs in Hq.
Qed.

Lemma parse_unum_accepts_only_whole_token_in_range_witness :
  st_end (strtoumax " +0x1F") = ""
  ∧ ∃ w', act_store false 4096 1 100 (Fbuf 0 (replicate 4096 x00)) "/var/lib/coredumps" 9
            ["1"; "2"; "3"; "4"; "5"; "18446744073709551616"; "7"; "8"; "9"]
            (World {[ [] := Dir ]} ∅ ∅ (InStream [] false []) [] ∅ [] [] [])
          = (Exit EXIT_FAILURE, w')
          ∧ same_files (World {[ [] := Dir ]} ∅ ∅ (InStream [] false []) [] ∅ [] [] []) w'.
Proof.
  split.
  - refine (proj1 (proj1 parse_unum_accepts_only_whole_token_in_range
                     " +0x1F" "pid"
                     (World {[ [] := Dir ]} ∅ ∅ (InStream [] false []) [] ∅ [] [] [])
                     31 _ _)).
    vm_compute; reflexivity.
  - refine (proj2 parse_unum_accepts_only_whole_token_in_range
              false 4096 1 100%nat (Fbuf 0 (replicate 4096 x00)) "/var/lib/coredumps" 9
              ["1"; "2"; "3"; "4"; "5"; "18446744073709551616"; "7"; "8"; "9"]
              (World {[ [] := Dir ]} ∅ ∅ (InStream [] false []) [] ∅ [] [] [])
              4 "18446744073709551616" _ _ _ _).
    + lia.
    + lia.
    + vm_compute; reflexivity.
    + left. vm_compute; reflexivity.
Defined.

(** ** The leaf name *)

Lemma string_length_app (a b : string) :
  String.length (a +:+ b) = (String.length a + String.length b)%nat.
Proof. induction a as [|c a IH]; simpl; [done | by rewrite IH]. Qed.

Lemma pretty_N_go_length_le (k : nat) : ∀ x s,
  (x < 10 ^ N.of_nat k)%N →
  (String.length (pretty_N_go x s) ≤ k + String.length s)%nat.
Proof.
  induction k as [|k IH]; intros x s Hx.
  - assert (x = 0%N) as -> by (simpl in Hx; lia). by rewrite pretty_N_go_0.
  - destruct (decide (x = 0%N)) as [-> | Hnz]; [rewrite pretty_N_go_0; lia|].
    rewrite pretty_N_go_step by lia.
    etrans; [apply IH|simpl; lia].
    rewrite Nat2N.inj_succ, N.pow_succ_r' in Hx.
    apply N.Div0.div_lt_upper_bound. lia.
Qed.

(** A [uintmax_t] prints in at most 20 digits. *)
Lemma pretty_uintmax_length (n : Z) :
  0 <= n < 2 ^ 64 → (String.length (pretty n) ≤ 20)%nat.
Proof.
  intros Hn. unfold pretty, pretty_Z.
  destruct n as [|p|p]; [simpl; lia | | lia].
  unfold pretty, pretty_positive, pretty, pretty_N.
  destruct (decide (N.pos p = 0%N)); [done|].
  etrans; [apply (pretty_N_go_length_le 20)|simpl; lia].
  change (10 ^ N.of_nat 20)%N with 100000000000000000000%N. lia.
Qed.

Lemma format_F_HMS_nonempty t : (0 < String.length (format_F_HMS t))%nat.
Proof. unfold format_F_HMS. rewrite !string_length_app. simpl. lia. Qed.

(** The calendar year fits [tm_year] for every time within 2^55 seconds of
    the epoch (about a thousand million years). *)
Lemma civil_from_days_year (days : Z) :
  - 2 ^ 39 <= days <= 2 ^ 39 →
  - 2 ^ 31 <= (civil_from_days days).1.1 - 1900 <= 2 ^ 31 - 1.
Proof.
  intros Hdays. unfold civil_from_days.
  set (z := days + 719468).
  set (era := z / 146097).
  set (doe := z - era * 146097).
  assert (0 <= doe < 146097) as Hdoe.
  { unfold doe, era. Z.div_mod_to_equations. lia. }
  assert (- 2 ^ 22 <= era <= 2 ^ 22) as Hera.
  { unfold era, z. Z.div_mod_to_equations. lia. }
  set (yoe := (doe - doe / 1460 + doe / 36524 - doe / 146096) / 365).
  assert (0 <= yoe <= 400) as Hyoe.
  { unfold yoe. Z.div_mod_to_equations. lia. }
  cbv zeta. simpl fst. repeat case_match; lia.
Qed.

Lemma gmtime_r_defined (t : Z) :
  - 2 ^ 55 <= t <= 2 ^ 55 → is_Some (gmtime_r t).
Proof.
  intros Ht. unfold gmtime_r.
  assert (- 2 ^ 39 <= t / 86400 <= 2 ^ 39) as Hdays.
  { Z.div_mod_to_equations. lia. }
  pose proof (civil_from_days_year _ Hdays) as Hy.
  destruct (civil_from_days (t / 86400)) as [[y m] d]. simpl in Hy.
  unfold INT_MIN, INT_MAX.
  destruct (Z.leb_spec (- 2 ^ 31) (y - 1900)); [|lia].
  destruct (Z.leb_spec (y - 1900) (2 ^ 31 - 1)); [|lia].
  done.
Qed.

Example gmtime_r_samples :
  format_F_HMS <$> gmtime_r 0 = Some "1970-01-01_00:00:00"
  ∧ format_F_HMS <$> gmtime_r 951782400 = Some "2000-02-29_00:00:00"
  ∧ format_F_HMS <$> gmtime_r 1700000000 = Some "2023-11-14_22:13:20"
  ∧ format_F_HMS <$> gmtime_r (-1) = Some "1969-12-31_23:59:59".
Proof. split_and!; vm_compute; reflexivity. Qed.


(** ** The leaf name and the calendar *)

(** *** [civil_from_days] against the calendar of the specification *)

Lemma days_before_month_table y m :
  1 <= m <= 12 →
  days_before_month y m
  = match m with
    | 1 => 0 | 2 => 31 | 3 => 59 | 4 => 90 | 5 => 120 | 6 => 151 | 7 => 181
    | 8 => 212 | 9 => 243 | 10 => 273 | 11 => 304 | _ => 334
    end + (if (3 <=? m) && is_leap y then 1 else 0).
Proof.
  intros Hm.
  assert (m = 1 ∨ m = 2 ∨ m = 3 ∨ m = 4 ∨ m = 5 ∨ m = 6 ∨ m = 7 ∨ m = 8 ∨ m = 9
          ∨ m = 10 ∨ m = 11 ∨ m = 12) as Hcases by lia.
  unfold days_before_month.
  destruct Hcases as [-> | [-> | [-> | [-> | [-> | [-> | [-> | [-> | [-> | [-> | [-> | ->]]]]]]]]]]];
    cbn; unfold days_in_month; cbn; destruct (is_leap y); reflexivity.
Qed.

Lemma days_before_year_succ (y : Z) :
  days_before_year (y + 1)
  = days_before_year y + 365 + (if is_leap y then 1 else 0).
Proof.
  unfold days_before_year, is_leap.
  replace (y + 1 - 1) with y by lia.
  destruct (Z.eqb_spec (y mod 4) 0); destruct (Z.eqb_spec (y mod 100) 0);
    destruct (Z.eqb_spec (y mod 400) 0); cbn [orb andb negb];
    Z.div_mod_to_equations; lia.
Qed.

Lemma days_before_year_era (a era : Z) :
  days_before_year (a + era * 400) = days_before_year a + era * 146097.
Proof.
  unfold days_before_year.
  replace (a + era * 400 - 1) with (a - 1 + era * 400) by lia.
  replace ((a - 1 + era * 400) / 4) with ((a - 1) / 4 + era * 100)
    by (rewrite <- Z.div_add by lia; f_equal; lia).
  replace ((a - 1 + era * 400) / 100) with ((a - 1) / 100 + era * 4)
    by (rewrite <- Z.div_add by lia; f_equal; lia).
  replace ((a - 1 + era * 400) / 400) with ((a - 1) / 400 + era)
    by (rewrite <- Z.div_add by lia; f_equal; lia).
  lia.
Qed.

Lemma is_leap_era (a era : Z) : is_leap (a + era * 400) = is_leap a.
Proof.
  unfold is_leap.
  replace ((a + era * 400) mod 4) with (a mod 4)
    by (replace (era * 400) with (era * 100 * 4) by lia; by rewrite Z.mod_add by lia).
  replace ((a + era * 400) mod 100) with (a mod 100)
    by (replace (era * 400) with (era * 4 * 100) by lia; by rewrite Z.mod_add by lia).
  by rewrite Z.mod_add by lia.
Qed.

Ltac calendar_case mp :=
  let m := eval vm_compute in (if mp <? 10 then mp + 3 else mp - 9) in
  let e := eval vm_compute in ((153 * mp + 2) / 5) in
  let c := eval vm_compute in (if m <=? 2 then 1 else 0) in
  change (if mp <? 10 then mp + 3 else mp - 9) with m;
  change ((153 * mp + 2) / 5) with e;
  change (if m <=? 2 then 1 else 0) with c;
  unfold days_from_epoch;
  rewrite (days_before_month_table _ m) by lia;
  let dim := eval cbv beta delta [days_in_month] in (λ y, days_in_month y m) in
  change (days_in_month ?y m) with (dim y);
  cbv beta;
  cbn [Z.eqb Z.leb Z.compare Pos.compare Pos.compare_cont Pos.eqb orb andb negb].

Lemma civil_from_days_correct (days : Z) :
  1 <= (civil_from_days days).1.2 <= 12
  ∧ 1 <= (civil_from_days days).2
       <= days_in_month (civil_from_days days).1.1 (civil_from_days days).1.2
  ∧ days_from_epoch (civil_from_days days).1.1 (civil_from_days days).1.2
      (civil_from_days days).2 = days.
Proof.
  unfold civil_from_days. cbv zeta. cbn [fst snd].
  remember ((days + 719468) / 146097) as era eqn:Hera.
  remember (days + 719468 - era * 146097) as doe eqn:Hdoe_eq.
  assert (0 <= doe < 146097) as Hdoe.
  { subst doe era. Z.div_mod_to_equations. lia. }
  clear Hera.
  set (yoe := (doe - doe / 1460 + doe / 36524 - doe / 146096) / 365).
  set (doy := doe - (365 * yoe + yoe / 4 - yoe / 100)).
  assert (0 <= yoe <= 399) as Hyoe.
  { unfold yoe. Z.div_mod_to_equations. lia. }
  assert (0 <= doy <= 365
          ∧ (doy = 365 → (yoe + 1) mod 4 = 0 ∧ ((yoe + 1) mod 100 ≠ 0 ∨ yoe = 399)))
    as [Hdoy Hleapday].
  { unfold doy, yoe. Z.div_mod_to_equations. lia. }
  (* the days up to 1 March of the year that starts in March *)
  assert (days = days_before_year (yoe + era * 400 + 1) + doy - 719468) as Hdays.
  { replace (yoe + era * 400 + 1) with (yoe + 1 + era * 400) by lia.
    rewrite days_before_year_era. unfold days_before_year.
    replace (yoe + 1 - 1) with yoe by lia.
    replace (yoe / 400) with 0 by (symmetry; apply Z.div_small; lia).
    unfold doy. lia. }
  assert (doy = 365 → is_leap (yoe + era * 400 + 1) = true) as Hfeb.
  { intros [H4 H100]%Hleapday.
    replace (yoe + era * 400 + 1) with (yoe + 1 + era * 400) by lia.
    rewrite is_leap_era. unfold is_leap. rewrite H4. simpl.
    destruct H100 as [H100 | ->]; [|done].
    destruct (Z.eqb_spec ((yoe + 1) mod 100) 0); [done | done]. }
  clearbody doy. clearbody yoe. clear Hleapday Hdoe_eq Hdoe doe.
  set (mp := (5 * doy + 2) / 153).
  assert (0 <= mp <= 11) as Hmp by (unfold mp; Z.div_mod_to_equations; lia).
  assert (153 * mp <= 5 * doy + 2 < 153 * mp + 153) as Hd
    by (unfold mp; Z.div_mod_to_equations; lia).
  clearbody mp.
  pose proof (days_before_year_succ (yoe + era * 400)) as Hsucc.
  assert (mp = 0 ∨ mp = 1 ∨ mp = 2 ∨ mp = 3 ∨ mp = 4 ∨ mp = 5 ∨ mp = 6 ∨ mp = 7
          ∨ mp = 8 ∨ mp = 9 ∨ mp = 10 ∨ mp = 11) as Hcases by lia.
  assert (is_leap (yoe + era * 400 + 1) = false → doy <= 364) as Hfeb'.
  { intros Hl. destruct (decide (doy = 365)) as [H365 | ?]; [|lia].
    rewrite (Hfeb H365) in Hl. discriminate. }
  clear Hfeb.
  destruct Hcases
    as [-> | [-> | [-> | [-> | [-> | [-> | [-> | [-> | [-> | [-> | [-> | ->]]]]]]]]]]];
    [calendar_case 0 | calendar_case 1 | calendar_case 2 | calendar_case 3
    | calendar_case 4 | calendar_case 5 | calendar_case 6 | calendar_case 7
    | calendar_case 8 | calendar_case 9 | calendar_case 10 | calendar_case 11].
  all: rewrite ?Z.add_0_r in *; change (days_before_year 1970) with 719162;
    destruct (is_leap (yoe + era * 400)) eqn:Hl0;
    destruct (is_leap (yoe + era * 400 + 1)) eqn:Hl1;
    try specialize (Hfeb' eq_refl); lia.
Qed.

Lemma days_before_year_mono (a b : Z) :
  a <= b → days_before_year a <= days_before_year b.
Proof.
  intros Hab. replace b with (a + Z.of_nat (Z.to_nat (b - a))) by lia.
  induction (Z.to_nat (b - a)) as [|k IH]; [by rewrite Z.add_0_r|].
  rewrite Nat2Z.inj_succ.
  replace (a + Z.succ (Z.of_nat k)) with (a + Z.of_nat k + 1) by lia.
  rewrite days_before_year_succ. destruct (is_leap (a + Z.of_nat k)); lia.
Qed.

(** A date lies within its year. *)
Lemma days_from_epoch_in_year (y m d : Z) :
  1 <= m <= 12 → 1 <= d <= days_in_month y m →
  days_before_year y <= days_from_epoch y m d + days_before_year 1970
  < days_before_year (y + 1).
Proof.
  intros Hm Hd. unfold days_from_epoch.
  rewrite days_before_year_succ, days_before_month_table by done.
  revert Hd. unfold days_in_month.
  assert (m = 1 ∨ m = 2 ∨ m = 3 ∨ m = 4 ∨ m = 5 ∨ m = 6 ∨ m = 7 ∨ m = 8 ∨ m = 9
          ∨ m = 10 ∨ m = 11 ∨ m = 12) as Hcases by lia.
  destruct Hcases
    as [-> | [-> | [-> | [-> | [-> | [-> | [-> | [-> | [-> | [-> | [-> | ->]]]]]]]]]]];
    cbn [Z.eqb Z.leb Z.compare Pos.compare Pos.compare_cont Pos.eqb orb andb];
    destruct (is_leap y); lia.
Qed.

(** Two dates the same number of days from the epoch are the same date. *)
Lemma days_from_epoch_inj (y m d y' m' d' : Z) :
  1 <= m <= 12 → 1 <= d <= days_in_month y m →
  1 <= m' <= 12 → 1 <= d' <= days_in_month y' m' →
  days_from_epoch y m d = days_from_epoch y' m' d' →
  y = y' ∧ m = m' ∧ d = d'.
Proof.
  intros Hm Hd Hm' Hd' Heq.
  pose proof (days_from_epoch_in_year y m d Hm Hd) as Hy.
  pose proof (days_from_epoch_in_year y' m' d' Hm' Hd') as Hy'.
  assert (y = y') as <-.
  { destruct (Z.lt_trichotomy y y') as [Hlt | [? | Hgt]]; [|done|].
    - pose proof (days_before_year_mono (y + 1) y' ltac:(lia)). lia.
    - pose proof (days_before_year_mono (y' + 1) y ltac:(lia)). lia. }
  split; [done|]. clear Hy Hy'.
  revert Heq Hd Hd'. unfold days_from_epoch.
  rewrite !days_before_month_table by done. unfold days_in_month.
  assert (m = 1 ∨ m = 2 ∨ m = 3 ∨ m = 4 ∨ m = 5 ∨ m = 6 ∨ m = 7 ∨ m = 8 ∨ m = 9
          ∨ m = 10 ∨ m = 11 ∨ m = 12) as Hcases by lia.
  assert (m' = 1 ∨ m' = 2 ∨ m' = 3 ∨ m' = 4 ∨ m' = 5 ∨ m' = 6 ∨ m' = 7 ∨ m' = 8
          ∨ m' = 9 ∨ m' = 10 ∨ m' = 11 ∨ m' = 12) as Hcases' by lia.
  destruct (is_leap y);
    destruct Hcases
      as [-> | [-> | [-> | [-> | [-> | [-> | [-> | [-> | [-> | [-> | [-> | ->]]]]]]]]]]];
    destruct Hcases'
      as [-> | [-> | [-> | [-> | [-> | [-> | [-> | [-> | [-> | [-> | [-> | ->]]]]]]]]]]];
    cbn [Z.eqb Z.leb Z.compare Pos.compare Pos.compare_cont Pos.eqb orb andb];
    lia.
Qed.

(** [gmtime_r] gives the calendar time of the specification: the fields of
    the one date and time of the day that lie the given number of seconds
    from the epoch. *)
Lemma gmtime_r_utc (y m d h mi s : Z) :
  valid_civil y m d h mi s → INT_MIN <= y - 1900 <= INT_MAX →
  gmtime_r (utc_seconds y m d h mi s) = Some (Tm s mi h d (m - 1) (y - 1900)).
Proof.
  intros (Hm & Hd & Hh & Hmi & Hs) Hy. unfold gmtime_r, utc_seconds.
  set (t := days_from_epoch y m d * 86400 + h * 3600 + mi * 60 + s).
  assert (t / 86400 = days_from_epoch y m d) as Hdays.
  { unfold t. Z.div_mod_to_equations. lia. }
  assert (t mod 86400 = h * 3600 + mi * 60 + s) as Hrem.
  { unfold t. Z.div_mod_to_equations. lia. }
  pose proof (civil_from_days_correct (t / 86400)) as (Hm' & Hd' & Hdfe).
  destruct (civil_from_days (t / 86400)) as [[y' m'] d']. cbn [fst snd] in *.
  rewrite Hdays in Hdfe.
  destruct (days_from_epoch_inj _ _ _ _ _ _ Hm' Hd' Hm Hd Hdfe) as (-> & -> & ->).
  destruct (Z.leb_spec INT_MIN (y - 1900)); [|lia].
  destruct (Z.leb_spec (y - 1900) INT_MAX); [|lia].
  simpl. rewrite Hrem. f_equal. f_equal; Z.div_mod_to_equations; lia.
Qed.

Lemma pad2_two_digits (n : Z) : 0 <= n < 100 → pad2 n = two_digits n.
Proof.
  intros Hn.
  assert (forallb (λ n, String.eqb (pad2 n) (two_digits n)) (seqZ 0 100) = true) as Hall
    by (vm_compute; reflexivity).
  rewrite forallb_forall in Hall.
  apply String.eqb_eq, Hall, list_elem_of_In, elem_of_seqZ. lia.
Qed.

Lemma pretty_four_digits (n : Z) : 1000 <= n <= 9999 → pretty n = four_digits n.
Proof.
  intros Hn.
  assert (forallb (λ n, String.eqb (pretty n) (four_digits n)) (seqZ 1000 9000) = true)
    as Hall by (vm_compute; reflexivity).
  rewrite forallb_forall in Hall.
  apply String.eqb_eq, Hall, list_elem_of_In, elem_of_seqZ. lia.
Qed.

Lemma format_F_HMS_text (y m d h mi s : Z) :
  valid_civil y m d h mi s → 1000 <= y <= 9999 →
  format_F_HMS (Tm s mi h d (m - 1) (y - 1900)) = leaf_time_text y m d h mi s.
Proof.
  intros (Hm & Hd & Hh & Hmi & Hs) Hy.
  assert (d <= 31) by (revert Hd; unfold days_in_month; repeat case_match; lia).
  unfold format_F_HMS, leaf_time_text. simpl.
  replace (y - 1900 + 1900) with y by lia. replace (m - 1 + 1) with m by lia.
  assert (to_int y = y) as ->.
  { unfold to_int. rewrite Z.mod_small by lia.
    destruct (Z.ltb_spec y (2 ^ 31)); lia. }
  by rewrite pretty_four_digits, !pad2_two_digits by lia.
Qed.

Lemma leaf_time_text_length (y m d h mi s : Z) :
  String.length (leaf_time_text y m d h mi s) = 19%nat.
Proof. reflexivity. Qed.

(** *** C7 *)

(** C7 as stated fails in two places. With a buffer of 19 bytes the time
    alone does not fit: the action exits with [strftime failed], a
    diagnostic without a byte count. And the first second of the year
    2147483648 has a [tm_year] that fits [int] while the year does not: the
    name starts with a minus sign, which is not the calendar time. *)
Lemma store_leaf_name_without_count_or_year :
  let w := World {[ [] := Dir ]} ∅ ∅ (InStream [] false []) [] ∅ [] [] [] in
  (store_leaf_name 19 1700000000 1234 0 w).1 = Exit EXIT_FAILURE
  ∧ w_stderr (store_leaf_name 19 1700000000 1234 0 w).2 = ["Error: strftime failed\n"]
  ∧ utc_seconds 2147483648 1 1 0 0 0 = 67767976233532800
  ∧ gmtime_r (to_ssize_t 67767976233532800) = Some (Tm 0 0 0 1 0 2147481748)
  ∧ ∃ name, store_leaf_name 4096 67767976233532800 1234 0 w = (Ret name, w)
            ∧ str_at name 0 = "-"%char.
Proof.
  intros w. split_and!; [vm_compute; reflexivity..|].
  eexists. split; vm_compute; reflexivity.
Qed.

(** C7, amended. The leaf name is the UTC calendar time of the time stamp,
    written [YYYY-MM-DD_HH:MM:SS], followed by [.pid=<pid>.uid=<uid>]: for
    the time stamp that lies [utc_seconds y mo d h mi s] seconds from the
    epoch, with a year of four digits, the name is the text of [y], [mo],
    [d], [h], [mi], [s] and the two numbers in decimal. It depends on
    nothing but the time stamp, the pid and the uid: neither on the other
    fields nor on the state of the system. When the name and its terminator
    do not fit the buffer of [PATH_MAX] bytes the action exits with a
    failure status, having touched nothing but the diagnostics: with
    [strftime failed] when the time alone does not fit, and otherwise with
    the number of bytes the part after the time needed. *)
Theorem store_leaf_name_is_time_pid_uid
    (PATH_MAX : Z) (a : store_args) (y mo d h mi s : Z) (w : world) :
  0 <= sa_pid a < 2 ^ 64 → 0 <= sa_uid a < 2 ^ 64 →
  valid_civil y mo d h mi s → 1000 <= y <= 9999 →
  to_ssize_t (sa_ts a) = utc_seconds y mo d h mi s →
  let time := leaf_time_text y mo d h mi s in
  let suffix := ".pid=" +:+ pretty (sa_pid a) +:+ ".uid=" +:+ pretty (sa_uid a) in
  let need := Z.of_nat (String.length suffix) in
  (Z.of_nat (String.length (time +:+ suffix)) + 1 <= PATH_MAX →
   store_leaf_name PATH_MAX (sa_ts a) (sa_pid a) (sa_uid a) w
   = (Ret (time +:+ suffix), w))
  ∧ (PATH_MAX < Z.of_nat (String.length (time +:+ suffix)) + 1 →
     ∃ w', store_leaf_name PATH_MAX (sa_ts a) (sa_pid a) (sa_uid a) w
           = (Exit EXIT_FAILURE, w')
           ∧ same_files w w'
           ∧ w_stderr w'
             = w_stderr w
               ++ [if PATH_MAX <? 20 then "Error: strftime failed\n"
                   else "Error: formatted storage path too long (needed "
                        +:+ pretty need +:+ " bytes)\n"])
  ∧ (∀ a' w', sa_pid a' = sa_pid a → sa_uid a' = sa_uid a → sa_ts a' = sa_ts a →
       (store_leaf_name PATH_MAX (sa_ts a') (sa_pid a') (sa_uid a') w').1
       = (store_leaf_name PATH_MAX (sa_ts a) (sa_pid a) (sa_uid a) w).1).
Proof.
  intros Hpid Huid Hvalid Hy Hts time suffix need.
  assert (0 <= need <= 50) as Hneed.
  { unfold need, suffix. rewrite !string_length_app. simpl.
    pose proof (pretty_uintmax_length _ Hpid).
    pose proof (pretty_uintmax_length _ Huid). lia. }
  assert (to_int need = need) as Hint.
  { unfold to_int. rewrite Z.mod_small by lia.
    destruct (Z.ltb_spec need (2 ^ 31)); [done | lia]. }
  assert (Z.of_nat (String.length (time +:+ suffix)) = 19 + need) as Hlen.
  { rewrite string_length_app. unfold time. rewrite leaf_time_text_length.
    unfold need. lia. }
  rewrite Hlen.
  (* the block, run on any world *)
  assert (∀ w0, store_leaf_name PATH_MAX (sa_ts a) (sa_pid a) (sa_uid a) w0
                = if PATH_MAX <? 20 then
                    (Exit EXIT_FAILURE, (pr_err "Error: strftime failed\n" w0).2)
                  else if PATH_MAX <? 20 + need then
                    (Exit EXIT_FAILURE,
                     (pr_err ("Error: formatted storage path too long (needed "
                              +:+ pretty need +:+ " bytes)\n") w0).2)
                  else (Ret (time +:+ suffix), w0)) as Hrun.
  { intros w0. unfold store_leaf_name. rewrite Hts.
    rewrite gmtime_r_utc by (done || (unfold INT_MIN, INT_MAX; lia)).
    unfold strftime. rewrite format_F_HMS_text by done. fold time.
    unfold time at 1 2. rewrite leaf_time_text_length. fold time.
    change (Z.of_nat 19 + 1) with 20. change (Z.of_nat 19) with 19.
    destruct (Z.leb_spec 20 PATH_MAX) as [Hle | Hgt];
      destruct (Z.ltb_spec PATH_MAX 20); try lia; [|done].
    change (19 =? 0) with false. cbv iota.
    fold suffix. fold need. rewrite Hint.
    destruct (Z.ltb_spec need 0); [lia|].
    unfold wrap_size_t, wrap_unsigned. rewrite !Z.mod_small by lia.
    destruct (Z.ltb_spec (PATH_MAX - 19 - 1) need);
      destruct (Z.ltb_spec PATH_MAX (20 + need)); try lia; done. }
  split_and!.
  - intros Hfit. rewrite Hrun.
    destruct (Z.ltb_spec PATH_MAX 20); [lia|].
    destruct (Z.ltb_spec PATH_MAX (20 + need)); [lia | done].
  - intros Hnofit. rewrite Hrun.
    destruct (Z.ltb_spec PATH_MAX 20).
    + eexists. split; [reflexivity|]. split; [by unfold same_files | done].
    + destruct (Z.ltb_spec PATH_MAX (20 + need)); [|lia].
      eexists. split; [reflexivity|]. split; [by unfold same_files | done].
  - intros a' w' -> -> ->. rewrite !Hrun. by repeat case_match.
Qed.

Lemma store_leaf_name_is_time_pid_uid_witness :
  store_leaf_name 4096 1700000000 1234 0
    (World {[ [] := Dir ]} ∅ ∅ (InStream [] false []) [] ∅ [] [] [])
  = (Ret "2023-11-14_22:13:20.pid=1234.uid=0",
     World {[ [] := Dir ]} ∅ ∅ (InStream [] false []) [] ∅ [] [] [])
  ∧ ∃ w', store_leaf_name 30 1700000000 1234 0
            (World {[ [] := Dir ]} ∅ ∅ (InStream [] false []) [] ∅ [] [] [])
          = (Exit EXIT_FAILURE, w')
          ∧ w_stderr w' = ["Error: formatted storage path too long (needed 15 bytes)\n"].
Proof.
  split.
  - refine (proj1 (store_leaf_name_is_time_pid_uid 4096
              (StoreArgs 1234 0 0 11 1700000000 (Some "myprog") (Some "/usr/bin/myprog"))
              2023 11 14 22 13 20
              (World {[ [] := Dir ]} ∅ ∅ (InStream [] false []) [] ∅ [] [] [])
              _ _ _ _ _) _).
    + simpl; lia.
    + simpl; lia.
    + vm_compute. repeat split; discriminate.
    + lia.
    + vm_compute; reflexivity.
    + vm_compute; discriminate.
  - destruct (proj1 (proj2 (store_leaf_name_is_time_pid_uid 30
              (StoreArgs 1234 0 0 11 1700000000 (Some "myprog") (Some "/usr/bin/myprog"))
              2023 11 14 22 13 20
              (World {[ [] := Dir ]} ∅ ∅ (InStream [] false []) [] ∅ [] [] [])
              ltac:(simpl; lia) ltac:(simpl; lia)
              ltac:(vm_compute; repeat split; discriminate) ltac:(lia)
              ltac:(vm_compute; reflexivity)))
              ltac:(vm_compute; reflexivity))
      as (w' & Hrun & _ & Herr).
    exists w'. split; [exact Hrun | exact Herr].
Defined.


(** ** The directory initializer *)

Lemma string_app_cons c (a b : string) : String c a +:+ b = String c (a +:+ b).
Proof. reflexivity. Qed.

Lemma string_app_nil_r (s : string) : s +:+ "" = s.
Proof. induction s as [|c s IH]; [done | by rewrite string_app_cons, IH]. Qed.

Lemma string_app_assoc (a b c : string) : (a +:+ b) +:+ c = a +:+ (b +:+ c).
Proof. induction a as [|x a IH]; [done | by rewrite !string_app_cons, IH]. Qed.

Lemma substring_prefix (a b : string) :
  String.substring 0 (String.length a) (a +:+ b) = a.
Proof.
  induction a as [|x a IH]; [by destruct b|].
  rewrite string_app_cons. simpl. by rewrite IH.
Qed.

Lemma slash_positions_ge s : ∀ i, Forall (λ j, (i ≤ j)%nat) (slash_positions i s).
Proof.
  induction s as [|c s IH]; intros i; simpl; [constructor|].
  destruct (c =? "/")%char.
  - constructor; [lia|]. eapply Forall_impl; [apply IH | simpl; lia].
  - eapply Forall_impl; [apply IH | simpl; lia].
Qed.

Lemma mkdir_Ret p mode w : ∃ r w1, mkdir p mode w = (Ret r, w1).
Proof. unfold mkdir. repeat case_match; by eexists _, _. Qed.

(** [mkdir_or_die] followed by [k] is one step of [create_prefixes]. *)
Lemma mkdir_or_die_then dir (k : M unit) w :
  (mkdir_or_die dir ≫= λ _, k) w
  = (mkdir dir 511 ≫= λ r,
       match r with
       | inl _ => k
       | inr e =>
           if decide (e = EEXIST) then k
           else
             pr_err ("Error: could not create path '" +:+ dir +:+ "', mkdir failed: "
                     +:+ strerror e +:+ "\n");;
             c_exit EXIT_FAILURE
       end) w.
Proof.
  unfold mkdir_or_die, mbind, M_bind.
  destruct (mkdir_Ret dir 511 w) as (r & w1 & ->).
  destruct r as [[]|e]; [done|].
  destruct (decide (e = EEXIST)) as [-> | Hne]; [done|].
  destruct (decide (e ≠ EEXIST)); [|done].
  rewrite pr_err_spec. done.
Qed.

Lemma mkdir_or_die_last dir w : mkdir_or_die dir w = create_prefixes [dir] w.
Proof.
  simpl. unfold mkdir_or_die, mbind, M_bind.
  destruct (mkdir_Ret dir 511 w) as (r & w1 & ->).
  destruct r as [[]|e]; [done|].
  destruct (decide (e = EEXIST)) as [-> | Hne]; [done|].
  by destruct (decide (e ≠ EEXIST)).
Qed.

Lemma store_mkdirs_from_refines rest : ∀ pre w,
  store_mkdirs_from pre rest w
  = create_prefixes
      (map (λ i, String.substring 0 i (pre +:+ rest))
           (slash_positions (String.length pre) rest)
       ++ [pre +:+ rest]) w.
Proof.
  induction rest as [|c rest IH]; intros pre w; simpl slash_positions.
  { simpl map. rewrite string_app_nil_r. apply mkdir_or_die_last. }
  simpl store_mkdirs_from.
  destruct (Ascii.eqb_spec c "/") as [-> | Hc].
  - assert (∀ w1, store_mkdirs_from (pre +:+ "/") rest w1
                  = create_prefixes
                      (map (λ i, String.substring 0 i (pre +:+ String "/" rest))
                           (slash_positions (S (String.length pre)) rest)
                       ++ [pre +:+ String "/" rest]) w1) as Heq.
    { intros w1. rewrite IH, string_length_app, string_app_assoc. simpl.
      by rewrite Nat.add_1_r. }
    rewrite mkdir_or_die_then. simpl map. rewrite substring_prefix.
    simpl create_prefixes. unfold mbind at 1 3, M_bind at 1 3.
    destruct (mkdir_Ret pre 511 w) as (r & w1 & ->).
    destruct r as [[]|e]; [apply Heq|].
    destruct (decide (e = EEXIST)); [apply Heq | done].
  - rewrite IH, string_length_app, string_app_assoc. simpl.
    by rewrite Nat.add_1_r.
Qed.

(** The loop of [act_store] attempts exactly the prefixes of [dir], in
    order. *)
Lemma store_mkdirs_refines dir w :
  dir ≠ "" → store_mkdirs dir w = create_prefixes (dir_prefixes dir) w.
Proof.
  destruct dir as [|c rest]; [done|]. intros _.
  unfold store_mkdirs, dir_prefixes. rewrite store_mkdirs_from_refines.
  simpl slash_positions.
  assert (filter (λ i, (1 ≤ i)%nat) (slash_positions 1 rest) = slash_positions 1 rest)
    as Hfilter.
  { pose proof (slash_positions_ge rest 1) as Hge.
    induction Hge as [|j l Hj _ IHl]; [done|].
    rewrite filter_cons. destruct (decide (1 ≤ j)%nat); [|lia]. by rewrite IHl. }
  destruct (c =? "/")%char.
  - rewrite filter_cons. destruct (decide (1 ≤ 0)%nat); [lia|].
    by rewrite Hfilter.
  - by rewrite Hfilter.
Qed.

(** *** [mkdir] on a growing tree *)

Lemma walk_mono (fs fs' : gmap (list string) node) comps : ∀ cur q,
  fs ⊆ fs' → walk fs cur comps = inl q → walk fs' cur comps = inl q.
Proof.
  induction comps as [|c cs IH]; intros cur q Hsub; simpl; [done|].
  destruct (String.eqb c "" || String.eqb c "."); [by apply IH|].
  destruct (String.eqb c ".."); [by apply IH|].
  destruct (fs !! (cur ++ [c])) as [[]|] eqn:Hlook; [|done..].
  rewrite (lookup_weaken _ _ _ _ Hlook Hsub). by apply IH.
Qed.

Lemma walk_error fs comps : ∀ cur e, walk fs cur comps = inr e → e ≠ EEXIST.
Proof.
  induction comps as [|c cs IH]; intros cur e; simpl; [done|].
  destruct (String.eqb c "" || String.eqb c "."); [by apply IH|].
  destruct (String.eqb c ".."); [by apply IH|].
  destruct (fs !! (cur ++ [c])) as [[]|]; [by apply IH | by intros [= <-]..].
Qed.

(** A [mkdir] that succeeds or finds the path in place leaves it present for
    good; the tree only grows, by directories, and the call is recorded. *)
Lemma mkdir_settles p mode w r w1 :
  mkdir p mode w = (Ret r, w1) →
  w_fs w ⊆ w_fs w1
  ∧ w_calls w1 = w_calls w ++ [CallMkdir p mode]
  ∧ w_ro w1 = w_ro w
  ∧ (r = inl () ∨ r = inr EEXIST → path_present (w_fs w1) p).
Proof.
  unfold mkdir. simpl.
  destruct (String.eqb p "") eqn:Hp.
  { intros [= <- <-]. simpl. split_and!; [done..|]. by intros [|]. }
  destruct (split_last (split_slash p)) as [[ini l]|] eqn:Hsplit.
  2: { intros [= <- <-]. simpl. split_and!; [done..|]. intros _ w2 m Hsub.
       unfold mkdir. by rewrite Hp, Hsplit. }
  destruct (walk (w_fs w) [] ini) as [q|e] eqn:Hwalk.
  2: { intros [= <- <-]. simpl. split_and!; [done..|].
       intros [? | [= ->]]; [done|]. by apply walk_error in Hwalk. }
  destruct (String.eqb l "." || String.eqb l "..") eqn:Hdots.
  { intros [= <- <-]. simpl. split_and!; [done..|]. intros _ w2 m Hsub.
    unfold mkdir. simpl. rewrite Hp, Hsplit.
    by rewrite (walk_mono _ _ _ _ _ Hsub Hwalk), Hdots. }
  destruct (w_fs w !! (q ++ [l])) as [nd|] eqn:Hlook.
  { intros [= <- <-]. simpl. split_and!; [done..|]. intros _ w2 m Hsub.
    unfold mkdir. simpl. rewrite Hp, Hsplit.
    rewrite (walk_mono _ _ _ _ _ Hsub Hwalk), Hdots.
    by rewrite (lookup_weaken _ _ _ _ Hlook Hsub). }
  destruct (decide (q ∈ w_ro w)).
  { intros [= <- <-]. simpl. split_and!; [done..|]. by intros [|]. }
  intros [= <- <-]. simpl. split_and!; [by apply insert_subseteq | done..|].
  intros _ w2 m Hsub. unfold mkdir. simpl. rewrite Hp, Hsplit.
  assert (w_fs w ⊆ w_fs w2) as Hsub0.
  { etrans; [by apply insert_subseteq | done]. }
  rewrite (walk_mono _ _ _ _ _ Hsub0 Hwalk), Hdots.
  assert (w_fs w2 !! (q ++ [l]) = Some Dir) as ->; [|done].
  exact (lookup_weaken _ _ _ _ (lookup_insert_eq (w_fs w) (q ++ [l]) Dir) Hsub).
Qed.

Lemma path_present_mono fs fs' p :
  fs ⊆ fs' → path_present fs p → path_present fs' p.
Proof. intros Hsub Hp w m Hw. apply Hp. by etrans. Qed.

(** *** The loop over the prefixes *)

Lemma create_prefixes_step p ps w :
  ∃ r w1, mkdir p 511 w = (Ret r, w1)
    ∧ create_prefixes (p :: ps) w
      = if bool_decide (r = inl () ∨ r = inr EEXIST)
        then create_prefixes ps w1
        else (Exit EXIT_FAILURE,
              (pr_err ("Error: could not create path '" +:+ p +:+ "', mkdir failed: "
                       +:+ strerror (match r with inr e => e | _ => EEXIST end)
                       +:+ "\n") w1).2).
Proof.
  destruct (mkdir_Ret p 511 w) as (r & w1 & Hmk). exists r, w1. split; [done|].
  simpl. unfold mbind at 1, M_bind at 1. rewrite Hmk.
  destruct r as [[]|e].
  - rewrite bool_decide_eq_true_2; [done | by left].
  - destruct (decide (e = EEXIST)) as [-> | Hne].
    + rewrite bool_decide_eq_true_2; [done | by right].
    + rewrite bool_decide_eq_false_2; [|intros [|[= ]]; done].
      reflexivity.
Qed.

Lemma create_prefixes_Ret ps : ∀ w w1,
  create_prefixes ps w = (Ret (), w1) →
  w_fs w ⊆ w_fs w1
  ∧ w_calls w1 = w_calls w ++ map (λ p, CallMkdir p 511) ps
  ∧ Forall (path_present (w_fs w1)) ps.
Proof.
  induction ps as [|p ps IH]; intros w w1.
  { intros [= <-]. simpl. by rewrite app_nil_r. }
  destruct (create_prefixes_step p ps w) as (r & wa & Hmk & ->).
  case_bool_decide as Hr; [|done].
  intros (Hsub & Hcalls & Hall)%IH.
  apply mkdir_settles in Hmk as (Hsub0 & Hcalls0 & _ & Hpres).
  split_and!.
  - by etrans.
  - rewrite Hcalls, Hcalls0. simpl. by rewrite <- (assoc_L (++)).
  - constructor; [|done]. eapply path_present_mono; [done | by apply Hpres].
Qed.

(** Where every prefix is present already, the loop succeeds and leaves the
    tree as it is. *)
Lemma create_prefixes_present ps : ∀ w,
  Forall (path_present (w_fs w)) ps →
  ∃ w2, create_prefixes ps w = (Ret (), w2) ∧ w_fs w2 = w_fs w.
Proof.
  induction ps as [|p ps IH]; intros w Hall; [by eexists|].
  apply Forall_cons in Hall as [Hp Hall].
  destruct (create_prefixes_step p ps w) as (r & wa & Hmk & ->).
  rewrite (Hp w 511) in Hmk by done. injection Hmk as <- <-.
  rewrite bool_decide_eq_true_2 by (by right).
  destruct (IH (set_calls (w_calls w ++ [CallMkdir p 511]) w)) as (w2 & Hrun & Hfs);
    [done|].
  by exists w2.
Qed.

Lemma create_prefixes_outcome ps : ∀ w,
  (create_prefixes ps w).1 = Ret () ∨ (create_prefixes ps w).1 = Exit EXIT_FAILURE.
Proof.
  induction ps as [|p ps IH]; intros w; [by left|].
  destruct (create_prefixes_step p ps w) as (r & wa & Hmk & ->).
  case_bool_decide; [apply IH | by right].
Qed.

Example dir_prefixes_base :
  dir_prefixes "/var/lib/coredumps" = ["/var"; "/var/lib"; "/var/lib/coredumps"].
Proof. reflexivity. Qed.

Example dir_prefixes_slashes :
  dir_prefixes "/" = ["/"] ∧ dir_prefixes "/a//b/" = ["/a"; "/a/"; "/a//b"; "/a//b/"].
Proof. split; reflexivity. Qed.

(** A failure other than "already exists" is fatal: with a regular file in
    the way, the second [mkdir] fails with ENOTDIR and the action exits. *)
Example store_mkdirs_fatal_on_other_error :
  let r := store_mkdirs "/var/lib"
             (World {[ [] := Dir; ["var"] := File ]} ∅ ∅ (InStream [] false [])
                    [] ∅ [] [] []) in
  r.1 = Exit EXIT_FAILURE
  ∧ w_calls r.2 = [CallMkdir "/var" 511; CallMkdir "/var/lib" 511]
  ∧ w_stderr r.2
    = ["Error: could not create path '/var/lib', mkdir failed: Not a directory\n"].
Proof. split_and!; vm_compute; reflexivity. Qed.

(** *** C6 *)

(** C6 as stated fails on the leaf: in a run that gets as far as the leaf,
    the [mkdir] calls are those for the prefixes of the base directory and
    no other; the leaf is handed to [openat] with [O_CREAT | O_DIRECTORY |
    O_RDWR] and mode 0755, which creates no directory, and the leaf is not
    in the tree afterwards. *)
Lemma act_store_leaf_not_made_by_mkdir :
  let r := act_store false 4096 1 100 (Fbuf 0 (replicate 4096 x00))
             "/var/lib/coredumps" 9
             ["1234"; "0"; "0"; "11"; "1700000000"; "0"; "7"; "/usr/bin/myprog"; "extra"]
             (World {[ [] := Dir ]} ∅ ∅ (InStream [] false []) [] ∅ [] [] []) in
  r.1 = Exit EXIT_FAILURE
  ∧ w_calls r.2
    = [CallMkdir "/var" 511; CallMkdir "/var/lib" 511;
       CallMkdir "/var/lib/coredumps" 511;
       CallOpendir "/var/lib/coredumps";
       CallOpenat 3 "1970-01-01_00:00:07.pid=0.uid=11" O_CREAT_DIRECTORY_RDWR 493]
  ∧ w_fs r.2 !! ["var"; "lib"; "coredumps"; "1970-01-01_00:00:07.pid=0.uid=11"] = None
  ∧ w_fs r.2 !! ["var"; "lib"; "coredumps"] = Some Dir.
Proof. split_and!; vm_compute; reflexivity. Qed.

(** C6, amended. For an absolute base directory the initializer attempts
    [mkdir] with mode 0777 on each successively longer prefix of the base
    directory, in order (the string cut before each separator after the
    first character, then the whole string); "already exists" counts as
    success and any other failure ends the invocation with a failure status.
    After a successful run every prefix is present, the tree has only grown,
    and a second run on the same path succeeds as well and leaves the tree
    as the first run left it. *)
Theorem store_mkdirs_creates_base_dir_prefixes (dir : string) (w : world) :
  str_at dir 0 = "/"%char →
  store_mkdirs dir w = create_prefixes (dir_prefixes dir) w
  ∧ ((store_mkdirs dir w).1 = Ret () ∨ (store_mkdirs dir w).1 = Exit EXIT_FAILURE)
  ∧ ∀ w1, store_mkdirs dir w = (Ret (), w1) →
      w_calls w1 = w_calls w ++ map (λ p, CallMkdir p 511) (dir_prefixes dir)
      ∧ w_fs w ⊆ w_fs w1
      ∧ Forall (path_present (w_fs w1)) (dir_prefixes dir)
      ∧ ∃ w2, store_mkdirs dir w1 = (Ret (), w2) ∧ w_fs w2 = w_fs w1.
Proof.
  intros Habs.
  assert (dir ≠ "") as Hne by (by intros ->).
  split_and!.
  - by apply store_mkdirs_refines.
  - rewrite store_mkdirs_refines by done. apply create_prefixes_outcome.
  - intros w1 Hrun. rewrite store_mkdirs_refines in Hrun by done.
    apply create_prefixes_Ret in Hrun as (Hsub & Hcalls & Hall).
    split_and!; [done..|].
    destruct (create_prefixes_present _ w1 Hall) as (w2 & Hrun2 & Hfs).
    exists w2. by rewrite store_mkdirs_refines.
Qed.

Lemma store_mkdirs_creates_base_dir_prefixes_witness :
  ∃ w1, store_mkdirs "/var/lib/coredumps"
          (World {[ [] := Dir ]} ∅ ∅ (InStream [] false []) [] ∅ [] [] [])
        = (Ret (), w1)
        ∧ w_calls w1 = [CallMkdir "/var" 511; CallMkdir "/var/lib" 511;
                        CallMkdir "/var/lib/coredumps" 511]
        ∧ ∃ w2, store_mkdirs "/var/lib/coredumps" w1 = (Ret (), w2)
                ∧ w_fs w2 = w_fs w1.
Proof.
  eexists. split; [vm_compute; reflexivity|].
  destruct (store_mkdirs_creates_base_dir_prefixes "/var/lib/coredumps"
              (World {[ [] := Dir ]} ∅ ∅ (InStream [] false []) [] ∅ [] [] [])
              ltac:(vm_compute; reflexivity)) as (_ & _ & Hrun).
  destruct (Hrun _ ltac:(vm_compute; reflexivity)) as (Hcalls & _ & _ & Hagain).
  split; [exact Hcalls | exact Hagain].
Defined.
(** * Further properties *)

(** ** The staging buffer *)

(** X1. First in, first out. On a buffer that satisfies the representation
    invariant, in an NDEBUG build, storing [d] at [fbuf_space_ptr] (at most
    [fbuf_space] bytes), feeding its length and then eating [k] bytes all
    succeed, and what is held afterwards is the old content followed by [d],
    less its first [k] bytes. *)
Theorem fbuf_fill_then_eat_is_fifo (f : fbuf) (d : list byte) (k : Z) :
  fbuf_inv f →
  Z.of_nat (length d) <= fbuf_space f →
  0 <= k <= fbuf_data f + Z.of_nat (length d) →
  ∃ f1 f2 f3,
    buf_store f (fbuf_space_ptr f) d = Ret f1
    ∧ fbuf_feed true f1 (Z.of_nat (length d)) = Ret f2
    ∧ fbuf_eat true f2 k = Ret f3
    ∧ fbuf_held f2 = fbuf_held f ++ d
    ∧ fbuf_held f3 = drop (Z.to_nat k) (fbuf_held f ++ d)
    ∧ fbuf_space f3 = fbuf_space f - Z.of_nat (length d) + k.
Proof.
  intros Hf Hd Hk.
  destruct (buf_store_tail_ok f d Hf Hd) as [f1 Hst].
  pose proof (fbuf_feed_ndebug f1 (Z.of_nat (length d))) as Hfeed.
  destruct (fbuf_fill_spec true f d f1 _ Hf Hd Hst Hfeed) as (Hf2 & Hb2 & Hheld2).
  set (f2 := Fbuf _ (buf f1)) in *.
  destruct (fbuf_eat_spec true f2 k Hf2) as (f3 & Heat & Hf3 & Hb3 & Hheld3).
  { unfold fbuf_data in *. lia. }
  exists f1, f2, f3. split_and!; [done.. | by rewrite Hheld3, Hheld2 |].
  rewrite !fbuf_space_inv by done. lia.
Qed.

Lemma fbuf_fill_then_eat_is_fifo_witness :
  ∃ f1 f2 f3,
    buf_store (Fbuf 1 (x07 :: replicate 4095 x00)) 1 [x08; x09] = Ret f1
    ∧ fbuf_feed true f1 2 = Ret f2
    ∧ fbuf_eat true f2 2 = Ret f3
    ∧ fbuf_held f2 = [x07; x08; x09]
    ∧ fbuf_held f3 = [x09]
    ∧ fbuf_space f3 = 4095.
Proof.
  destruct (fbuf_fill_then_eat_is_fifo (Fbuf 1 (x07 :: replicate 4095 x00)) [x08; x09] 2)
    as (f1 & f2 & f3 & H1 & H2 & H3 & H4 & H5 & H6).
  - split; [vm_compute; reflexivity | simpl; unfold sizeof_buf; lia].
  - vm_compute; discriminate.
  - vm_compute; split; discriminate.
  - exists f1, f2, f3. split_and!; [exact H1 | exact H2 | exact H3 | exact H4 | exact H5 |].
    rewrite H6. vm_compute; reflexivity.
Defined.

(** X2. With assertions compiled in, [fbuf_feed] aborts exactly when the
    addition does not wrap around [size_t]: every feed within the capacity,
    a feed of zero bytes included, is refused. *)
Theorem fbuf_feed_assert_aborts_iff_no_wrap (f : fbuf) (n : Z) :
  0 <= bytes_in_buf f < 2 ^ 64 → is_size_t n →
  (fbuf_feed false f n = Abort ↔ bytes_in_buf f + n < 2 ^ 64).
Proof.
  intros Hb [Hn0 Hn]. split.
  - intros Habort.
    destruct (Z.lt_ge_cases (bytes_in_buf f + n) (2 ^ 64)) as [|Hge]; [done|].
    exfalso. revert Habort. unfold fbuf_feed, c_assert; simpl.
    unfold wrap_size_t.
    replace ((bytes_in_buf f + n) mod 2 ^ 64) with (bytes_in_buf f + n - 2 ^ 64).
    + destruct (Z.ltb_spec (bytes_in_buf f + n - 2 ^ 64) n); [done | lia].
    + apply Z.mod_unique with (q := 1); lia.
  - intros Hlt. apply fbuf_feed_assert_no_wrap; lia.
Qed.

Lemma fbuf_feed_assert_aborts_iff_no_wrap_witness :
  fbuf_feed false (fbuf_init (Fbuf 5 (replicate 4096 x00))) 0 = Abort.
Proof.
  apply (fbuf_feed_assert_aborts_iff_no_wrap (fbuf_init (Fbuf 5 (replicate 4096 x00))) 0).
  - simpl; lia.
  - unfold is_size_t; lia.
  - simpl; lia.
Defined.

(** X3. Eating more than the buffer holds: with assertions it is an abort;
    in an NDEBUG build the length handed to [memmove] wraps around and the
    move leaves the array (undefined behaviour). *)
Theorem fbuf_eat_beyond_data (f : fbuf) (n : Z) :
  fbuf_inv f → is_size_t n → fbuf_data f < n →
  fbuf_eat false f n = Abort ∧ fbuf_eat true f n = Undef.
Proof.
  intros [Hwf Hb] [Hn0 Hn] Hgt. unfold fbuf_data in Hgt.
  unfold fbuf_wf, sizeof_buf in *.
  unfold fbuf_eat, c_assert; simpl.
  destruct (Z.leb_spec n (bytes_in_buf f)); [lia|]. split; [done|].
  unfold buf_memmove, buf_load, wrap_size_t.
  replace ((bytes_in_buf f - n) mod 2 ^ 64) with (bytes_in_buf f - n + 2 ^ 64)
    by (apply Z.mod_unique with (q := -1); lia).
  destruct (Z.leb_spec 0 n); [|lia].
  destruct (Z.leb_spec 0 (bytes_in_buf f - n + 2 ^ 64)); [|lia].
  destruct (Z.leb_spec (n + (bytes_in_buf f - n + 2 ^ 64)) (Z.of_nat (length (buf f))));
    [lia | done].
Qed.

Lemma fbuf_eat_beyond_data_witness :
  fbuf_eat false (Fbuf 2 (replicate 4096 x00)) 3 = Abort
  ∧ fbuf_eat true (Fbuf 2 (replicate 4096 x00)) 3 = Undef.
Proof.
  apply (fbuf_eat_beyond_data (Fbuf 2 (replicate 4096 x00)) 3).
  - split; [vm_compute; reflexivity | simpl; unfold sizeof_buf; lia].
  - unfold is_size_t; lia.
  - unfold fbuf_data; simpl; lia.
Defined.

(** ** The streaming copier *)

Lemma cs_err_incr_small st :
  0 <= cs_err st <= 10 → cs_err (cs_err_incr st) = cs_err st + 1.
Proof. intros H. simpl. unfold wrap_unsigned. apply Z.mod_small. lia. Qed.

Lemma copy_drain_total ndebug fd fuel : ∀ st w,
  fbuf_inv (cs_f st) → 0 <= cs_err st <= 10 →
  (Z.to_nat (bytes_in_buf (cs_f st)) < fuel)%nat →
  ∃ res w', copy_drain ndebug fuel fd st w = (Ret res, w')
    ∧ w_stdin w' = w_stdin w
    ∧ match res with
      | inl _ => True
      | inr st' =>
          fbuf_inv (cs_f st') ∧ 0 <= cs_err st' <= 11
          ∧ bytes_in_buf (cs_f st') + (11 - cs_err st')
            < bytes_in_buf (cs_f st) + (11 - cs_err st)
      end.
Proof.
  induction fuel as [|fuel IH]; intros st w Hf Herr Hfuel; [lia|].
  simpl copy_drain.
  destruct (Z.eqb_spec (fbuf_data (cs_f st)) 0) as [Hz | Hnz].
  { by eexists (inl _), w. }
  rewrite buf_load_held, bind_lift_Ret by done.
  destruct (sys_write fd (fbuf_held (cs_f st)) w) as [[r| | | |] w1] eqn:Hwrite;
    try (unfold sys_write in Hwrite; repeat case_match; discriminate).
  rewrite (bind_Ret_step _ _ _ _ _ Hwrite).
  apply sys_write_spec in Hwrite as [Hin Hr].
  pose proof Hf as [_ Hb].
  destruct r as [wl | e].
  - destruct Hr as [Hwl _]. rewrite fbuf_held_length in Hwl by done.
    destruct (Z.eqb_spec wl 0) as [-> | Hwl0].
    + eexists (inr _), _. split; [reflexivity|]. split; [done|].
      rewrite cs_err_incr_small by done. simpl. split_and!; [done | lia..].
    + destruct (fbuf_eat_spec ndebug (cs_f st) wl Hf) as (f' & Heat & Hf' & Hb' & _);
        [unfold fbuf_data; lia|].
      rewrite Heat, bind_lift_Ret.
      set (st' := CopyState _ _ _ _ f').
      destruct ((fbuf_space f' =? 0) || cs_done_reading st).
      * destruct (IH st' w1) as (res & w' & Hrun & Hin' & Hres); [done | done | simpl; lia |].
        exists res, w'. split; [done|]. split; [congruence|].
        destruct res as [|st'']; [done|]. simpl in Hres. split_and!; [apply Hres.. |].
        destruct Hres as (_ & _ & Hlt). lia.
      * eexists (inr st'), _. split; [reflexivity|]. split; [done|].
        simpl. split_and!; [done | lia..].
  - eexists (inr _), _. split; [reflexivity|]. split; [done|].
    rewrite cs_err_incr_small by done. simpl. split_and!; [done | lia..].
Qed.

Lemma copy_loop_total ndebug fd fuel : ∀ st w,
  fbuf_inv (cs_f st) → 0 <= cs_err st <= 11 →
  2 * Z.of_nat (length (in_rest (w_stdin w))) + bytes_in_buf (cs_f st)
    + (11 - cs_err st) + 4098 <= Z.of_nat fuel →
  copy_returns ndebug (copy_loop ndebug fuel fd st w).1.
Proof.
  induction fuel as [|fuel IH]; intros st w Hf Herr Hfuel.
  { destruct Hf as [_ ?]. lia. }
  pose proof Hf as [_ Hb].
  simpl copy_loop.
  destruct (Z.ltb_spec 10 (cs_err st)) as [Hgt | Hle]; [left; by eexists|].
  destruct (sys_fread (fbuf_space (cs_f st)) w) as [o w1] eqn:Hread.
  unfold sys_fread in Hread.
  destruct (fread (fbuf_space (cs_f st)) (w_stdin w)) as [d s'] eqn:Hfread.
  injection Hread as <- <-.
  assert (sys_fread (fbuf_space (cs_f st)) w = (Ret d, set_stdin s' w)) as Hread.
  { unfold sys_fread. by rewrite Hfread. }
  rewrite (bind_Ret_step _ _ _ _ _ Hread).
  apply fread_spec in Hfread as (Hsplit & Hlen & _);
    [|rewrite fbuf_space_inv by done; lia].
  destruct (buf_store_tail_ok _ d Hf Hlen) as [f1 Hst].
  rewrite Hst, bind_lift_Ret, bind_feof.
  assert (Z.of_nat (length (in_rest (w_stdin w)))
          = Z.of_nat (length d) + Z.of_nat (length (in_rest s'))) as Hl.
  { rewrite Hsplit, length_app. lia. }
  destruct ((Z.of_nat (length d) =? 0) && negb (in_eof (w_stdin (set_stdin s' w))))
    eqn:Hfail.
  - rewrite (bind_Ret_step (eprint _) _ _ _ () eq_refl).
    apply IH; [done | rewrite cs_err_incr_small by lia; lia |].
    rewrite cs_err_incr_small by lia. simpl. lia.
  - destruct (fbuf_feed ndebug f1 (Z.of_nat (length d))) as [f2| | | |] eqn:Hfeed;
      try (unfold fbuf_feed, c_assert in Hfeed; repeat case_match; discriminate).
    2: { right. split; [|done]. unfold fbuf_feed, c_assert in Hfeed.
         destruct ndebug; [simpl in Hfeed; discriminate | done]. }
    rewrite bind_lift_Ret.
    destruct (fbuf_fill_spec ndebug _ d _ _ Hf Hlen Hst Hfeed) as (Hf2 & Hb2 & _).
    rewrite fbuf_space_inv in Hlen by done. unfold sizeof_buf in Hlen.
    set (st1 := CopyState _ _ _ _ f2).
    destruct (copy_drain_total ndebug fd fuel st1 (set_stdin s' w))
      as (res & w2 & Hdrain & Hin & Hres); [done | simpl; lia | simpl; lia |].
    rewrite (bind_Ret_step _ _ _ _ _ Hdrain).
    destruct res as [v | st2]; [left; by eexists|].
    simpl in Hres. destruct Hres as (Hf3 & Herr3 & Hlt).
    apply IH; [done | done |]. rewrite Hin. simpl. lia.
Qed.

(** X4. The copier always comes back and never leaves its buffer: for every
    input, every schedule of short reads, short writes and failures, and
    either build, a loop budget of twice the input length plus 4109 is
    enough for [copy_file_to_fd] to return a value (or, with assertions
    compiled in, to abort); it never reads or writes outside [f->buf]. *)
Theorem copy_file_to_fd_terminates_in_bounds
    (ndebug : bool) (fuel : nat) (f0 : fbuf) (out_fd : Z) (w : world) :
  fbuf_wf f0 →
  (2 * length (in_rest (w_stdin w)) + 4109 ≤ fuel)%nat →
  copy_returns ndebug (copy_file_to_fd ndebug fuel f0 out_fd w).1.
Proof.
  intros Hf Hfuel. unfold copy_file_to_fd.
  apply copy_loop_total; simpl; [by apply fbuf_init_inv | lia | lia].
Qed.

Lemma copy_file_to_fd_terminates_in_bounds_witness :
  copy_returns true
    (copy_file_to_fd true 4200 (Fbuf 3 (replicate 4096 x00)) 5
       (World ∅ ∅ ∅ (InStream [x01; x02] false [ReadErr 1; ReadErr 0])
              [WriteShort 0; WriteFail EIO; WriteShort 1] ∅ [] [] [])).1.
Proof.
  apply copy_file_to_fd_terminates_in_bounds.
  - vm_compute; reflexivity.
  - simpl; lia.
Defined.

(** *** The error budget *)

Lemma sys_write_failures fd d w r w' :
  d ≠ [] → sys_write fd d w = (Ret r, w') →
  match r with
  | inl wl =>
      if wl =? 0 then write_failures (w_wsched w) = S (write_failures (w_wsched w'))
      else write_failures (w_wsched w') = write_failures (w_wsched w)
  | inr _ => write_failures (w_wsched w) = S (write_failures (w_wsched w'))
  end.
Proof.
  intros Hd. unfold sys_write.
  destruct (w_wsched w) as [|[|k|e] sched]; intros [= <- <-]; simpl.
  - by destruct d.
  - by destruct d.
  - destruct d as [|b d]; [done|]. by destruct k.
  - done.
Qed.

Lemma fread_failures nmemb s d s' :
  0 < nmemb → fread nmemb s = (d, s') →
  (read_failures (in_sched s') ≤ read_failures (in_sched s))%nat
  ∧ (d = [] → in_eof s' = false →
     read_failures (in_sched s) = S (read_failures (in_sched s'))).
Proof.
  intros Hn. unfold fread.
  destruct (Z.eqb_spec nmemb 0); [lia|].
  destruct (in_sched s) as [|[|k] sched]; intros [= <- <-]; simpl.
  - split; [done|]. intros Hd [_ Hlt%Z.ltb_ge]%orb_false_iff.
    apply (f_equal length) in Hd. rewrite length_take in Hd. simpl in Hd. lia.
  - split; [done|]. intros Hd [_ Hlt%Z.ltb_ge]%orb_false_iff.
    apply (f_equal length) in Hd. rewrite length_take in Hd. simpl in Hd. lia.
  - split; [lia | done].
Qed.

Lemma copy_drain_budget ndebug fd fuel : ∀ st w st' w',
  fbuf_inv (cs_f st) → budget_ok true st w →
  copy_drain ndebug fuel fd st w = (Ret (inr st'), w') →
  budget_ok false st' w'.
Proof.
  induction fuel as [|fuel IH]; intros st w st' w' Hf Hbud; simpl.
  { intros [? _]%lift_Ret_inv. discriminate. }
  destruct (Z.eqb_spec (fbuf_data (cs_f st)) 0) as [Hz | Hnz].
  { intros [[=] _]%mret_inv. }
  rewrite buf_load_held, bind_lift_Ret by done.
  intros (r & w1 & Hwrite & Hk)%bind_Ret_inv.
  assert (fbuf_held (cs_f st) ≠ []) as Hne.
  { intros Hnil. pose proof (fbuf_held_length _ Hf) as Hl.
    rewrite Hnil in Hl. unfold fbuf_data in Hnz. simpl in Hl. lia. }
  pose proof (sys_write_failures _ _ _ _ _ Hne Hwrite) as Hfails.
  apply sys_write_spec in Hwrite as [Hin Hr].
  destruct Hbud as (Herr0 & Hsum & _ & Hfull).
  pose proof Hf as [_ Hb].
  assert (∀ w2, w_stdin w2 = w_stdin w1 → w_wsched w2 = w_wsched w1 →
                write_failures (w_wsched w) = S (write_failures (w_wsched w1)) →
                budget_ok false (cs_err_incr st) w2) as Hfailed.
  { intros w2 Hin2 Hws2 Hf1. unfold budget_ok.
    rewrite cs_err_incr_small by lia. rewrite Hin2, Hin, Hws2. simpl.
    destruct Hfull as [Hno | Hroom]; [lia|].
    split_and!; [lia | lia | intros _; lia | right; lia]. }
  destruct r as [wl | e].
  - destruct Hr as [Hwl _]. rewrite fbuf_held_length in Hwl by done.
    destruct (Z.eqb_spec wl 0) as [-> | Hwl0].
    + apply bind_Ret_inv in Hk as (u & w2 & Hpr & Hk).
      apply mret_inv in Hk as [[= <-] ->].
      unfold eprint in Hpr. injection Hpr as _ <-. by apply Hfailed.
    + destruct (fbuf_eat_spec ndebug (cs_f st) wl Hf) as (f' & Heat & Hf' & Hb' & _);
        [unfold fbuf_data; lia|].
      rewrite Heat, bind_lift_Ret in Hk.
      set (st1 := CopyState _ _ _ _ f') in Hk.
      assert (budget_ok false st1 w1) as Hbud1.
      { unfold budget_ok, st1; simpl. rewrite Hin, Hfails, Hb'.
        split_and!; [done | done | intros _; lia |].
        destruct Hfull as [Hno | Hroom]; [by left | right; lia]. }
      destruct ((fbuf_space f' =? 0) || cs_done_reading st).
      * eapply IH; [| |exact Hk]; [done|].
        destruct Hbud1 as (? & ? & _ & ?). by split_and!.
      * by apply mret_inv in Hk as [[= <-] ->].
  - apply bind_Ret_inv in Hk as (u & w2 & Hpr & Hk).
    apply mret_inv in Hk as [[= <-] ->].
    unfold eprint in Hpr. injection Hpr as _ <-. by apply Hfailed.
Qed.

Lemma copy_loop_within_budget ndebug fd out0 inp fuel : ∀ st w r w',
  copy_inv fd out0 inp st w → budget_ok false st w →
  copy_loop ndebug fuel fd st w = (Ret r, w') →
  copy_complete fd out0 inp r w'.
Proof.
  induction fuel as [|fuel IH]; intros st w r w' Hinv Hbud; simpl.
  { intros [? _]%lift_Ret_inv. discriminate. }
  pose proof Hinv as (Hf & Hwf & Hbytes & Hrest & Hwritten).
  pose proof Hbud as (Herr0 & Hsum & Hroom & Hfull). specialize (Hroom eq_refl).
  pose proof Hf as [_ Hb].
  destruct (Z.ltb_spec 10 (cs_err st)); [lia|].
  intros (d & w1 & Hread & Hk)%bind_Ret_inv.
  unfold sys_fread in Hread.
  destruct (fread (fbuf_space (cs_f st)) (w_stdin w)) as [d' s'] eqn:Hfread.
  injection Hread as -> <-.
  assert (0 < fbuf_space (cs_f st)) as Hspace.
  { rewrite fbuf_space_inv by done. lia. }
  pose proof (fread_failures _ _ _ _ Hspace Hfread) as [Hrf Hrfail].
  apply fread_spec in Hfread as (Hsplit & Hlen & Hwf'); [|lia].
  specialize (Hwf' Hwf).
  assert (Z.of_nat (length (in_rest (w_stdin w)))
          = Z.of_nat (length d) + Z.of_nat (length (in_rest s'))) as Hl.
  { rewrite Hsplit, length_app. lia. }
  apply bind_Ret_inv in Hk as (f1 & w2 & [Hst ->]%lift_Ret_inv & Hk).
  rewrite bind_feof in Hk. simpl in Hk.
  destruct (Z.eqb_spec (Z.of_nat (length d)) 0) as [Hd0 | Hd0]; simpl in Hk.
  - assert (d = []) as -> by (destruct d; [done | simpl in Hd0; lia]).
    simpl in *.
    destruct (in_eof s') eqn:Heof; simpl in Hk.
    + apply bind_Ret_inv in Hk as (f2 & w4 & [Hfeed ->]%lift_Ret_inv & Hk).
      apply bind_Ret_inv in Hk as (res & w5 & Hdrain & Hk).
      destruct (fbuf_fill_spec ndebug _ [] _ _ Hf ltac:(simpl; lia) Hst Hfeed)
        as (Hf2 & Hb2 & Hheld2).
      rewrite app_nil_r in Hheld2.
      assert (copy_inv fd out0 inp
                (CopyState (wrap_size_t (cs_read_bytes st + 0)) (cs_written_bytes st)
                           (cs_err st) true f2) (set_stdin s' w)) as Hinv1.
      { unfold copy_inv; simpl. rewrite Hheld2, <- Hsplit.
        split_and!; [done | done | done | |done].
        intros _. rewrite Hsplit. by apply Hwf'. }
      destruct res as [v | st2].
      * apply mret_inv in Hk as [<- ->].
        by apply (copy_drain_inv ndebug fd out0 inp _ _ _ _ _ Hinv1 ltac:(done) Hdrain).
      * pose proof (copy_drain_inv ndebug fd out0 inp _ _ _ _ _ Hinv1 ltac:(done) Hdrain)
          as Hinv2. simpl in Hinv2.
        eapply IH; [exact Hinv2 | | exact Hk].
        eapply copy_drain_budget; [| |exact Hdrain]; [done|].
        unfold budget_ok; simpl. rewrite Hb2, <- Hsplit.
        split_and!; [done | lia | done |].
        destruct Hfull as [Hno | Hroom']; [by left | right; simpl in *; lia].
    + apply bind_Ret_inv in Hk as (u & w4 & Hpr & Hk).
      unfold eprint in Hpr. injection Hpr as _ <-.
      eapply IH; [| |exact Hk].
      * apply (copy_inv_err_incr fd out0 inp st w); [done | done | done | done].
      * specialize (Hrfail eq_refl eq_refl).
        unfold budget_ok. rewrite cs_err_incr_small by lia. simpl.
        rewrite <- Hsplit.
        split_and!; [lia | lia | done |].
        destruct Hfull as [Hno | Hroom']; [by left | by right].
  - apply bind_Ret_inv in Hk as (f2 & w4 & [Hfeed ->]%lift_Ret_inv & Hk).
    apply bind_Ret_inv in Hk as (res & w5 & Hdrain & Hk).
    destruct (fbuf_fill_spec ndebug _ d _ _ Hf Hlen Hst Hfeed) as (Hf2 & Hb2 & Hheld2).
    set (st1 := CopyState _ _ _ _ f2) in Hdrain.
    assert (copy_inv fd out0 inp st1 (set_stdin s' w)) as Hinv1.
    { unfold copy_inv, st1; simpl.
      rewrite Hheld2, <- (assoc_L (++) _ d), <- Hsplit.
      split_and!; [done | done | done | | done].
      intros Hdone. rewrite Hrest in Hsplit by done.
      symmetry in Hsplit. by apply app_eq_nil in Hsplit as [_ ?]. }
    assert (fbuf_data (cs_f st1) = 0 → cs_done_reading st1 = true) as Hdz.
    { unfold st1, fbuf_data; simpl. lia. }
    destruct res as [v | st2].
    + apply mret_inv in Hk as [<- ->].
      by apply (copy_drain_inv ndebug fd out0 inp _ _ _ _ _ Hinv1 Hdz Hdrain).
    + pose proof (copy_drain_inv ndebug fd out0 inp _ _ _ _ _ Hinv1 Hdz Hdrain) as Hinv2.
      simpl in Hinv2.
      eapply IH; [exact Hinv2 | | exact Hk].
      eapply copy_drain_budget; [| |exact Hdrain]; [done|].
      unfold budget_ok, st1; simpl. rewrite Hb2.
      split_and!; [done | lia | done |].
      destruct Hfull as [Hno | Hroom']; [by left | right; lia].
Qed.

(** X5. The error budget, where it works. In an NDEBUG build, when the
    schedule holds at most 10 failures (read errors, failed writes, writes
    of zero bytes) and either no write fails or the input is shorter than
    the buffer, [copy_file_to_fd] returns the length of the input and the
    sink has received the input, every failure having been retried. *)
Theorem copy_file_to_fd_recovers_within_budget
    (fuel : nat) (f0 : fbuf) (out_fd : Z) (w : world) :
  fbuf_wf f0 → stream_wf (w_stdin w) →
  (read_failures (in_sched (w_stdin w)) + write_failures (w_wsched w) ≤ 10)%nat →
  write_failures (w_wsched w) = 0%nat
    ∨ Z.of_nat (length (in_rest (w_stdin w))) < sizeof_buf →
  Z.of_nat (length (in_rest (w_stdin w))) < 2 ^ 63 →
  (2 * length (in_rest (w_stdin w)) + 4109 ≤ fuel)%nat →
  ∃ w', copy_file_to_fd true fuel f0 out_fd w
        = (Ret (Z.of_nat (length (in_rest (w_stdin w)))), w')
        ∧ written_to out_fd w' = written_to out_fd w ++ in_rest (w_stdin w).
Proof.
  intros Hf Hwf Hfails Hfull Hlen Hfuel.
  assert (copy_returns true (copy_file_to_fd true fuel f0 out_fd w).1)
    as [[r Hr] | [? _]]; [|clear Hfuel|done].
  { unfold copy_file_to_fd.
    apply copy_loop_total; simpl; [by apply fbuf_init_inv | lia | lia]. }
  destruct (copy_file_to_fd true fuel f0 out_fd w) as [o w'] eqn:Hrun.
  simpl in Hr. subst o. exists w'.
  unfold copy_file_to_fd in Hrun.
  eapply copy_loop_within_budget in Hrun; [|by apply copy_inv_init|].
  - destruct Hrun as (Hout & _ & ->). split; [|done]. f_equal. f_equal.
    unfold to_ssize_t. rewrite Z.mod_small by lia.
    destruct (Z.ltb_spec (Z.of_nat (length (in_rest (w_stdin w)))) (2 ^ 63)); [done | lia].
  - unfold budget_ok; simpl. unfold sizeof_buf in *.
    split_and!; [done | lia | done |].
    destruct Hfull as [Hno | Hroom]; [by left | right; lia].
Qed.

Lemma copy_file_to_fd_recovers_within_budget_witness :
  ∃ w', copy_file_to_fd true 4200 (Fbuf 3 (replicate 4096 x00)) 5
          (World ∅ ∅ ∅ (InStream [x01; x02] false [ReadErr 0; ReadErr 1; ReadErr 0])
                 [WriteShort 0; WriteFail EIO; WriteShort 1] ∅ [] [] [])
        = (Ret 2, w')
        ∧ written_to 5 w' = [x01; x02].
Proof.
  destruct (copy_file_to_fd_recovers_within_budget 4200 (Fbuf 3 (replicate 4096 x00)) 5
              (World ∅ ∅ ∅ (InStream [x01; x02] false [ReadErr 0; ReadErr 1; ReadErr 0])
                     [WriteShort 0; WriteFail EIO; WriteShort 1] ∅ [] [] []))
    as (w' & Hrun & Hout).
  - vm_compute; reflexivity.
  - intros Heof; vm_compute in Heof; discriminate.
  - vm_compute. lia.
  - right. vm_compute; reflexivity.
  - vm_compute; reflexivity.
  - simpl; lia.
  - exists w'. split; [exact Hrun|]. rewrite Hout. vm_compute; reflexivity.
Defined.

(** *** What reaches the sink *)

Lemma copy_split_err_incr fd out0 inp st w w' :
  copy_split fd out0 inp st w →
  w_stdin w' = w_stdin w → w_out w' = w_out w →
  copy_split fd out0 inp (cs_err_incr st) w'.
Proof.
  intros (Hf & p & Hout & Hinp) Hin Hw. split; [done|]. exists p.
  unfold written_to in *. simpl. by rewrite Hw, Hin.
Qed.

Lemma copy_split_wrote fd out0 inp st w :
  copy_split fd out0 inp st w → wrote_prefix fd out0 inp w.
Proof. intros (_ & p & Hout & Hinp). by exists p, (fbuf_held (cs_f st) ++ in_rest (w_stdin w)). Qed.

Lemma copy_drain_split ndebug fd out0 inp fuel : ∀ st w,
  copy_split fd out0 inp st w →
  match copy_drain ndebug fuel fd st w with
  | (Ret (inr st'), w') => copy_split fd out0 inp st' w'
  | (_, w') => wrote_prefix fd out0 inp w'
  end.
Proof.
  induction fuel as [|fuel IH]; intros st w Hsplit; simpl copy_drain.
  { by eapply copy_split_wrote. }
  pose proof Hsplit as (Hf & p & Hout & Hinp).
  destruct (Z.eqb_spec (fbuf_data (cs_f st)) 0) as [Hz | Hnz].
  { by eapply copy_split_wrote. }
  rewrite buf_load_held, bind_lift_Ret by done.
  destruct (sys_write fd (fbuf_held (cs_f st)) w) as [[r| | | |] w1] eqn:Hwrite;
    try (unfold sys_write in Hwrite; repeat case_match; discriminate).
  rewrite (bind_Ret_step _ _ _ _ _ Hwrite).
  apply sys_write_spec in Hwrite as [Hin Hr].
  destruct r as [wl | e].
  - destruct Hr as [Hwl Hout1]. rewrite fbuf_held_length in Hwl by done.
    destruct (Z.eqb_spec wl 0) as [-> | Hwl0].
    + simpl. split; [done|]. exists p. unfold written_to in *. simpl.
      rewrite Hout1, Hin. simpl. by rewrite app_nil_r.
    + destruct (fbuf_eat_spec ndebug (cs_f st) wl Hf) as (f' & Heat & Hf' & _ & Hheld');
        [unfold fbuf_data; lia|].
      rewrite Heat, bind_lift_Ret.
      set (st' := CopyState _ _ _ _ f').
      assert (copy_split fd out0 inp st' w1) as Hsplit'.
      { split; [done|]. exists (p ++ take (Z.to_nat wl) (fbuf_held (cs_f st))).
        simpl. rewrite Hout1, Hout, Hheld', Hin. split; [by rewrite (assoc_L (++))|].
        rewrite Hinp at 1. rewrite <- !(assoc_L (++)). f_equal.
        by rewrite (assoc_L (++) (take _ _)), take_drop. }
      destruct ((fbuf_space f' =? 0) || cs_done_reading st); [by apply IH | done].
  - simpl. split; [done|]. exists p. unfold written_to in *. simpl. by rewrite Hr, Hin.
Qed.

Lemma copy_loop_split ndebug fd out0 inp fuel : ∀ st w,
  copy_split fd out0 inp st w →
  wrote_prefix fd out0 inp (copy_loop ndebug fuel fd st w).2.
Proof.
  induction fuel as [|fuel IH]; intros st w Hsplit; simpl copy_loop.
  { by eapply copy_split_wrote. }
  pose proof Hsplit as (Hf & p & Hout & Hinp).
  pose proof Hf as [_ Hb].
  destruct (10 <? cs_err st).
  { simpl. exists p, (fbuf_held (cs_f st) ++ in_rest (w_stdin w)). done. }
  destruct (fread (fbuf_space (cs_f st)) (w_stdin w)) as [d s'] eqn:Hfread.
  assert (sys_fread (fbuf_space (cs_f st)) w = (Ret d, set_stdin s' w)) as Hread.
  { unfold sys_fread. by rewrite Hfread. }
  rewrite (bind_Ret_step _ _ _ _ _ Hread).
  apply fread_spec in Hfread as (Hrest & Hlen & _);
    [|rewrite fbuf_space_inv by done; lia].
  destruct (buf_store_tail_ok _ d Hf Hlen) as [f1 Hst].
  rewrite Hst, bind_lift_Ret, bind_feof.
  destruct ((Z.of_nat (length d) =? 0) && negb (in_eof (w_stdin (set_stdin s' w))))
    eqn:Hfail.
  - rewrite (bind_Ret_step (eprint _) _ _ _ () eq_refl).
    apply IH. apply andb_true_iff in Hfail as [Hd0%Z.eqb_eq _].
    assert (d = []) as -> by (destruct d; [done | simpl in Hd0; lia]).
    split; [done|]. exists p. simpl in *. by rewrite <- Hrest.
  - destruct (fbuf_feed ndebug f1 (Z.of_nat (length d))) as [f2| | | |] eqn:Hfeed;
      try (simpl; exists p, (fbuf_held (cs_f st) ++ in_rest (w_stdin w)); done).
    rewrite bind_lift_Ret.
    destruct (fbuf_fill_spec ndebug _ d _ _ Hf Hlen Hst Hfeed) as (Hf2 & _ & Hheld2).
    set (st1 := CopyState _ _ _ _ f2).
    assert (copy_split fd out0 inp st1 (set_stdin s' w)) as Hsplit1.
    { split; [done|]. exists p. simpl. split; [done|].
      by rewrite Hheld2, <- (assoc_L (++) _ d), <- Hrest. }
    pose proof (copy_drain_split ndebug fd out0 inp fuel st1 _ Hsplit1) as Hdrain.
    unfold mbind at 1, M_bind at 1.
    destruct (copy_drain ndebug fuel fd st1 (set_stdin s' w)) as [[[v|st2]| | | |] w2];
      try done.
    by apply IH.
Qed.

(** X6. Whatever happens (success, the budget spent, an abort, the loop
    bound of the model), what the output descriptor has accepted during the
    copy is a prefix of the input, in order: the copier never writes a byte
    it did not read, never repeats one and never skips one. *)
Theorem copy_file_to_fd_writes_a_prefix
    (ndebug : bool) (fuel : nat) (f0 : fbuf) (out_fd : Z) (w : world) :
  fbuf_wf f0 →
  ∃ p q, in_rest (w_stdin w) = p ++ q
         ∧ written_to out_fd (copy_file_to_fd ndebug fuel f0 out_fd w).2
           = written_to out_fd w ++ p.
Proof.
  intros Hf. apply (copy_loop_split ndebug out_fd).
  split; [by apply fbuf_init_inv|]. exists []. simpl. by rewrite app_nil_r.
Qed.

Lemma copy_file_to_fd_writes_a_prefix_witness :
  ∃ p q, [x01; x02; x03] = p ++ q
         ∧ written_to 5
             (copy_file_to_fd true 50 (Fbuf 3 (replicate 4096 x00)) 5
                (World ∅ ∅ ∅ (InStream [x01; x02; x03] false [])
                       (WriteShort 2 :: replicate 11 (WriteFail EIO)) ∅ [] [] [])).2
           = p.
Proof.
  destruct (copy_file_to_fd_writes_a_prefix true 50 (Fbuf 3 (replicate 4096 x00)) 5
              (World ∅ ∅ ∅ (InStream [x01; x02; x03] false [])
                     (WriteShort 2 :: replicate 11 (WriteFail EIO)) ∅ [] [] []))
    as (p & q & Hsplit & Hout).
  - vm_compute; reflexivity.
  - exists p, q. split; [exact Hsplit | exact Hout].
Defined.

Lemma copy_loop_assert_build_out fuel : ∀ fd st w,
  fbuf_inv (cs_f st) → bytes_in_buf (cs_f st) = 0 →
  w_out (copy_loop false fuel fd st w).2 = w_out w.
Proof.
  induction fuel as [|fuel IH]; intros fd st w Hf Hz; [done|].
  simpl copy_loop. destruct (10 <? cs_err st); [done|].
  destruct (fread (fbuf_space (cs_f st)) (w_stdin w)) as [d s'] eqn:Hfread.
  assert (sys_fread (fbuf_space (cs_f st)) w = (Ret d, set_stdin s' w)) as Hread.
  { unfold sys_fread. by rewrite Hfread. }
  rewrite (bind_Ret_step _ _ _ _ _ Hread).
  apply fread_spec in Hfread as (_ & Hlen & _);
    [|rewrite fbuf_space_inv by done; destruct Hf as [_ ?]; lia].
  destruct (buf_store_tail_ok _ d Hf Hlen) as [f1 Hst].
  rewrite fbuf_space_inv, Hz in Hlen by done. unfold sizeof_buf in Hlen.
  rewrite Hst, bind_lift_Ret, bind_feof.
  destruct ((Z.of_nat (length d) =? 0) && negb (in_eof (w_stdin (set_stdin s' w)))).
  - rewrite (bind_Ret_step (eprint _) _ _ _ () eq_refl).
    by rewrite IH.
  - rewrite fbuf_feed_assert_no_wrap; [done | | lia |].
    + apply buf_store_Ret in Hst as (_ & _ & ->). simpl. lia.
    + apply buf_store_Ret in Hst as (_ & _ & ->). simpl. lia.
Qed.

(** X7. With assertions compiled in, no copy succeeds and no byte reaches
    any descriptor: given a loop budget of 12, [copy_file_to_fd] returns
    [-1] (after eleven read failures in a row) or dies in the assertion of
    [fbuf_feed] at the first read that delivers data or end of file. *)
Theorem copy_file_to_fd_with_assertions_never_copies
    (fuel : nat) (f0 : fbuf) (out_fd : Z) (w : world) :
  fbuf_wf f0 → (12 ≤ fuel)%nat →
  copy_failed (copy_file_to_fd false fuel f0 out_fd w).1
  ∧ w_out (copy_file_to_fd false fuel f0 out_fd w).2 = w_out w.
Proof.
  intros Hf Hfuel. split.
  - by apply copy_file_to_fd_assert_build_never_succeeds.
  - apply copy_loop_assert_build_out; [by apply fbuf_init_inv | done].
Qed.

Lemma copy_file_to_fd_with_assertions_never_copies_witness :
  copy_failed (copy_file_to_fd false 12 (Fbuf 3 (replicate 4096 x00)) 5
                 (World ∅ ∅ ∅ (InStream [x01] false [ReadErr 0]) [] ∅ [] [] [])).1.
Proof.
  apply (copy_file_to_fd_with_assertions_never_copies 12 (Fbuf 3 (replicate 4096 x00)) 5).
  - vm_compute; reflexivity.
  - lia.
Defined.
(** ** Numeric arguments *)

Lemma pretty_N_of_pos n :
  0 < n → pretty n = pretty_N_go (Z.to_N n) "".
Proof.
  intros Hn. destruct n as [|p|p]; [lia | | lia].
  unfold pretty, pretty_Z, pretty, pretty_positive, pretty, pretty_N. simpl.
  by destruct (decide (N.pos p = 0%N)).
Qed.

(** What [strtoumax] makes of a positive decimal numeral followed by [s],
    when [s] does not go on with a decimal digit. *)
Lemma strtoumax_decimal_then (n : Z) (s : string) :
  0 < n → starts_with_digit 10 s = false →
  strtoumax (pretty n +:+ s)
  = if UINTMAX_MAX <? n then StrtoResult UINTMAX_MAX s true
    else StrtoResult n s false.
Proof.
  intros Hn Hs. rewrite pretty_N_of_pos by done.
  assert (∀ x t, pretty_N_go x t +:+ s = pretty_N_go x (t +:+ s)) as Happ.
  { intros x. induction (N.lt_wf_0 x) as [x _ IH]; intros t.
    destruct (decide (x = 0%N)) as [-> | Hx]; [done|].
    rewrite (pretty_N_go_step x t), (pretty_N_go_step x (t +:+ s)) by lia.
    by rewrite IH by (apply N.div_lt; lia). }
  rewrite Happ. change ("" +:+ s) with s.
  pose proof (scan_digits_pretty_go (Z.to_N n) s) as Hscan.
  destruct (pretty_N_go_head (Z.to_N n) s ltac:(lia)) as (d & rest & Hd & Hhead).
  destruct (pretty_N_char_digit d ltac:(lia)) as (Hval & Hsp & Hminus & Hplus & Hzero).
  unfold strtoumax. rewrite Hhead in *. simpl skip_spaces. rewrite Hsp.
  rewrite Hminus, Hplus. unfold detect_base.
  destruct (pretty_N_char d =? "0")%char eqn:Hz; [specialize (Hzero eq_refl); lia|].
  unfold starts_with_digit at 1, is_digit_of. rewrite Hval.
  destruct (Z.ltb_spec (Z.of_N d) 10); [|lia].
  rewrite Hscan, Z2N.id by lia.
  assert (scan_digits 10 n s = (n, s)) as ->.
  { destruct s as [|c s]; [done|]. simpl in *. unfold is_digit_of in Hs.
    destruct (digit_value c); [by rewrite Hs | done]. }
  done.
Qed.

Lemma strtoumax_minus_decimal (n : Z) :
  0 < n → 
  strtoumax ("-" +:+ pretty n)
  = if UINTMAX_MAX <? n then StrtoResult UINTMAX_MAX "" true
    else StrtoResult ((- n) mod 2 ^ 64) "" false.
Proof.
  intros Hn. rewrite pretty_N_of_pos by done.
  pose proof (scan_digits_pretty_go (Z.to_N n) "") as Hscan.
  destruct (pretty_N_go_head (Z.to_N n) "" ltac:(lia)) as (d & rest & Hd & Hhead).
  destruct (pretty_N_char_digit d ltac:(lia)) as (Hval & Hsp & Hminus & Hplus & Hzero).
  unfold strtoumax. rewrite Hhead in *.
  change ("-" +:+ String (pretty_N_char d) rest)
    with (String "-" (String (pretty_N_char d) rest)).
  change (skip_spaces (String "-" (String (pretty_N_char d) rest)))
    with (String "-" (String (pretty_N_char d) rest)).
  cbv iota beta zeta. rewrite Ascii.eqb_refl. cbv iota beta zeta.
  unfold detect_base.
  destruct (pretty_N_char d =? "0")%char eqn:Hz; [specialize (Hzero eq_refl); lia|].
  unfold starts_with_digit at 1, is_digit_of. rewrite Hval.
  destruct (Z.ltb_spec (Z.of_N d) 10); [|lia].
  rewrite Hscan, Z2N.id by lia. simpl scan_digits.
  done.
Qed.

(** X8. Decimal numerals. For every [n >= 0], [parse_unum] applied to the
    decimal numeral of [n] (what [%ju] prints) returns [n] and leaves the
    world alone when [n <= UINTMAX_MAX]; for a larger [n] it exits with a
    failure status, having touched nothing but the diagnostics. *)
Theorem parse_unum_decimal_numeral (n : Z) (name : string) (w : world) :
  0 <= n →
  (n <= UINTMAX_MAX → parse_unum (Some (pretty n)) name w = (Ret n, w))
  ∧ (UINTMAX_MAX < n →
     ∃ w', parse_unum (Some (pretty n)) name w = (Exit EXIT_FAILURE, w')
           ∧ same_files w w'
           ∧ w_stderr w'
             = w_stderr w
               ++ ["Error: failure parsing " +:+ name +:+ ", '" +:+ pretty n +:+ "': "
                   +:+ "Numerical result out of range" +:+ "\n"]).
Proof.
  intros Hn. split.
  - intros Hle. by apply parse_unum_pretty.
  - intros Hgt.
    assert (strtoumax (pretty n) = StrtoResult UINTMAX_MAX "" true) as Hst.
    { pose proof (strtoumax_decimal_then n "" ltac:(unfold UINTMAX_MAX in *; lia) eq_refl)
        as Hs.
      rewrite string_app_nil_r in Hs. rewrite Hs.
      by destruct (Z.ltb_spec UINTMAX_MAX n); [|lia]. }
    unfold parse_unum. rewrite Hst. simpl.
    eexists. split; [reflexivity|]. by split.
Qed.

Lemma parse_unum_decimal_numeral_witness :
  parse_unum (Some "18446744073709551615") "pid"
    (World ∅ ∅ ∅ (InStream [] false []) [] ∅ [] [] [])
  = (Ret 18446744073709551615, World ∅ ∅ ∅ (InStream [] false []) [] ∅ [] [] [])
  ∧ ∃ w', parse_unum (Some "18446744073709551616") "pid"
            (World ∅ ∅ ∅ (InStream [] false []) [] ∅ [] [] [])
          = (Exit EXIT_FAILURE, w').
Proof.
  split.
  - apply (proj1 (parse_unum_decimal_numeral 18446744073709551615 "pid"
                    (World ∅ ∅ ∅ (InStream [] false []) [] ∅ [] [] [])
                    ltac:(lia))).
    vm_compute; discriminate.
  - destruct (proj2 (parse_unum_decimal_numeral 18446744073709551616 "pid"
                       (World ∅ ∅ ∅ (InStream [] false []) [] ∅ [] [] [])
                       ltac:(lia)) ltac:(vm_compute; reflexivity))
      as (w' & Hrun & _).
    exists w'. exact Hrun.
Defined.

(** X9. Trailing characters. A positive decimal numeral followed by
    anything that does not start with a decimal digit (a letter, a space, a
    sign, a dot) is refused: [parse_unum] exits with a failure status,
    having touched nothing but the diagnostics. *)
Theorem parse_unum_trailing_characters (n : Z) (s name : string) (w : world) :
  0 < n → s ≠ "" → starts_with_digit 10 s = false →
  ∃ w', parse_unum (Some (pretty n +:+ s)) name w = (Exit EXIT_FAILURE, w')
        ∧ same_files w w'.
Proof.
  intros Hn Hs Hnd.
  assert (unum_rejected (pretty n +:+ s) = true) as Hrej.
  { unfold unum_rejected. rewrite strtoumax_decimal_then by done.
    destruct (UINTMAX_MAX <? n); simpl; [done|].
    destruct s; [done | done]. }
  destruct (parse_unum_rejected _ name w Hrej) as [msg Hmsg].
  eexists. split; [exact Hmsg | done].
Qed.

Lemma parse_unum_trailing_characters_witness :
  ∃ w', parse_unum (Some "1234 ") "pid"
          (World ∅ ∅ ∅ (InStream [] false []) [] ∅ [] [] [])
        = (Exit EXIT_FAILURE, w').
Proof.
  destruct (parse_unum_trailing_characters 1234 " " "pid"
              (World ∅ ∅ ∅ (InStream [] false []) [] ∅ [] [] []))
    as (w' & Hrun & _); [lia | done | reflexivity |].
  exists w'. exact Hrun.
Defined.

(** X10. A minus sign is not refused: for [0 < n <= UINTMAX_MAX],
    [parse_unum] applied to ["-"] followed by the decimal numeral of [n]
    returns [2^64 - n] and leaves the world alone. *)
Theorem parse_unum_minus_sign_wraps (n : Z) (name : string) (w : world) :
  0 < n <= UINTMAX_MAX →
  parse_unum (Some ("-" +:+ pretty n)) name w = (Ret (2 ^ 64 - n), w).
Proof.
  intros [Hn Hle].
  assert (strtoumax ("-" +:+ pretty n) = StrtoResult (2 ^ 64 - n) "" false) as Hst.
  { rewrite strtoumax_minus_decimal by done.
    destruct (Z.ltb_spec UINTMAX_MAX n); [lia|]. f_equal.
    unfold UINTMAX_MAX in *. symmetry. apply Z.mod_unique with (q := -1); lia. }
  rewrite parse_unum_accepted.
  - by rewrite Hst.
  - unfold unum_rejected. by rewrite Hst.
Qed.

Lemma parse_unum_minus_sign_wraps_witness :
  parse_unum (Some "-1234") "pid" (World ∅ ∅ ∅ (InStream [] false []) [] ∅ [] [] [])
  = (Ret 18446744073709550382, World ∅ ∅ ∅ (InStream [] false []) [] ∅ [] [] []).
Proof.
  apply (parse_unum_minus_sign_wraps 1234 "pid"
           (World ∅ ∅ ∅ (InStream [] false []) [] ∅ [] [] [])).
  vm_compute. split; [reflexivity | discriminate].
Defined.
(** ** Choosing the action *)

(** X11. [parse_act] looks at no more than the first two characters of the
    action word, and an action is the store action exactly when it starts
    with [st]: so [store], [st] and [store-setup] all select the store
    action. *)
Theorem parse_act_reads_two_characters (action : string) :
  parse_act action = parse_act (String.substring 0 2 action)
  ∧ (parse_act action = ACT_STORE ↔ String.substring 0 2 action = "st").
Proof.
  destruct action as [|c [|c' rest]].
  - by split.
  - split; [done|].
    destruct c as [[] [] [] [] [] [] [] []]; by split.
  - change (String.substring 0 2 (String c (String c' rest)))
      with (String c (String c' (String.substring 0 0 rest))).
    replace (String.substring 0 0 rest) with "" by by destruct rest.
    destruct c as [[] [] [] [] [] [] [] []];
      try (by split);
      destruct c' as [[] [] [] [] [] [] [] []]; by split.
Qed.

(** X12. [main] after the option loop: when the loop counted an error, or
    no action word is left, or the action word is neither a store nor a
    setup action, the program exits with a failure status and has touched
    nothing but the diagnostics. *)
Theorem main_refuses_without_touching_files
    ndebug PATH_MAX optind fuel f0 (act_setup : string → M Z)
    (prgmname dir : string) (err : Z) (argv : list string) (w : world) :
  0 <= optind <= Z.of_nat (length argv) → 0 <= err →
  (err ≠ 0 ∨ optind = Z.of_nat (length argv)
   ∨ ∃ action, argv !! Z.to_nat optind = Some action
               ∧ parse_act action ≠ ACT_STORE ∧ parse_act action ≠ ACT_SETUP) →
  ∃ w', main ndebug PATH_MAX optind fuel f0 act_setup prgmname dir err argv w
        = (Exit EXIT_FAILURE, w')
        ∧ same_files w w'.
Proof.
  intros Hoptind Herr Hcase. unfold main.
  destruct (Z.eqb_spec (Z.of_nat (length argv)) optind) as [Heq | Hne].
  { eexists. split; [reflexivity|]. done. }
  assert (Z.to_nat optind < length argv)%nat as Hlt by lia.
  destruct (lookup_lt_is_Some_2 argv _ Hlt) as [action Haction].
  unfold argv_get.
  replace ((0 <=? optind) && (optind <=? Z.of_nat (length argv))) with true
    by (symmetry; apply andb_true_iff; split; apply Z.leb_le; lia).
  rewrite Haction.
  destruct (decide (parse_act action = ACT_NONE)) as [Hnone | Hsome].
  - unfold mbind, M_bind, lift; simpl. rewrite bool_decide_eq_true_2 by done. simpl.
    destruct (Z.eqb_spec (err + 1) 0); [lia|]. simpl.
    eexists. split; [reflexivity|]. done.
  - unfold mbind, M_bind, lift; simpl. rewrite bool_decide_eq_false_2 by done. simpl.
    destruct (Z.eqb_spec err 0) as [Hz | Hnz]; simpl.
    + destruct Hcase as [? | [? | (a & Ha & Hst & Hse)]]; [done | lia |].
      assert (a = action) as -> by congruence.
      destruct (parse_act action); try done;
        (eexists; split; [reflexivity | done]).
    + eexists. split; [reflexivity|]. done.
Qed.

Lemma main_refuses_without_touching_files_witness :
  ∃ w', main true 4096 1 100%nat (Fbuf 0 (replicate 4096 x00)) (λ _, mret 0)
          "dumpctl" "/var/lib/systemd/coredump" 0 ["dumpctl"; "list"]
          (World ∅ ∅ ∅ (InStream [] false []) [] ∅ [] [] [])
        = (Exit EXIT_FAILURE, w').
Proof.
  destruct (main_refuses_without_touching_files true 4096 1 100%nat
              (Fbuf 0 (replicate 4096 x00)) (λ _, mret 0)
              "dumpctl" "/var/lib/systemd/coredump" 0 ["dumpctl"; "list"]
              (World ∅ ∅ ∅ (InStream [] false []) [] ∅ [] [] []))
    as (w' & Hrun & _).
  - simpl. lia.
  - lia.
  - right. right. exists "list". split; [reflexivity|]. split; discriminate.
  - exists w'. exact Hrun.
Defined.
(** ** The store action as a whole *)

Lemma nothing_copied_refl w : nothing_copied w w.
Proof. by unfold nothing_copied. Qed.

Lemma nothing_copied_trans w1 w2 w3 :
  nothing_copied w1 w2 → nothing_copied w2 w3 → nothing_copied w1 w3.
Proof.
  unfold nothing_copied. intros (?&?&?&?&?) (?&?&?&?&?).
  split_and!; [by etrans | congruence..].
Qed.

Lemma same_files_nothing_copied w w' : same_files w w' → nothing_copied w w'.
Proof.
  unfold same_files, nothing_copied. intros (Hfs&?&?&?&?&?&?).
  split_and!; [by rewrite Hfs | done..].
Qed.

Lemma copies_nothing_bind {A B} (m : M A) (k : A → M B) :
  copies_nothing m → (∀ a, copies_nothing (k a)) → copies_nothing (m ≫= k).
Proof.
  intros Hm Hk w. unfold mbind, M_bind. destruct (Hm w) as [Hw Ho].
  destruct (m w) as [[a| | | |] w1]; simpl in *.
  - destruct (Hk a w1) as [Hw1 Ho1]. split; [|done].
    by eapply nothing_copied_trans.
  - split; [done|]. destruct Ho as [[? [=]] | [[= ->] | [=]]]. by right; left.
  - destruct Ho as [[? [=]] | [[=] | [=]]].
  - split; [done|]. by right; right.
  - destruct Ho as [[? [=]] | [[=] | [=]]].
Qed.

Lemma copies_nothing_mret {A} (a : A) : copies_nothing (mret a : M A).
Proof. intros w. split; [apply nothing_copied_refl | left; by exists a]. Qed.

Lemma copies_nothing_undef {A} : copies_nothing (lift Undef : M A).
Proof. intros w. split; [apply nothing_copied_refl | by right; right]. Qed.

Lemma copies_nothing_argv_get argv i : copies_nothing (lift (argv_get argv i)).
Proof.
  intros w. split; [apply nothing_copied_refl|]. unfold lift, argv_get. simpl.
  destruct ((0 <=? i) && (i <=? Z.of_nat (length argv))); [left; by eexists | by right; right].
Qed.

Lemma copies_nothing_exit {A} : copies_nothing (c_exit EXIT_FAILURE : M A).
Proof. intros w. split; [apply nothing_copied_refl | by right; left]. Qed.

Lemma copies_nothing_eprint msg : copies_nothing (eprint msg).
Proof.
  intros w. split; [|left; by exists ()].
  apply same_files_nothing_copied, quiet_eprint.
Qed.

Lemma copies_nothing_pr_err msg : copies_nothing (pr_err msg).
Proof.
  intros w. split; [|left; by exists ()].
  apply same_files_nothing_copied, quiet_pr_err.
Qed.

Lemma copies_nothing_parse_unum n name : copies_nothing (parse_unum n name).
Proof.
  unfold parse_unum. destruct n as [n|]; [|apply copies_nothing_undef].
  repeat case_match;
    repeat first [apply copies_nothing_bind; [|intros ?] | apply copies_nothing_eprint
                 | apply copies_nothing_exit | apply copies_nothing_mret].
Qed.

Lemma mkdir_frame p mode w r w1 :
  mkdir p mode w = (Ret r, w1) →
  w_out w1 = w_out w ∧ w_stdin w1 = w_stdin w ∧ w_wsched w1 = w_wsched w
  ∧ w_fds w1 = w_fds w.
Proof. unfold mkdir. repeat case_match; by intros [= <- <-]. Qed.

Lemma copies_nothing_mkdir p mode : copies_nothing (mkdir p mode).
Proof.
  intros w. destruct (mkdir_Ret p mode w) as (r & w1 & Hmk). rewrite Hmk. simpl.
  split; [|left; by exists r].
  destruct (mkdir_settles _ _ _ _ _ Hmk) as (Hsub & _ & Hro & _).
  destruct (mkdir_frame _ _ _ _ _ Hmk) as (? & ? & ? & _).
  by unfold nothing_copied.
Qed.

Lemma copies_nothing_opendir dir : copies_nothing (opendir dir).
Proof.
  intros w. unfold opendir, open_fd. repeat case_match; simplify_eq; simpl;
    (split; [by unfold nothing_copied | left; by eexists]).
Qed.

(** [openat] asked to create and to open a directory at once: it fails,
    and only the record of calls changes. *)
Lemma openat_creat_directory_then {B} d name mode (k : Z + errno → M B) w :
  (openat d name O_CREAT_DIRECTORY_RDWR mode ≫= k) w
  = k (inr (match w_fds w !! d with Some _ => EINVAL | None => EBADF end))
      (set_calls (w_calls w ++ [CallOpenat d name O_CREAT_DIRECTORY_RDWR mode]) w).
Proof.
  unfold mbind, M_bind, openat. simpl.
  by destruct (w_fds w !! d).
Qed.

Create HintDb copies_nothing.
#[export] Hint Resolve copies_nothing_mret copies_nothing_undef copies_nothing_argv_get
  copies_nothing_exit copies_nothing_eprint copies_nothing_pr_err
  copies_nothing_parse_unum copies_nothing_mkdir copies_nothing_opendir : copies_nothing.

Ltac copies_nothing_tac :=
  repeat first [ apply copies_nothing_bind; [|intros ?]
               | progress auto with copies_nothing
               | case_match ].

Lemma copies_nothing_act_store_args optind dir argc argv :
  copies_nothing (act_store_args optind dir argc argv).
Proof. unfold act_store_args. copies_nothing_tac. Qed.

Lemma copies_nothing_mkdir_or_die dir : copies_nothing (mkdir_or_die dir).
Proof. unfold mkdir_or_die. copies_nothing_tac. Qed.

Lemma copies_nothing_store_mkdirs dir : copies_nothing (store_mkdirs dir).
Proof.
  assert (∀ rest pre, copies_nothing (store_mkdirs_from pre rest)) as Hfrom.
  { induction rest as [|c rest IH]; intros pre; simpl.
    - apply copies_nothing_mkdir_or_die.
    - destruct (c =? "/")%char; [|apply IH].
      apply copies_nothing_bind; [apply copies_nothing_mkdir_or_die | intros _; apply IH]. }
  destruct dir; [apply copies_nothing_undef | apply Hfrom].
Qed.

Lemma copies_nothing_act_store_dirs dir : copies_nothing (act_store_dirs dir).
Proof.
  unfold act_store_dirs.
  apply copies_nothing_bind; [apply copies_nothing_store_mkdirs | intros _].
  copies_nothing_tac.
Qed.

Lemma copies_nothing_store_leaf_name PATH_MAX ts pid uid :
  copies_nothing (store_leaf_name PATH_MAX ts pid uid).
Proof. unfold store_leaf_name. copies_nothing_tac. Qed.

(** The third block stops at its first [openat]. *)
Lemma act_store_files_stops ndebug PATH_MAX fuel f0 a d :
  copies_nothing (act_store_files ndebug PATH_MAX fuel f0 a d)
  ∧ never_returns (act_store_files ndebug PATH_MAX fuel f0 a d).
Proof.
  split.
  - unfold act_store_files.
    apply copies_nothing_bind; [apply copies_nothing_store_leaf_name | intros path_buf].
    intros w. rewrite openat_creat_directory_then. simpl.
    split; [by unfold nothing_copied | by right; left].
  - intros w v. unfold act_store_files, mbind at 1, M_bind at 1.
    destruct (store_leaf_name PATH_MAX (sa_ts a) (sa_pid a) (sa_uid a) w)
      as [[path_buf| | | |] w1]; simpl; try done.
    by rewrite openat_creat_directory_then.
Qed.

Lemma act_store_stops ndebug PATH_MAX optind fuel f0 dir argc argv :
  copies_nothing (act_store ndebug PATH_MAX optind fuel f0 dir argc argv)
  ∧ never_returns (act_store ndebug PATH_MAX optind fuel f0 dir argc argv).
Proof.
  split.
  - unfold act_store.
    apply copies_nothing_bind; [apply copies_nothing_act_store_args | intros a].
    apply copies_nothing_bind; [apply copies_nothing_act_store_dirs | intros d].
    apply act_store_files_stops.
  - intros w0 v. unfold act_store, mbind, M_bind.
    destruct (act_store_args optind dir argc argv w0) as [[a| | | |] w1]; simpl; try done.
    destruct (act_store_dirs dir w1) as [[d| | | |] w2]; simpl; try done.
    apply act_store_files_stops.
Qed.

(** X13. The store action never stores: whatever its arguments and the
    state of the system, [act_store] does not return to [main]; it ends the
    process with a failure status (or leaves defined behaviour), no
    descriptor has accepted a byte, standard input has not been read, and
    the tree has at most grown. The leaf is opened with [O_CREAT |
    O_DIRECTORY], which [openat] refuses, before the core file is. *)
Theorem act_store_never_stores
    ndebug PATH_MAX optind fuel f0 (dir : string) (argc : Z) (argv : list string)
    (w : world) :
  let r := act_store ndebug PATH_MAX optind fuel f0 dir argc argv w in
  (r.1 = Exit EXIT_FAILURE ∨ r.1 = Undef)
  ∧ w_out r.2 = w_out w ∧ w_stdin r.2 = w_stdin w ∧ w_fs w ⊆ w_fs r.2.
Proof.
  destruct (act_store_stops ndebug PATH_MAX optind fuel f0 dir argc argv) as [Hc Hn].
  simpl. destruct (Hc w) as [(Hfs & Hout & Hin & _) Ho].
  split_and!; [|done..].
  destruct Ho as [[v Hv] | Ho]; [by destruct (Hn w v) | done].
Qed.

(** X14. [main] after the option loop, with an action word that is not a
    setup action: the process ends with a failure status (or leaves defined
    behaviour); no descriptor has accepted a byte and standard input has
    not been read. Only the setup action can end in success. *)
Theorem main_succeeds_only_by_setup
    ndebug PATH_MAX optind fuel f0 (act_setup : string → M Z)
    (prgmname dir : string) (err : Z) (argv : list string) (w : world) :
  0 <= optind <= Z.of_nat (length argv) → 0 <= err →
  (∀ action, argv !! Z.to_nat optind = Some action → parse_act action ≠ ACT_SETUP) →
  let r := main ndebug PATH_MAX optind fuel f0 act_setup prgmname dir err argv w in
  (r.1 = Exit EXIT_FAILURE ∨ r.1 = Undef)
  ∧ w_out r.2 = w_out w ∧ w_stdin r.2 = w_stdin w.
Proof.
  intros Hoptind Herr Hact. unfold main.
  destruct (Z.eqb_spec (Z.of_nat (length argv)) optind) as [Heq | Hne].
  { simpl. split_and!; [by left | done..]. }
  assert (Z.to_nat optind < length argv)%nat as Hlt by lia.
  destruct (lookup_lt_is_Some_2 argv _ Hlt) as [action Haction].
  specialize (Hact action Haction).
  unfold argv_get.
  replace ((0 <=? optind) && (optind <=? Z.of_nat (length argv))) with true
    by (symmetry; apply andb_true_iff; split; apply Z.leb_le; lia).
  rewrite Haction.
  destruct (decide (parse_act action = ACT_NONE)) as [Hnone | Hsome].
  - unfold mbind, M_bind, lift; simpl. rewrite bool_decide_eq_true_2 by done. simpl.
    destruct (Z.eqb_spec (err + 1) 0); [lia|]. simpl.
    split_and!; [by left | done..].
  - unfold mbind, M_bind, lift; simpl. rewrite bool_decide_eq_false_2 by done. simpl.
    destruct (Z.eqb_spec err 0) as [Hz | Hnz]; simpl.
    2: { split_and!; [by left | done..]. }
    destruct (parse_act action) eqn:Hp; try done;
      try (split_and!; [by left | done..]).
    set (dropped := drop _ argv).
    destruct (act_store_stops ndebug PATH_MAX optind fuel f0 dir
                (Z.of_nat (length argv) - (optind + 1)) dropped) as [Hc Hn].
    destruct (Hc w) as [(_ & Hout & Hin & _) Ho].
    split_and!; [|done..].
    destruct Ho as [[v Hv] | Ho]; [by destruct (Hn w v) | done].
Qed.

Lemma main_succeeds_only_by_setup_witness :
  let r := main true 4096 1 100%nat (Fbuf 0 (replicate 4096 x00)) (λ _, mret 0)
             "dumpctl" "/var/lib/systemd/coredump" 0
             ["dumpctl"; "store"; "1234"; "0"; "0"; "11"; "1700000000"; "0"; "myprog";
              "!usr!bin!myprog"]
             (World {[ [] := Dir ]} ∅ ∅ (InStream [x01; x02] false []) [] ∅ [] [] []) in
  (r.1 = Exit EXIT_FAILURE ∨ r.1 = Undef)
  ∧ w_out r.2 = ∅ ∧ in_rest (w_stdin r.2) = [x01; x02].
Proof.
  destruct (main_succeeds_only_by_setup true 4096 1 100%nat
              (Fbuf 0 (replicate 4096 x00)) (λ _, mret 0)
              "dumpctl" "/var/lib/systemd/coredump" 0
              ["dumpctl"; "store"; "1234"; "0"; "0"; "11"; "1700000000"; "0"; "myprog";
               "!usr!bin!myprog"]
              (World {[ [] := Dir ]} ∅ ∅ (InStream [x01; x02] false []) [] ∅ [] [] []))
    as (Ho & Hout & Hin).
  - simpl. lia.
  - lia.
  - intros action [= <-]. discriminate.
  - cbv zeta. split_and!; [exact Ho | exact Hout | exact (f_equal in_rest Hin)].
Defined.
(** ** The directory loop, whatever its outcome *)



(** ** The argument block, when it succeeds *)

Lemma parse_unum_Ret a name w v w' :
  parse_unum a name w = (Ret v, w') →
  ∃ tok, a = Some tok ∧ unum_rejected tok = false
         ∧ v = st_value (strtoumax tok) ∧ w' = w.
Proof.
  destruct a as [tok|]; [|done]. intros Hrun. exists tok.
  destruct (unum_rejected tok) eqn:Hrej.
  - destruct (parse_unum_rejected tok name w Hrej) as [msg Hmsg]. congruence.
  - rewrite parse_unum_accepted in Hrun by done. by injection Hrun as <- <-.
Qed.

Lemma store_field_Ret {B} argv i name (k : Z → M B) w b w' :
  (a ← lift (argv_get argv i); v ← parse_unum a name; k v) w = (Ret b, w') →
  ∃ tok, argv_get argv i = Ret (Some tok) ∧ unum_rejected tok = false
         ∧ k (st_value (strtoumax tok)) w = (Ret b, w').
Proof.
  intros (a & w1 & [Ha ->]%lift_Ret_inv & Hrest)%bind_Ret_inv.
  apply bind_Ret_inv in Hrest as (v & w2 & Hv & Hk).
  apply parse_unum_Ret in Hv as (tok & -> & Hrej & -> & ->).
  by exists tok.
Qed.

Lemma argv_get_Ret argv i x :
  argv_get argv i = Ret x → 0 <= i <= Z.of_nat (length argv) ∧ x = argv !! Z.to_nat i.
Proof.
  unfold argv_get.
  destruct (Z.leb_spec 0 i); [|done].
  destruct (Z.leb_spec i (Z.of_nat (length argv))); [|done].
  simpl. by intros [= <-].
Qed.

(** What a successful argument block has established. *)
Lemma act_store_args_Ret optind dir argc argv w a w' :
  act_store_args optind dir argc argv w = (Ret a, w') →
  w' = w
  ∧ (to_int (argc - optind) = 7 ∨ to_int (argc - optind) = 8)
  ∧ str_at dir 0 = "/"%char
  ∧ (∃ tok, argv_get argv (optind + 1) = Ret (Some tok)
            ∧ unum_rejected tok = false ∧ sa_pid a = st_value (strtoumax tok))
  ∧ (∃ tok, argv_get argv (optind + 2) = Ret (Some tok)
            ∧ unum_rejected tok = false ∧ sa_uid a = st_value (strtoumax tok))
  ∧ (∃ tok, argv_get argv (optind + 3) = Ret (Some tok)
            ∧ unum_rejected tok = false ∧ sa_gid a = st_value (strtoumax tok))
  ∧ (∃ tok, argv_get argv (optind + 4) = Ret (Some tok)
            ∧ unum_rejected tok = false ∧ sa_sig a = st_value (strtoumax tok))
  ∧ (∃ tok, argv_get argv (optind + 5) = Ret (Some tok)
            ∧ unum_rejected tok = false ∧ sa_ts a = st_value (strtoumax tok))
  ∧ argv_get argv (optind + 7) = Ret (sa_comm a)
  ∧ argv_get argv (optind + 8) = Ret (sa_path a).
Proof.
  unfold act_store_args.
  destruct (Z.eqb_spec (to_int (argc - optind)) 7) as [H7 | H7];
    destruct (Z.eqb_spec (to_int (argc - optind)) 8) as [H8 | H8];
    destruct (Ascii.eqb_spec (str_at dir 0) "/") as [Hd | Hd];
    simpl; try done.
  all: unfold mbind at 1, M_bind at 1, mret at 1, M_ret at 1;
    unfold mbind at 1, M_bind at 1, mret at 1, M_ret at 1;
    change (negb (0 =? 0)) with false; cbv iota.
  all: intros (t1 & Ht1 & Hr1 & Hrun)%store_field_Ret;
    apply store_field_Ret in Hrun as (t2 & Ht2 & Hr2 & Hrun);
    apply store_field_Ret in Hrun as (t3 & Ht3 & Hr3 & Hrun);
    apply store_field_Ret in Hrun as (t4 & Ht4 & Hr4 & Hrun);
    apply store_field_Ret in Hrun as (t5 & Ht5 & Hr5 & Hrun);
    apply bind_Ret_inv in Hrun as (comm & w1 & [Hcomm ->]%lift_Ret_inv & Hrun);
    apply bind_Ret_inv in Hrun as (path & w2 & [Hpath ->]%lift_Ret_inv & Hrun);
    apply mret_inv in Hrun as [<- ->]; simpl;
    split_and!; eauto.
Qed.

Ltac store_field_run H argv optind j :=
  let t := fresh "t" in
  let Ht := fresh "Ht" in
  let Hr := fresh "Hr" in
  destruct (lookup_lt_is_Some_2 argv (Z.to_nat (optind + j))) as [t Ht]; [lia|];
  rewrite (store_field_step argv (optind + j) t) in H by (lia || done);
  destruct (unum_rejected t) eqn:Hr;
  [left;
   match type of H with
   | _ = (parse_unum _ ?name ≫= ?k) ?w =>
       let w' := fresh "w" in
       let Hw := fresh "Hw" in
       destruct (store_field_rejected t name k w Hr) as [w' Hw];
       rewrite Hw in H; by rewrite H
   end|].

(** The block run forward: past the two checks and with five tokens in
    place, it either exits on a token it refuses or comes to the two
    pointers it only loads. *)
Lemma act_store_args_run optind dir argc argv w :
  0 <= optind → optind + 5 < Z.of_nat (length argv) →
  (act_store_args optind dir argc argv w).1 = Exit EXIT_FAILURE
  ∨ ∃ pid uid gid sig ts,
      act_store_args optind dir argc argv w
      = (comm ← lift (argv_get argv (optind + 7));
         path ← lift (argv_get argv (optind + 8));
         mret (StoreArgs pid uid gid sig ts comm path)) w.
Proof.
  intros Hopt Hlen.
  remember (act_store_args optind dir argc argv w) as r eqn:Hrun.
  unfold act_store_args in Hrun.
  destruct (negb (to_int (argc - optind) =? 7) && negb (to_int (argc - optind) =? 8));
    destruct (negb (str_at dir 0 =? "/")%char);
    try (left; by rewrite Hrun).
  unfold mbind at 1, M_bind at 1, mret at 1, M_ret at 1 in Hrun.
  unfold mbind at 1, M_bind at 1, mret at 1, M_ret at 1 in Hrun.
  change (negb (0 =? 0)) with false in Hrun. cbv iota in Hrun.
  store_field_run Hrun argv optind 1. store_field_run Hrun argv optind 2.
  store_field_run Hrun argv optind 3. store_field_run Hrun argv optind 4.
  store_field_run Hrun argv optind 5.
  right. by eexists _, _, _, _, _.
Qed.

(** X16. The argument block as [main] calls it. [main] hands [act_store]
    the words after the action and leaves [optind] as it is, and
    [act_store] counts and indexes them from [optind] again. So, for a
    command line of [n < 2^31] words and [1 <= optind <= n]:
    - with [n] other than [2 * optind + 8] and [2 * optind + 9] the block
      exits with a failure status;
    - with [n = 2 * optind + 9] it exits with a failure status or returns,
      having printed nothing; the process id is then read from word
      [2 * optind + 2] of the command line, the command name is the last
      word, and the path is the null pointer that ends [argv];
    - with [n = 2 * optind + 8] it exits with a failure status or goes on to
      load [argv[argc + 1]], the word after that null pointer, as the path:
      a read outside the array, which the model, with ISO C, leaves
      undefined (a process finds its environment there and carries on).
    An exit has touched nothing but the diagnostics. *)
Theorem act_store_args_as_called_by_main
    optind (dir : string) (argv : list string) (w : world) :
  1 <= optind <= Z.of_nat (length argv) → Z.of_nat (length argv) < 2 ^ 31 →
  let n := Z.of_nat (length argv) in
  let r := act_store_args optind dir (n - (optind + 1))
             (drop (Z.to_nat (optind + 1)) argv) w in
  same_files w r.2
  ∧ (n ≠ 2 * optind + 8 → n ≠ 2 * optind + 9 → r.1 = Exit EXIT_FAILURE)
  ∧ (n = 2 * optind + 9 →
     r.1 = Exit EXIT_FAILURE
     ∨ ∃ a tok, r = (Ret a, w)
         ∧ argv !! Z.to_nat (2 * optind + 2) = Some tok
         ∧ sa_pid a = st_value (strtoumax tok)
         ∧ sa_comm a = last argv
         ∧ sa_path a = None)
  ∧ (n = 2 * optind + 8 → r.1 = Exit EXIT_FAILURE ∨ r = (Undef, w)).
Proof.
  intros Hopt Hlen n r.
  assert (to_int (n - (optind + 1) - optind) = n - 2 * optind - 1) as Hct.
  { unfold to_int, n.
    destruct (Z.le_gt_cases 0 (Z.of_nat (length argv) - (optind + 1) - optind)).
    - rewrite Z.mod_small by lia.
      destruct (Z.ltb_spec (Z.of_nat (length argv) - (optind + 1) - optind) (2 ^ 31)); lia.
    - replace ((Z.of_nat (length argv) - (optind + 1) - optind) mod 2 ^ 32)
        with (Z.of_nat (length argv) - (optind + 1) - optind + 2 ^ 32)
        by (apply Z.mod_unique with (q := -1); lia).
      destruct (Z.ltb_spec (Z.of_nat (length argv) - (optind + 1) - optind + 2 ^ 32)
                  (2 ^ 31)); lia. }
  split_and!.
  - apply quiet_act_store_args.
  - intros H8 H9. unfold r, act_store_args. rewrite Hct.
    destruct (Z.eqb_spec (n - 2 * optind - 1) 7); [lia|].
    destruct (Z.eqb_spec (n - 2 * optind - 1) 8); [lia|]. simpl.
    by destruct (negb (str_at dir 0 =? "/")%char).
  - intros Hn.
    destruct (act_store_args_run optind dir (n - (optind + 1))
                (drop (Z.to_nat (optind + 1)) argv) w)
      as [Hexit | (pid & uid & gid & sig & ts & Hrun)];
      [lia | rewrite length_drop; lia | by left |].
    right. fold r in Hrun.
    assert (argv_get (drop (Z.to_nat (optind + 1)) argv) (optind + 7)
            = Ret (last argv)) as Hcomm.
    { unfold argv_get. rewrite length_drop.
      destruct (Z.leb_spec 0 (optind + 7)); [|lia].
      destruct (Z.leb_spec (optind + 7)
                  (Z.of_nat (length argv - Z.to_nat (optind + 1)))); [|lia].
      simpl. rewrite lookup_drop, last_lookup. do 2 f_equal. lia. }
    assert (argv_get (drop (Z.to_nat (optind + 1)) argv) (optind + 8) = Ret None)
      as Hpath.
    { unfold argv_get. rewrite length_drop.
      destruct (Z.leb_spec 0 (optind + 8)); [|lia].
      destruct (Z.leb_spec (optind + 8)
                  (Z.of_nat (length argv - Z.to_nat (optind + 1)))); [|lia].
      simpl. f_equal. apply lookup_ge_None_2. rewrite length_drop. lia. }
    rewrite Hcomm, Hpath in Hrun.
    change (r = (Ret (StoreArgs pid uid gid sig ts (last argv) None), w)) in Hrun.
    pose proof Hrun as Hinv. unfold r in Hinv.
    apply act_store_args_Ret in Hinv as (_ & _ & _ & (tok & Hpid & _ & Hval) & _).
    apply argv_get_Ret in Hpid as [_ Hpid]. rewrite lookup_drop in Hpid.
    exists (StoreArgs pid uid gid sig ts (last argv) None), tok.
    split_and!; [done | | done | done | done].
    replace (Z.to_nat (2 * optind + 2))
      with (Z.to_nat (optind + 1) + Z.to_nat (optind + 1))%nat by lia.
    done.
  - intros Hn.
    destruct (act_store_args_run optind dir (n - (optind + 1))
                (drop (Z.to_nat (optind + 1)) argv) w)
      as [Hexit | (pid & uid & gid & sig & ts & Hrun)];
      [lia | rewrite length_drop; lia | by left |].
    right. fold r in Hrun.
    assert (argv_get (drop (Z.to_nat (optind + 1)) argv) (optind + 7) = Ret None)
      as Hcomm.
    { unfold argv_get. rewrite length_drop.
      destruct (Z.leb_spec 0 (optind + 7)); [|lia].
      destruct (Z.leb_spec (optind + 7)
                  (Z.of_nat (length argv - Z.to_nat (optind + 1)))); [|lia].
      simpl. f_equal. apply lookup_ge_None_2. rewrite length_drop. lia. }
    assert (argv_get (drop (Z.to_nat (optind + 1)) argv) (optind + 8) = Undef)
      as Hpath.
    { unfold argv_get. rewrite length_drop.
      destruct (Z.leb_spec (optind + 8)
                  (Z.of_nat (length argv - Z.to_nat (optind + 1)))); [lia|].
      by rewrite andb_false_r. }
    by rewrite Hcomm, Hpath in Hrun.
Qed.

Lemma act_store_args_as_called_by_main_witness :
  let argv := ["dumpctl"; "store"; "a"; "b"; "1234"; "0"; "0"; "11"; "1700000000";
               "c"; "myprog"] in
  let w := World ∅ ∅ ∅ (InStream [] false []) [] ∅ [] [] [] in
  ∃ a tok, act_store_args 1 "/var/lib/coredumps" 9 (drop 2 argv) w = (Ret a, w)
           ∧ argv !! 4%nat = Some tok
           ∧ sa_pid a = st_value (strtoumax tok)
           ∧ sa_comm a = Some "myprog"
           ∧ sa_path a = None.
Proof.
  intros argv w.
  destruct (act_store_args_as_called_by_main 1 "/var/lib/coredumps" argv w
              ltac:(simpl; lia) ltac:(simpl; lia))
    as (_ & _ & H9 & _).
  destruct (H9 eq_refl) as [Hexit | (a & tok & Hrun & Htok & Hpid & Hcomm & Hpath)].
  - vm_compute in Hexit. discriminate.
  - exists a, tok. split_and!; [exact Hrun | exact Htok | exact Hpid | exact Hcomm | exact Hpath].
Defined.
(** ** The leaf name, for a sane time stamp *)

(** The month and the day of [civil_from_days] are a calendar month and
    day. *)
Lemma civil_from_days_month_day (days : Z) :
  1 <= (civil_from_days days).1.2 <= 12 ∧ 1 <= (civil_from_days days).2 <= 31.
Proof.
  unfold civil_from_days. cbv zeta. simpl fst. simpl snd.
  set (doe := days + 719468 - (days + 719468) / 146097 * 146097).
  assert (0 <= doe < 146097) as Hdoe.
  { unfold doe. Z.div_mod_to_equations. lia. }
  clearbody doe.
  set (yoe := (doe - doe / 1460 + doe / 36524 - doe / 146096) / 365).
  set (doy := doe - (365 * yoe + yoe / 4 - yoe / 100)).
  assert (0 <= doy <= 365) as Hdoy.
  { unfold doy, yoe. Z.div_mod_to_equations. lia. }
  clearbody doy.
  destruct (Z.ltb_spec ((5 * doy + 2) / 153) 10); Z.div_mod_to_equations; lia.
Qed.

Lemma pad2_length (n : Z) : 0 <= n < 100 → String.length (pad2 n) = 2%nat.
Proof.
  intros Hn.
  assert (forallb (λ n, Nat.eqb (String.length (pad2 n)) 2) (seqZ 0 100) = true) as Hall
    by (vm_compute; reflexivity).
  rewrite forallb_forall in Hall.
  apply Nat.eqb_eq, Hall, list_elem_of_In, elem_of_seqZ. lia.
Qed.

Lemma pretty_int_year_length (y : Z) :
  - 2 ^ 32 <= y <= 2 ^ 32 → (String.length (pretty y) ≤ 11)%nat.
Proof.
  intros Hy.
  assert (∀ p, (N.pos p < 10 ^ N.of_nat 10)%N →
               (String.length (pretty (N.pos p)) ≤ 10)%nat) as Hpos.
  { intros p Hp. unfold pretty, pretty_N.
    destruct (decide (N.pos p = 0%N)); [done|].
    etrans; [by apply (pretty_N_go_length_le 10)|simpl; lia]. }
  change (10 ^ N.of_nat 10)%N with 10000000000%N in Hpos.
  unfold pretty at 1, pretty_Z.
  destruct y as [|p|p]; [simpl; lia | |].
  - unfold pretty, pretty_positive. etrans; [apply Hpos; lia | lia].
  - rewrite string_length_app. pose proof (Hpos p ltac:(lia)) as Hp.
    unfold pretty, pretty_positive. simpl String.length. lia.
Qed.

Lemma gmtime_r_fields (t : Z) (r : tm) :
  gmtime_r t = Some r → (String.length (format_F_HMS r) ≤ 26)%nat.
Proof.
  unfold gmtime_r.
  pose proof (civil_from_days_month_day (t / 86400)) as [Hm Hd].
  destruct (civil_from_days (t / 86400)) as [[y m] d]. simpl in Hm, Hd.
  unfold INT_MIN, INT_MAX.
  destruct (Z.leb_spec (- 2 ^ 31) (y - 1900)); [|done].
  destruct (Z.leb_spec (y - 1900) (2 ^ 31 - 1)); [|done].
  simpl. intros [= <-].
  unfold format_F_HMS. simpl. rewrite !string_length_app.
  rewrite (pad2_length (m - 1 + 1)) by lia.
  rewrite (pad2_length d) by lia.
  rewrite (pad2_length ((t mod 86400) / 3600)) by (Z.div_mod_to_equations; lia).
  rewrite (pad2_length (((t mod 86400) / 60) mod 60)) by (Z.div_mod_to_equations; lia).
  rewrite (pad2_length ((t mod 86400) mod 60)) by (Z.div_mod_to_equations; lia).
  assert (- 2 ^ 31 <= to_int (y - 1900 + 1900) < 2 ^ 31) as Hint.
  { unfold to_int. pose proof (Z.mod_pos_bound (y - 1900 + 1900) (2 ^ 32) ltac:(lia)).
    destruct (Z.ltb_spec ((y - 1900 + 1900) mod 2 ^ 32) (2 ^ 31)); lia. }
  pose proof (pretty_int_year_length (to_int (y - 1900 + 1900)) ltac:(lia)).
  simpl. lia.
Qed.

(** X17. With [PATH_MAX] at least 77 the leaf name always fits: for a pid
    and a uid in [uintmax_t] and a time stamp within [2^55] seconds of the
    epoch, [store_leaf_name] returns the calendar time followed by
    [.pid=<pid>.uid=<uid>] and prints nothing; none of its three failure
    exits is taken. *)
Theorem store_leaf_name_always_fits (PATH_MAX ts pid uid : Z) (w : world) :
  77 <= PATH_MAX → 0 <= pid < 2 ^ 64 → 0 <= uid < 2 ^ 64 →
  - 2 ^ 55 <= to_ssize_t ts <= 2 ^ 55 →
  ∃ t, gmtime_r (to_ssize_t ts) = Some t
       ∧ store_leaf_name PATH_MAX ts pid uid w
         = (Ret (format_F_HMS t +:+ ".pid=" +:+ pretty pid +:+ ".uid=" +:+ pretty uid), w).
Proof.
  intros Hmax Hpid Huid Hts.
  destruct (gmtime_r_defined _ Hts) as [t Hgm]. exists t. split; [done|].
  pose proof (gmtime_r_fields _ _ Hgm) as Htime.
  pose proof (format_F_HMS_nonempty t) as Hnonempty.
  set (suffix := ".pid=" +:+ pretty pid +:+ ".uid=" +:+ pretty uid).
  set (need := Z.of_nat (String.length suffix)).
  assert (0 <= need <= 50) as Hneed.
  { unfold need, suffix. rewrite !string_length_app. simpl.
    pose proof (pretty_uintmax_length _ Hpid).
    pose proof (pretty_uintmax_length _ Huid). lia. }
  assert (to_int need = need) as Hint.
  { unfold to_int. rewrite Z.mod_small by lia.
    destruct (Z.ltb_spec need (2 ^ 31)); [done | lia]. }
  unfold store_leaf_name. rewrite Hgm. unfold strftime.
  destruct (Z.leb_spec (Z.of_nat (String.length (format_F_HMS t)) + 1) PATH_MAX); [|lia].
  destruct (Z.eqb_spec (Z.of_nat (String.length (format_F_HMS t))) 0); [lia|].
  fold suffix. fold need. rewrite Hint.
  destruct (Z.ltb_spec need 0); [lia|].
  unfold wrap_size_t. rewrite Z.mod_small by lia.
  destruct (Z.ltb_spec (PATH_MAX - Z.of_nat (String.length (format_F_HMS t)) - 1) need);
    [lia|].
  done.
Qed.

Lemma store_leaf_name_always_fits_witness :
  ∃ t, gmtime_r (to_ssize_t 1700000000) = Some t
       ∧ store_leaf_name 4096 1700000000 1234 1000
           (World ∅ ∅ ∅ (InStream [] false []) [] ∅ [] [] [])
         = (Ret (format_F_HMS t +:+ ".pid=" +:+ pretty 1234 +:+ ".uid=" +:+ pretty 1000),
            World ∅ ∅ ∅ (InStream [] false []) [] ∅ [] [] []).
Proof.
  apply (store_leaf_name_always_fits 4096 1700000000 1234 1000).
  - lia.
  - lia.
  - lia.
  - vm_compute. split; discriminate.
Defined.
(** *** The leaf name tells the process and the user *)

Lemma strtoumax_pretty_dot (n : Z) (rest : string) :
  0 <= n <= UINTMAX_MAX →
  strtoumax (pretty n +:+ String "." rest) = StrtoResult n (String "." rest) false.
Proof.
  intros [Hn Hle]. destruct (decide (n = 0)) as [-> | Hnz]; [reflexivity|].
  rewrite strtoumax_decimal_then by (lia || done).
  by destruct (Z.ltb_spec UINTMAX_MAX n); [lia|].
Qed.

Lemma store_leaf_name_Ret PATH_MAX ts pid uid w name w1 :
  store_leaf_name PATH_MAX ts pid uid w = (Ret name, w1) →
  ∃ t, gmtime_r (to_ssize_t ts) = Some t
       ∧ name = (strftime PATH_MAX t).2 +:+ ".pid=" +:+ pretty pid +:+ ".uid=" +:+ pretty uid.
Proof.
  unfold store_leaf_name.
  destruct (gmtime_r (to_ssize_t ts)) as [t|]; [|done].
  destruct (strftime PATH_MAX t) as [b path_buf] eqn:Hst. simpl.
  repeat case_match; try done.
  intros [= <- <-]. exists t. by rewrite Hst.
Qed.

(** X18. The leaf name tells the process and the user apart: two leaf names
    made for the same time stamp are equal only if the pids are equal and
    the uids are equal. *)
Theorem store_leaf_name_tells_pid_uid
    (PATH_MAX ts pid uid pid' uid' : Z) (w w' w1 w1' : world) (name : string) :
  0 <= pid < 2 ^ 64 → 0 <= uid < 2 ^ 64 → 0 <= pid' < 2 ^ 64 → 0 <= uid' < 2 ^ 64 →
  store_leaf_name PATH_MAX ts pid uid w = (Ret name, w1) →
  store_leaf_name PATH_MAX ts pid' uid' w' = (Ret name, w1') →
  pid = pid' ∧ uid = uid'.
Proof.
  intros Hpid Huid Hpid' Huid'.
  intros (t & Hgm & ->)%store_leaf_name_Ret (t' & Hgm' & Heq)%store_leaf_name_Ret.
  assert (t' = t) as -> by congruence.
  apply (inj (String.app _)) in Heq.
  apply (inj (String.app ".pid=")) in Heq.
  change (".uid=" +:+ pretty uid) with (String "." ("uid=" +:+ pretty uid)) in Heq.
  change (".uid=" +:+ pretty uid') with (String "." ("uid=" +:+ pretty uid')) in Heq.
  apply (f_equal strtoumax) in Heq.
  rewrite !strtoumax_pretty_dot in Heq by (unfold UINTMAX_MAX; lia).
  injection Heq as Hp Hu.
  apply (inj (String.app EmptyString)) in Hu.
  apply (inj pretty) in Hu.
  done.
Qed.

Lemma store_leaf_name_tells_pid_uid_witness :
  (1234 : Z) = 1234 ∧ (1000 : Z) = 1000.
Proof.
  apply (store_leaf_name_tells_pid_uid 4096 1700000000 1234 1000 1234 1000
           (World ∅ ∅ ∅ (InStream [] false []) [] ∅ [] [] [])
           (World {[ [] := Dir ]} ∅ ∅ (InStream [] false []) [] ∅ [] [] [])
           (World ∅ ∅ ∅ (InStream [] false []) [] ∅ [] [] [])
           (World {[ [] := Dir ]} ∅ ∅ (InStream [] false []) [] ∅ [] [] [])
           "2023-11-14_22:13:20.pid=1234.uid=1000");
    [lia | lia | lia | lia | vm_compute; reflexivity | vm_compute; reflexivity].
Defined.
(** *** A time stamp the calendar cannot hold *)

Lemma civil_from_days_year_bounds (days : Z) :
  400 * ((days + 719468) / 146097) <= (civil_from_days days).1.1
  <= 400 * ((days + 719468) / 146097) + 401.
Proof.
  unfold civil_from_days. cbv zeta. simpl fst.
  set (era := (days + 719468) / 146097).
  set (doe := days + 719468 - era * 146097).
  assert (0 <= doe < 146097) as Hdoe.
  { unfold doe, era. Z.div_mod_to_equations. lia. }
  clearbody doe era.
  set (yoe := (doe - doe / 1460 + doe / 36524 - doe / 146096) / 365).
  assert (0 <= yoe <= 400) as Hyoe.
  { unfold yoe. Z.div_mod_to_equations. lia. }
  clearbody yoe.
  repeat case_match; lia.
Qed.

(** X19. The result of [gmtime_r] goes unchecked. For a time stamp of
    [2^57] seconds or more from the epoch, either way, the year does not
    fit [tm_year], [gmtime_r] fails and leaves [tm] unset, and
    [store_leaf_name] formats it all the same: the behaviour is undefined,
    and nothing has been printed. *)
Theorem store_leaf_name_time_overflow (PATH_MAX ts pid uid : Z) (w : world) :
  2 ^ 57 <= to_ssize_t ts ∨ to_ssize_t ts <= - 2 ^ 57 →
  gmtime_r (to_ssize_t ts) = None
  ∧ store_leaf_name PATH_MAX ts pid uid w = (Undef, w).
Proof.
  intros Hts.
  assert (gmtime_r (to_ssize_t ts) = None) as Hgm.
  { unfold gmtime_r.
    pose proof (civil_from_days_year_bounds (to_ssize_t ts / 86400)) as Hy.
    destruct (civil_from_days (to_ssize_t ts / 86400)) as [[y m] d]. simpl in Hy.
    unfold INT_MIN, INT_MAX.
    destruct Hts as [Hbig | Hsmall].
    - destruct (Z.leb_spec (y - 1900) (2 ^ 31 - 1)) as [Hle|]; [|by rewrite andb_false_r].
      exfalso. revert Hy Hle Hbig. generalize (to_ssize_t ts). intros t.
      Z.div_mod_to_equations. lia.
    - destruct (Z.leb_spec (- 2 ^ 31) (y - 1900)) as [Hle|]; [|done].
      exfalso. revert Hy Hle Hsmall. generalize (to_ssize_t ts). intros t.
      Z.div_mod_to_equations. lia. }
  split; [done|]. unfold store_leaf_name. by rewrite Hgm.
Qed.

Lemma store_leaf_name_time_overflow_witness :
  gmtime_r (to_ssize_t (2 ^ 60)) = None
  ∧ store_leaf_name 4096 (2 ^ 60) 1234 1000
      (World ∅ ∅ ∅ (InStream [] false []) [] ∅ [] [] [])
    = (Undef, World ∅ ∅ ∅ (InStream [] false []) [] ∅ [] [] []).
Proof.
  apply (store_leaf_name_time_overflow 4096 (2 ^ 60) 1234 1000).
  left. vm_compute. discriminate.
Defined.
(** ** Logging *)

(** X20. The level prefix is read back. A message logged through the
    [PR_LOG] macro with a one-digit level ([pr_err], [pr_warn] and the
    others) goes to the system log with that level and to standard error,
    both without the prefix; nothing else changes. *)
Theorem pr_log_reads_level_prefix (lvl : Z) (msg : string) (w : world) :
  0 <= lvl <= 9 →
  pr_log ("<" +:+ pretty lvl +:+ ">" +:+ msg) w
  = (Ret (), set_stderr (w_stderr w ++ [msg])
               (set_syslog (w_syslog w ++ [(lvl, msg)]) w)).
Proof.
  intros Hlvl.
  assert (lvl = 0 ∨ lvl = 1 ∨ lvl = 2 ∨ lvl = 3 ∨ lvl = 4 ∨ lvl = 5 ∨ lvl = 6
          ∨ lvl = 7 ∨ lvl = 8 ∨ lvl = 9) as Hcases by lia.
  destruct Hcases as [-> | [-> | [-> | [-> | [-> | [-> | [-> | [-> | [-> | ->]]]]]]]]];
    reflexivity.
Qed.

Lemma pr_log_reads_level_prefix_witness :
  pr_warn "action list is unimplimented\n"
    (World ∅ ∅ ∅ (InStream [] false []) [] ∅ [] [] [])
  = (Ret (), World ∅ ∅ ∅ (InStream [] false []) [] ∅
               ["action list is unimplimented\n"]
               [(LOG_WARNING, "action list is unimplimented\n")] []).
Proof.
  apply (pr_log_reads_level_prefix LOG_WARNING "action list is unimplimented\n"
           (World ∅ ∅ ∅ (InStream [] false []) [] ∅ [] [] [])).
  unfold LOG_WARNING. lia.
Defined.
